(** * The Neon Voice: the live voice link, its audio framing and the project store

  A shallow embedding of the real-time session hook [useLiveAgent]
  (hooks/useLiveAgent.ts), of the button that drives it
  (components/LiveInterface.tsx), of the PCM framer the hook imports from
  utils/audio and of [getProjectsByUser] (utils/db.ts), followed by the
  properties proved about them.

  Conventions of the embedding.
  - JavaScript numbers that carry time, rates, levels and sample values are
    exact rationals ([Q]); integer timestamps, bytes and PCM samples are [Z].
  - Browser objects (audio contexts, media streams, nodes, timers, the
    duplex transport) live in an explicit [World]; a handle is the index of
    the object in the list that holds its kind, and a React ref holding a
    handle or [null] is an [option nat].
  - A callback is a computation in a small state-and-exception monad [M]:
    it returns normally or throws, and in both cases the assignments it has
    made stay.  React state setters are assignments.
  - A callback runs to its end before the next one starts, as on the single
    event loop of the page.  [connect] is the one that is cut in two: it
    suspends at [await getUserMedia], where the browser waits for the user,
    and any other callback may run before it resumes.  The [await] on the
    decoder inside [onmessage] resumes before any other callback runs.  What
    the browser, the device clock and the remote endpoint decide is an
    argument of the callback. *)

From Stdlib Require Import ZArith QArith Qminmax Qround Qabs Lia Lqa.
From Stdlib Require Import String Ascii List.
From Stdlib Require Import Sorting.Permutation Sorting.Sorted.
From stdpp Require Import base option list.

Set Default Proof Using "Type".

(* ===================================================================== *)
(** * Part I: the embedding                                                *)
(* ===================================================================== *)

(** ** JavaScript idioms used by the sources *)
Module JS.

(** [x || d] on numbers: [0] (and NaN, which [Q] does not have) is falsy. *)
Definition num_or (x d : Q) : Q := if Qeq_bool x 0 then d else x.

(** Truthiness of a string: the empty string is falsy. *)
Definition truthy_string (s : string) : bool :=
  match s with EmptyString => false | String _ _ => true end.

(** Truthiness of an optional boolean flag ([undefined] is falsy). *)
Definition truthy_flag (f : option bool) : bool :=
  match f with Some true => true | _ => false end.

(** [a > b] on numbers. *)
Definition gt (a b : Q) : bool := negb (Qle_bool a b).

End JS.

(** ** types.ts *)
Module Types.

Record VoiceSettings := { speed : Q; pitch : Q }.

Record AgentPersona := {
  id : string;
  name : string;
  voice : string;
  (* declared mandatory, but the hook tests it before use *)
  voiceSettings : option VoiceSettings;
  systemInstruction : string;
  avatarColor : string
}.

Record Project := {
  project_id : string;
  userId : string;
  project_name : string;
  createdAt : Z;
  updatedAt : Z;
  text : string;
  duration : Q
}.

End Types.

(** ** hooks/useLiveAgent.ts *)
Module LiveAgent.
Import Types.

(** *** Browser objects *)

(** A decoded, playable mono buffer (Web Audio [AudioBuffer]). *)
Record AudioBuffer := { channelData : list Q; sampleRate : positive }.

(** [AudioBuffer.duration]: frames over frame rate, in seconds. *)
Definition duration (b : AudioBuffer) : Q :=
  Z.of_nat (length (channelData b)) # sampleRate b.

(** The endpoint's [Blob]: base64 text and its MIME type, both optional. *)
Record Blob := { data : option string; mimeType : option string }.

Record AudioContext := { contextRate : Z; closed : bool }.

Inductive NodeKind :=
| MediaStreamSource
| ScriptProcessor (session : nat).   (* its [onaudioprocess] closes over [sessionPromise] *)

Record AudioNode := { kind : NodeKind; connected : bool }.

Inductive PromiseState := Pending | Fulfilled | Rejected.

(** One call of [ai.live.connect]: the persona its callbacks close over, the
    state of the returned [sessionPromise], the [then]-reactions waiting on
    it, and what the endpoint has been sent so far. *)
Record Transport := {
  persona : AgentPersona;
  promise : PromiseState;
  reactions : list Blob;
  received : list Blob
}.

(** One [source.start(when)] on the output device. *)
Record ScheduledSource := {
  buffer : AudioBuffer;
  playbackRate : Q;
  detune : Q;
  when : Q
}.

(** One call of [connect] that has reached [await getUserMedia]: the
    persona it was called with, and whether the microphone has yet to
    answer. *)
Record Attempt := { caller : AgentPersona; waiting : bool }.

Record World := {
  contexts : list AudioContext;
  streams : list bool;              (* [true]: the tracks are live *)
  nodes : list AudioNode;
  transports : list Transport;
  timers : list bool;               (* [true]: the interval is armed *)
  started : list ScheduledSource;   (* in the order of the [start] calls *)
  rejections : nat;                 (* promises rejected with nobody listening *)
  attempts : list Attempt           (* the calls of [connect] that suspended *)
}.

(** *** The hook's own state *)

Record Refs := {
  audioContextRef : option nat;
  inputContextRef : option nat;
  nextStartTimeRef : Q;
  sessionRef : option nat;
  streamRef : option nat;
  processorRef : option nat;
  sourceRef : option nat;
  inputAnalyserRef : option nat;    (* the context the analyser was made on *)
  outputAnalyserRef : option nat;
  volumeIntervalRef : option nat
}.

Record VolumeLevels := { input : Q; output : Q }.

Record UI := {
  isConnected : bool;
  isSpeaking : bool;
  isListening : bool;
  volumeLevels : VolumeLevels;
  error : option string
}.

Record State := { refs : Refs; ui : UI; world : World }.

(** The hook as first rendered: every [useState]/[useRef] initial value, in a
    browser that holds nothing yet. *)
Definition initial : State :=
  {| refs := {| audioContextRef := None; inputContextRef := None;
                nextStartTimeRef := 0; sessionRef := None; streamRef := None;
                processorRef := None; sourceRef := None;
                inputAnalyserRef := None; outputAnalyserRef := None;
                volumeIntervalRef := None |};
     ui := {| isConnected := false; isSpeaking := false; isListening := false;
              volumeLevels := {| input := 0; output := 0 |}; error := None |};
     world := {| contexts := []; streams := []; nodes := []; transports := [];
                 timers := []; started := []; rejections := 0;
                 attempts := [] |} |}.

(** Assignments to one ref ([set_]), one React state ([set] + its setter's
    name) or one part of the browser ([put_]). *)
Definition set_audioContextRef (v : option nat) (s : State) : State :=
  {| refs :=
      {| audioContextRef := v;
         inputContextRef := inputContextRef (refs s);
         nextStartTimeRef := nextStartTimeRef (refs s);
         sessionRef := sessionRef (refs s);
         streamRef := streamRef (refs s);
         processorRef := processorRef (refs s);
         sourceRef := sourceRef (refs s);
         inputAnalyserRef := inputAnalyserRef (refs s);
         outputAnalyserRef := outputAnalyserRef (refs s);
         volumeIntervalRef := volumeIntervalRef (refs s) |};
     ui := ui s;
     world := world s |}.
Definition set_inputContextRef (v : option nat) (s : State) : State :=
  {| refs :=
      {| audioContextRef := audioContextRef (refs s);
         inputContextRef := v;
         nextStartTimeRef := nextStartTimeRef (refs s);
         sessionRef := sessionRef (refs s);
         streamRef := streamRef (refs s);
         processorRef := processorRef (refs s);
         sourceRef := sourceRef (refs s);
         inputAnalyserRef := inputAnalyserRef (refs s);
         outputAnalyserRef := outputAnalyserRef (refs s);
         volumeIntervalRef := volumeIntervalRef (refs s) |};
     ui := ui s;
     world := world s |}.
Definition set_nextStartTimeRef (v : Q) (s : State) : State :=
  {| refs :=
      {| audioContextRef := audioContextRef (refs s);
         inputContextRef := inputContextRef (refs s);
         nextStartTimeRef := v;
         sessionRef := sessionRef (refs s);
         streamRef := streamRef (refs s);
         processorRef := processorRef (refs s);
         sourceRef := sourceRef (refs s);
         inputAnalyserRef := inputAnalyserRef (refs s);
         outputAnalyserRef := outputAnalyserRef (refs s);
         volumeIntervalRef := volumeIntervalRef (refs s) |};
     ui := ui s;
     world := world s |}.
Definition set_sessionRef (v : option nat) (s : State) : State :=
  {| refs :=
      {| audioContextRef := audioContextRef (refs s);
         inputContextRef := inputContextRef (refs s);
         nextStartTimeRef := nextStartTimeRef (refs s);
         sessionRef := v;
         streamRef := streamRef (refs s);
         processorRef := processorRef (refs s);
         sourceRef := sourceRef (refs s);
         inputAnalyserRef := inputAnalyserRef (refs s);
         outputAnalyserRef := outputAnalyserRef (refs s);
         volumeIntervalRef := volumeIntervalRef (refs s) |};
     ui := ui s;
     world := world s |}.
Definition set_streamRef (v : option nat) (s : State) : State :=
  {| refs :=
      {| audioContextRef := audioContextRef (refs s);
         inputContextRef := inputContextRef (refs s);
         nextStartTimeRef := nextStartTimeRef (refs s);
         sessionRef := sessionRef (refs s);
         streamRef := v;
         processorRef := processorRef (refs s);
         sourceRef := sourceRef (refs s);
         inputAnalyserRef := inputAnalyserRef (refs s);
         outputAnalyserRef := outputAnalyserRef (refs s);
         volumeIntervalRef := volumeIntervalRef (refs s) |};
     ui := ui s;
     world := world s |}.
Definition set_processorRef (v : option nat) (s : State) : State :=
  {| refs :=
      {| audioContextRef := audioContextRef (refs s);
         inputContextRef := inputContextRef (refs s);
         nextStartTimeRef := nextStartTimeRef (refs s);
         sessionRef := sessionRef (refs s);
         streamRef := streamRef (refs s);
         processorRef := v;
         sourceRef := sourceRef (refs s);
         inputAnalyserRef := inputAnalyserRef (refs s);
         outputAnalyserRef := outputAnalyserRef (refs s);
         volumeIntervalRef := volumeIntervalRef (refs s) |};
     ui := ui s;
     world := world s |}.
Definition set_sourceRef (v : option nat) (s : State) : State :=
  {| refs :=
      {| audioContextRef := audioContextRef (refs s);
         inputContextRef := inputContextRef (refs s);
         nextStartTimeRef := nextStartTimeRef (refs s);
         sessionRef := sessionRef (refs s);
         streamRef := streamRef (refs s);
         processorRef := processorRef (refs s);
         sourceRef := v;
         inputAnalyserRef := inputAnalyserRef (refs s);
         outputAnalyserRef := outputAnalyserRef (refs s);
         volumeIntervalRef := volumeIntervalRef (refs s) |};
     ui := ui s;
     world := world s |}.
Definition set_inputAnalyserRef (v : option nat) (s : State) : State :=
  {| refs :=
      {| audioContextRef := audioContextRef (refs s);
         inputContextRef := inputContextRef (refs s);
         nextStartTimeRef := nextStartTimeRef (refs s);
         sessionRef := sessionRef (refs s);
         streamRef := streamRef (refs s);
         processorRef := processorRef (refs s);
         sourceRef := sourceRef (refs s);
         inputAnalyserRef := v;
         outputAnalyserRef := outputAnalyserRef (refs s);
         volumeIntervalRef := volumeIntervalRef (refs s) |};
     ui := ui s;
     world := world s |}.
Definition set_outputAnalyserRef (v : option nat) (s : State) : State :=
  {| refs :=
      {| audioContextRef := audioContextRef (refs s);
         inputContextRef := inputContextRef (refs s);
         nextStartTimeRef := nextStartTimeRef (refs s);
         sessionRef := sessionRef (refs s);
         streamRef := streamRef (refs s);
         processorRef := processorRef (refs s);
         sourceRef := sourceRef (refs s);
         inputAnalyserRef := inputAnalyserRef (refs s);
         outputAnalyserRef := v;
         volumeIntervalRef := volumeIntervalRef (refs s) |};
     ui := ui s;
     world := world s |}.
Definition set_volumeIntervalRef (v : option nat) (s : State) : State :=
  {| refs :=
      {| audioContextRef := audioContextRef (refs s);
         inputContextRef := inputContextRef (refs s);
         nextStartTimeRef := nextStartTimeRef (refs s);
         sessionRef := sessionRef (refs s);
         streamRef := streamRef (refs s);
         processorRef := processorRef (refs s);
         sourceRef := sourceRef (refs s);
         inputAnalyserRef := inputAnalyserRef (refs s);
         outputAnalyserRef := outputAnalyserRef (refs s);
         volumeIntervalRef := v |};
     ui := ui s;
     world := world s |}.
Definition setIsConnected (v : bool) (s : State) : State :=
  {| refs := refs s;
     ui :=
      {| isConnected := v;
         isSpeaking := isSpeaking (ui s);
         isListening := isListening (ui s);
         volumeLevels := volumeLevels (ui s);
         error := error (ui s) |};
     world := world s |}.
Definition setIsSpeaking (v : bool) (s : State) : State :=
  {| refs := refs s;
     ui :=
      {| isConnected := isConnected (ui s);
         isSpeaking := v;
         isListening := isListening (ui s);
         volumeLevels := volumeLevels (ui s);
         error := error (ui s) |};
     world := world s |}.
Definition setIsListening (v : bool) (s : State) : State :=
  {| refs := refs s;
     ui :=
      {| isConnected := isConnected (ui s);
         isSpeaking := isSpeaking (ui s);
         isListening := v;
         volumeLevels := volumeLevels (ui s);
         error := error (ui s) |};
     world := world s |}.
Definition setVolumeLevels (v : VolumeLevels) (s : State) : State :=
  {| refs := refs s;
     ui :=
      {| isConnected := isConnected (ui s);
         isSpeaking := isSpeaking (ui s);
         isListening := isListening (ui s);
         volumeLevels := v;
         error := error (ui s) |};
     world := world s |}.
Definition setError (v : option string) (s : State) : State :=
  {| refs := refs s;
     ui :=
      {| isConnected := isConnected (ui s);
         isSpeaking := isSpeaking (ui s);
         isListening := isListening (ui s);
         volumeLevels := volumeLevels (ui s);
         error := v |};
     world := world s |}.
Definition put_contexts (v : list AudioContext) (s : State) : State :=
  {| refs := refs s;
     ui := ui s;
     world :=
      {| contexts := v;
         streams := streams (world s);
         nodes := nodes (world s);
         transports := transports (world s);
         timers := timers (world s);
         started := started (world s);
         rejections := rejections (world s);
         attempts := attempts (world s) |} |}.
Definition put_streams (v : list bool) (s : State) : State :=
  {| refs := refs s;
     ui := ui s;
     world :=
      {| contexts := contexts (world s);
         streams := v;
         nodes := nodes (world s);
         transports := transports (world s);
         timers := timers (world s);
         started := started (world s);
         rejections := rejections (world s);
         attempts := attempts (world s) |} |}.
Definition put_nodes (v : list AudioNode) (s : State) : State :=
  {| refs := refs s;
     ui := ui s;
     world :=
      {| contexts := contexts (world s);
         streams := streams (world s);
         nodes := v;
         transports := transports (world s);
         timers := timers (world s);
         started := started (world s);
         rejections := rejections (world s);
         attempts := attempts (world s) |} |}.
Definition put_transports (v : list Transport) (s : State) : State :=
  {| refs := refs s;
     ui := ui s;
     world :=
      {| contexts := contexts (world s);
         streams := streams (world s);
         nodes := nodes (world s);
         transports := v;
         timers := timers (world s);
         started := started (world s);
         rejections := rejections (world s);
         attempts := attempts (world s) |} |}.
Definition put_timers (v : list bool) (s : State) : State :=
  {| refs := refs s;
     ui := ui s;
     world :=
      {| contexts := contexts (world s);
         streams := streams (world s);
         nodes := nodes (world s);
         transports := transports (world s);
         timers := v;
         started := started (world s);
         rejections := rejections (world s);
         attempts := attempts (world s) |} |}.
Definition put_started (v : list ScheduledSource) (s : State) : State :=
  {| refs := refs s;
     ui := ui s;
     world :=
      {| contexts := contexts (world s);
         streams := streams (world s);
         nodes := nodes (world s);
         transports := transports (world s);
         timers := timers (world s);
         started := v;
         rejections := rejections (world s);
         attempts := attempts (world s) |} |}.
Definition put_rejections (v : nat) (s : State) : State :=
  {| refs := refs s;
     ui := ui s;
     world :=
      {| contexts := contexts (world s);
         streams := streams (world s);
         nodes := nodes (world s);
         transports := transports (world s);
         timers := timers (world s);
         started := started (world s);
         rejections := v;
         attempts := attempts (world s) |} |}.
Definition put_attempts (v : list Attempt) (s : State) : State :=
  {| refs := refs s;
     ui := ui s;
     world :=
      {| contexts := contexts (world s);
         streams := streams (world s);
         nodes := nodes (world s);
         transports := transports (world s);
         timers := timers (world s);
         started := started (world s);
         rejections := rejections (world s);
         attempts := v |} |}.

(** *** Running code that may throw *)

(** How a piece of code ends: normally with a value, or by throwing; in both
    cases the assignments made so far stay. *)
Inductive Completion (A : Type) :=
| Normal (a : A) (s : State)
| Throw (s : State).
Arguments Normal {A} a s.
Arguments Throw {A} s.

Definition M (A : Type) : Type := State -> Completion A.

Definition ret {A} (a : A) : M A := fun s => Normal a s.

Definition bind {A B} (m : M A) (k : A -> M B) : M B :=
  fun s => match m s with
           | Normal a s' => k a s'
           | Throw s' => Throw s'
           end.

Definition throw {A} : M A := fun s => Throw s.

Definition gets {A} (f : State -> A) : M A := fun s => Normal (f s) s.

Definition modify (f : State -> State) : M unit := fun s => Normal tt (f s).

(** [try { body } catch { handler }] *)
Definition try_catch (body handler : M unit) : M unit :=
  fun s => match body s with
           | Normal _ s' => Normal tt s'
           | Throw s' => handler s'
           end.

(** [if (ref.current) { ... }] *)
Definition when_some {A} (o : option A) (k : A -> M unit) : M unit :=
  match o with Some a => k a | None => ret tt end.

Definition when_true (b : bool) (k : M unit) : M unit :=
  if b then k else ret tt.

(** The state a callback leaves behind, however it ended. *)
Definition final {A} (c : Completion A) : State :=
  match c with Normal _ s => s | Throw s => s end.

Definition threw {A} (c : Completion A) : bool :=
  match c with Normal _ _ => false | Throw _ => true end.

Notation "'let!' x ':=' m 'in' k" := (bind m (fun x => k))
  (at level 10, x name, m at level 100, k at level 200).
Notation "m >> k" := (bind m (fun _ => k))
  (at level 90, right associativity).

(** *** What the browser does *)

(** [new AudioContext({sampleRate})]: the browser may refuse (no audio
    device, too many open contexts). *)
Definition newAudioContext (ok : bool) (rate : Z) : M nat :=
  if ok then
    let! n := gets (fun s => length (contexts (world s))) in
    modify (fun s => put_contexts
      (contexts (world s) ++ [{| contextRate := rate; closed := false |}]) s) >>
    ret n
  else throw.

(** [context.close()]: returns a promise, which is rejected (not thrown) when
    the context is closed already; nobody awaits it. *)
Definition alreadyClosed (n : nat) (l : list AudioContext) : bool :=
  match l !! n with Some ctx => closed ctx | None => false end.

Definition closeAt (n : nat) (l : list AudioContext) : list AudioContext :=
  alter (fun ctx => {| contextRate := contextRate ctx; closed := true |}) n l.

Definition closeContext (n : nat) : M unit :=
  modify (fun s =>
    put_contexts (closeAt n (contexts (world s)))
      (put_rejections
         (if alreadyClosed n (contexts (world s))
          then S (rejections (world s)) else rejections (world s)) s)).

(** [await navigator.mediaDevices.getUserMedia({audio: true})]: rejected when
    the user or the platform denies the microphone. *)
Definition getUserMedia (granted : bool) : M nat :=
  if granted then
    let! n := gets (fun s => length (streams (world s))) in
    modify (fun s => put_streams (streams (world s) ++ [true]) s) >>
    ret n
  else throw.

(** [stream.getTracks().forEach(track => track.stop())] *)
Definition stopTracks (n : nat) : M unit :=
  modify (fun s => put_streams (<[n := false]> (streams (world s))) s).

Definition createNode (k : NodeKind) : M nat :=
  let! n := gets (fun s => length (nodes (world s))) in
  modify (fun s => put_nodes
    (nodes (world s) ++ [{| kind := k; connected := false |}]) s) >>
  ret n.

Definition switchAt (b : bool) (n : nat) (l : list AudioNode) : list AudioNode :=
  alter (fun nd => {| kind := kind nd; connected := b |}) n l.

Definition setConnected (b : bool) (n : nat) : M unit :=
  modify (fun s => put_nodes (switchAt b n (nodes (world s))) s).

(** [node.connect(...)] and [node.disconnect()] *)
Definition connectNode : nat -> M unit := setConnected true.
Definition disconnectNode : nat -> M unit := setConnected false.

(** [new GoogleGenAI(...)] followed by [ai.live.connect({...})]: the client
    library may throw before it returns the session promise. *)
Definition liveConnect (ok : bool) (agent : AgentPersona) : M nat :=
  if ok then
    let! n := gets (fun s => length (transports (world s))) in
    modify (fun s => put_transports
      (transports (world s) ++
       [{| persona := agent; promise := Pending;
           reactions := []; received := [] |}]) s) >>
    ret n
  else throw.

(** [window.setInterval(..., 50)] *)
Definition setInterval : M nat :=
  let! n := gets (fun s => length (timers (world s))) in
  modify (fun s => put_timers (timers (world s) ++ [true]) s) >>
  ret n.

Definition clearInterval (n : nat) : M unit :=
  modify (fun s => put_timers (<[n := false]> (timers (world s))) s).

(** [source.start(when)] on a fresh buffer source *)
Definition startSource (src : ScheduledSource) : M unit :=
  modify (fun s => put_started (started (world s) ++ [src]) s).

(** *** The inbound message *)

(** A bag of optional fields, read with [?.] chains. *)
Record Part := { inlineData : option Blob }.
Record Content := { parts : option (list Part) }.
Record ServerContent := {
  modelTurn : option Content;
  interrupted : option bool;
  turnComplete : option bool
}.
Record LiveServerMessage := { serverContent : option ServerContent }.

(** [message.serverContent?.modelTurn?.parts?.[0]?.inlineData?.data] *)
Definition inlineAudio (message : LiveServerMessage) : option string :=
  sc ← serverContent message;
  mt ← modelTurn sc;
  ps ← parts mt;
  p ← ps !! 0%nat;
  b ← inlineData p;
  data b.

(** [message.serverContent?.interrupted] and [?.turnComplete], as tested *)
Definition isInterrupted (message : LiveServerMessage) : bool :=
  JS.truthy_flag (sc ← serverContent message; interrupted sc).
Definition isTurnComplete (message : LiveServerMessage) : bool :=
  JS.truthy_flag (sc ← serverContent message; turnComplete sc).

(** *** The hook *)
Section Hook.
Local Open Scope Q_scope.

(** The two imports from utils/audio.  The decoder takes the base64 text, the
    sample rate and the channel count; it fails on a payload it cannot read. *)
Variable decodeAudioData : string -> Z -> Z -> option AudioBuffer.
Variable createPcmBlob : list Q -> Blob.

(** [cleanup], which is also [disconnect] *)
Definition cleanup : M unit :=
  (let! p := gets (fun s => processorRef (refs s)) in
   when_some p (fun n =>
     disconnectNode n >> modify (set_processorRef None))) >>
  (let! p := gets (fun s => sourceRef (refs s)) in
   when_some p (fun n =>
     disconnectNode n >> modify (set_sourceRef None))) >>
  (let! p := gets (fun s => streamRef (refs s)) in
   when_some p (fun n =>
     stopTracks n >> modify (set_streamRef None))) >>
  (let! p := gets (fun s => inputContextRef (refs s)) in
   when_some p (fun n =>
     closeContext n >> modify (set_inputContextRef None))) >>
  (let! p := gets (fun s => audioContextRef (refs s)) in
   when_some p (fun n =>
     closeContext n >> modify (set_audioContextRef None))) >>
  (let! p := gets (fun s => sessionRef (refs s)) in
   when_some p (fun _ => modify (set_sessionRef None))) >>
  (let! p := gets (fun s => volumeIntervalRef (refs s)) in
   when_some p (fun n =>
     clearInterval n >> modify (set_volumeIntervalRef None))) >>
  modify (setIsConnected false) >>
  modify (setIsListening false) >>
  modify (setIsSpeaking false) >>
  modify (setVolumeLevels {| input := 0; output := 0 |}).

Definition disconnect : M unit := cleanup.

(** What the outside decides during one [connect]. *)
Record ConnectEnv := {
  outputContextOk : bool;
  inputContextOk : bool;
  micGranted : bool;
  clientOk : bool
}.

(** [connect] up to its [await]: the error is cleared, the two contexts are
    created and the refs, the analysers among them, are pointed at them. *)
Definition acquireContexts (outputContextOk inputContextOk : bool) : M unit :=
  modify (setError None) >>
  let! out := newAudioContext outputContextOk 24000 in
  modify (set_audioContextRef (Some out)) >>
  let! inp := newAudioContext inputContextOk 16000 in
  modify (set_inputContextRef (Some inp)) >>
  modify (set_outputAnalyserRef (Some out)) >>
  modify (set_inputAnalyserRef (Some inp)).

(** [connect] from the answer of [getUserMedia] on: the stream is stored,
    the transport opened and the telemetry timer armed. *)
Definition openSession (agent : AgentPersona) (micGranted clientOk : bool)
    : M unit :=
  let! stream := getUserMedia micGranted in
  modify (set_streamRef (Some stream)) >>
  let! sessionPromise := liveConnect clientOk agent in
  modify (set_sessionRef (Some sessionPromise)) >>
  let! timer := setInterval in
  modify (set_volumeIntervalRef (Some timer)).

(** The [catch] block of [connect] *)
Definition failedToInitialize : M unit :=
  modify (setError (Some "Failed to initialize"%string)) >>
  cleanup.

(** [connect] when the microphone answers before any other callback runs. *)
Definition connect (agent : AgentPersona) (env : ConnectEnv) : M unit :=
  try_catch
    (acquireContexts (outputContextOk env) (inputContextOk env) >>
     openSession agent (micGranted env) (clientOk env))
    failedToInitialize.

(** [connect] until it suspends at [await getUserMedia]: the attempt is
    left waiting, unless a context constructor has thrown, in which case the
    [catch] block has run and nothing waits. *)
Definition connectBegin (agent : AgentPersona)
    (outputContextOk inputContextOk : bool) : M unit :=
  try_catch
    (acquireContexts outputContextOk inputContextOk >>
     modify (fun s => put_attempts
       (attempts (world s) ++ [{| caller := agent; waiting := true |}]) s))
    failedToInitialize.

(** The attempt stops waiting. *)
Definition answered (attempt : nat) (agent : AgentPersona) (s : State)
    : State :=
  put_attempts
    (<[attempt := {| caller := agent; waiting := false |}]>
       (attempts (world s))) s.

(** [connect] from where it suspended, when the microphone answers for the
    attempt; it reads the refs as they are by then. *)
Definition connectResume (attempt : nat) (micGranted clientOk : bool)
    : M unit :=
  let! a := gets (fun s => attempts (world s) !! attempt) in
  match a with
  | Some {| caller := agent; waiting := true |} =>
      modify (answered attempt agent) >>
      try_catch (openSession agent micGranted clientOk) failedToInitialize
  | _ => ret tt
  end.

(** [callbacks.onopen] of the transport [sessionPromise] *)
Definition onopen (sessionPromise : nat) : M unit :=
  modify (setIsConnected true) >>
  modify (setIsListening true) >>
  let! ic := gets (fun s => inputContextRef (refs s)) in
  let! st := gets (fun s => streamRef (refs s)) in
  match ic, st with
  | Some _, Some _ =>
      let! src := createNode MediaStreamSource in
      modify (set_sourceRef (Some src)) >>
      connectNode src >>
      let! proc := createNode (ScriptProcessor sessionPromise) in
      modify (set_processorRef (Some proc)) >>
      connectNode src >>
      connectNode proc
  | _, _ => ret tt
  end.

(** [sessionPromise.then(session => session.sendRealtimeInput({media}))]:
    the reaction runs at once on a fulfilled promise, waits in registration
    order on a pending one, and never runs on a rejected one. *)
Definition thenSend (sessionPromise : nat) (media : Blob) : M unit :=
  let! t := gets (fun s => transports (world s) !! sessionPromise) in
  match t with
  | Some tr =>
      match promise tr with
      | Pending =>
          modify (fun s => put_transports
            (<[sessionPromise :=
                 {| persona := persona tr; promise := Pending;
                    reactions := reactions tr ++ [media];
                    received := received tr |}]> (transports (world s))) s)
      | Fulfilled =>
          modify (fun s => put_transports
            (<[sessionPromise :=
                 {| persona := persona tr; promise := Fulfilled;
                    reactions := reactions tr;
                    received := received tr ++ [media] |}]>
               (transports (world s))) s)
      | Rejected =>
          modify (fun s => put_rejections (S (rejections (world s))) s)
      end
  | None => ret tt
  end.

(** [processor.onaudioprocess], with the frame [e.inputBuffer.getChannelData(0)] *)
Definition onaudioprocess (sessionPromise : nat) (inputData : list Q) : M unit :=
  let pcmBlob := createPcmBlob inputData in
  thenSend sessionPromise pcmBlob.

(** The transport handshake ends: [sessionPromise] settles and the waiting
    reactions run in the order they were registered. *)
Definition settle (sessionPromise : nat) (ok : bool) : M unit :=
  let! t := gets (fun s => transports (world s) !! sessionPromise) in
  match t with
  | Some tr =>
      match promise tr with
      | Pending =>
          if ok then
            modify (fun s => put_transports
              (<[sessionPromise :=
                   {| persona := persona tr; promise := Fulfilled;
                      reactions := [];
                      received := received tr ++ reactions tr |}]>
                 (transports (world s))) s)
          else
            modify (fun s => put_transports
              (<[sessionPromise :=
                   {| persona := persona tr; promise := Rejected;
                      reactions := []; received := received tr |}]>
                 (transports (world s))) s) >>
            modify (fun s => put_rejections
              (Nat.max 1 (length (reactions tr)) + rejections (world s)) s)
      | _ => ret tt
      end
  | None => ret tt
  end.

(** The rate and detune given to a source: the node's defaults unless the
    persona has voice settings. *)
Definition sourceRate (agent : AgentPersona) : Q :=
  match voiceSettings agent with
  | Some vs => JS.num_or (speed vs) 1
  | None => 1
  end.
Definition sourceDetune (agent : AgentPersona) : Q :=
  match voiceSettings agent with
  | Some vs => JS.num_or (pitch vs) 0
  | None => 0
  end.

(** [callbacks.onmessage]; [now] is [audioContextRef.current.currentTime]. *)
Definition onmessage (agent : AgentPersona) (now : Q)
    (message : LiveServerMessage) : M unit :=
  let base64Audio := inlineAudio message in
  let! ctx := gets (fun s => audioContextRef (refs s)) in
  match base64Audio, ctx with
  | Some b64, Some _ =>
      when_true (JS.truthy_string b64)
        (modify (setIsSpeaking true) >>
         modify (fun s => set_nextStartTimeRef
                   (Qmax (nextStartTimeRef (refs s)) now) s) >>
         let! audioBuffer :=
           match decodeAudioData b64 24000 1 with
           | Some b => ret b
           | None => throw
           end in
         let! t := gets (fun s => nextStartTimeRef (refs s)) in
         startSource {| buffer := audioBuffer;
                        playbackRate := sourceRate agent;
                        detune := sourceDetune agent;
                        when := t |} >>
         let rate := JS.num_or (sourceRate agent) 1 in
         modify (fun s => set_nextStartTimeRef
                   (nextStartTimeRef (refs s) + duration audioBuffer / rate) s))
  | _, _ => ret tt
  end >>
  when_true (isInterrupted message) (modify (set_nextStartTimeRef 0)) >>
  when_true (isTurnComplete message) (modify (setIsSpeaking false)).

Definition onclose : M unit := cleanup.

Definition onerror : M unit :=
  modify (setError (Some "Connection Error"%string)) >>
  cleanup.

(** The mean of an analyser's byte magnitudes, scaled to [0,1]:
    [data.reduce((a, b) => a + b, 0) / data.length / 255]. *)
Definition level (data : list Z) : Q :=
  inject_Z (fold_left Z.add data 0%Z)
    / inject_Z (Z.of_nat (length data)) / 255.

(** The telemetry callback given to [setInterval]; the arguments are what
    [getByteFrequencyData] writes for the two analysers. *)
Definition tick (inputData outputData : list Z) : M unit :=
  let! ia := gets (fun s => inputAnalyserRef (refs s)) in
  let! oa := gets (fun s => outputAnalyserRef (refs s)) in
  let inputVol := match ia with Some _ => level inputData | None => 0 end in
  let outputVol := match oa with Some _ => level outputData | None => 0 end in
  modify (setVolumeLevels {| input := inputVol; output := outputVol |}) >>
  modify (setIsSpeaking (JS.gt outputVol (1 # 100))).

(** *** The page around the hook *)

(** Everything that can run next on the event loop. *)
Inductive Event :=
| Connect (agent : AgentPersona) (env : ConnectEnv)   (* the Connect button *)
| Disconnect                                          (* the Terminate button *)
| Unmount                                             (* the effect's cleanup *)
| Settle (sessionPromise : nat) (ok : bool)
| Open (sessionPromise : nat)
| Message (sessionPromise : nat) (now : Q) (message : LiveServerMessage)
| Close (sessionPromise : nat)
| Error (sessionPromise : nat)
| Tick (timer : nat) (inputData outputData : list Z)
| AudioProcess (node : nat) (inputData : list Q)
| Begin (agent : AgentPersona) (outputContextOk inputContextOk : bool)
| Resume (attempt : nat) (micGranted clientOk : bool).

(** The callback an event runs.  A timer fires only while armed, a processor
    only while connected, and a transport callback only for a transport that
    exists; its [onmessage] uses the persona it was created with.  The
    Connect button is [Connect] when the microphone answers before anything
    else runs; otherwise it is [Begin], and [Resume] is the answer of the
    microphone to an attempt that waits, with any callbacks in between. *)
Definition handler (e : Event) (s : State) : M unit :=
  match e with
  | Connect agent env => connect agent env
  | Disconnect => disconnect
  | Unmount => cleanup
  | Settle k ok => settle k ok
  | Open k =>
      match transports (world s) !! k with
      | Some _ => onopen k
      | None => ret tt
      end
  | Message k now message =>
      match transports (world s) !! k with
      | Some tr => onmessage (persona tr) now message
      | None => ret tt
      end
  | Close k =>
      match transports (world s) !! k with
      | Some _ => onclose
      | None => ret tt
      end
  | Error k =>
      match transports (world s) !! k with
      | Some _ => onerror
      | None => ret tt
      end
  | Tick t inputData outputData =>
      match timers (world s) !! t with
      | Some true => tick inputData outputData
      | _ => ret tt
      end
  | AudioProcess n inputData =>
      match nodes (world s) !! n with
      | Some {| kind := ScriptProcessor k; connected := true |} =>
          onaudioprocess k inputData
      | _ => ret tt
      end
  | Begin agent outputContextOk inputContextOk =>
      connectBegin agent outputContextOk inputContextOk
  | Resume attempt micGranted clientOk =>
      connectResume attempt micGranted clientOk
  end.

Definition step (s : State) (e : Event) : State := final (handler e s s).

Definition run (s : State) (es : list Event) : State := fold_left step es s.

(** *** The playback timeline, as the properties speak of it *)






(** *** The outbound side of one transport, as the properties speak of it *)

(** What can happen next on the way out: the processor delivers a frame, or
    the handshake of the transport completes. *)
Inductive Outbound :=
| Captured (frame : list Q)
| Handshake.

Definition outbound (sessionPromise : nat) (s : State)
    (events : list Outbound) : State :=
  fold_left
    (fun s e =>
       match e with
       | Captured frame => final (onaudioprocess sessionPromise frame s)
       | Handshake => final (settle sessionPromise true s)
       end)
    events s.


(** No call of [connect] waits for the microphone. *)
Definition settledAttempts (w : World) : Prop :=
  forall k a, attempts w !! k = Some a -> waiting a = false.

(** A history in which [connect] is only ever called on a session that
    holds nothing and while no earlier call waits for the microphone (the
    "valid only from Idle" of the state machine). *)
Definition guarded (s : State) (e : Event) : Prop :=
  match e with
  | Connect _ _ | Begin _ _ _ =>
      (audioContextRef (refs s) = None /\ inputContextRef (refs s) = None /\
       streamRef (refs s) = None /\ volumeIntervalRef (refs s) = None)
      /\ settledAttempts (world s)
  | _ => True
  end.

Fixpoint guardedRun (s : State) (es : list Event) : Prop :=
  match es with
  | [] => True
  | e :: es' => guarded s e /\ guardedRun (step s e) es'
  end.

(** No other call of [connect] starts. *)
Definition startsNoAttempt (e : Event) : Prop :=
  match e with
  | Connect _ _ | Begin _ _ _ => False
  | _ => True
  end.




End Hook.

(** *** What a session holds, as the properties speak of it *)

Definition openContexts (w : World) : nat :=
  length (List.filter (fun c => negb (closed c)) (contexts w)).
Definition liveStreams (w : World) : nat :=
  length (List.filter (fun live => live) (streams w)).
Definition armedTimers (w : World) : nat :=
  length (List.filter (fun armed => armed) (timers w)).
Definition openedTransports (w : World) : nat := length (transports w).

(** Every acquisition step of a [connect] goes through. *)
Definition succeeds (env : ConnectEnv) : bool :=
  outputContextOk env && inputContextOk env && micGranted env && clientOk env.

Definition granted : ConnectEnv :=
  {| outputContextOk := true; inputContextOk := true;
     micGranted := true; clientOk := true |}.

Definition micDenied : ConnectEnv :=
  {| outputContextOk := true; inputContextOk := true;
     micGranted := false; clientOk := true |}.

(** The zero state of the flags the hook shows to the page. *)
Definition zeroed (u : UI) : Prop :=
  isConnected u = false /\ isListening u = false /\ isSpeaking u = false /\
  volumeLevels u = {| input := 0; output := 0 |}.

(** Every ref that [cleanup] tests holds [null]. *)
Definition unreferenced (r : Refs) : Prop :=
  processorRef r = None /\ sourceRef r = None /\ streamRef r = None /\
  inputContextRef r = None /\ audioContextRef r = None /\
  sessionRef r = None /\ volumeIntervalRef r = None.

(** Everything still running in the browser is something the refs hold. *)
Definition accounted (s : State) : Prop :=
  (forall n c, contexts (world s) !! n = Some c -> closed c = false ->
     audioContextRef (refs s) = Some n \/ inputContextRef (refs s) = Some n)
  /\ (forall n, streams (world s) !! n = Some true ->
       streamRef (refs s) = Some n)
  /\ (forall n, timers (world s) !! n = Some true ->
       volumeIntervalRef (refs s) = Some n).

(** Among the contexts with a handle in [P], every one still running is
    one the refs hold. *)
Definition contextsHeld (P : nat -> Prop) (s : State) : Prop :=
  forall n c, P n -> contexts (world s) !! n = Some c -> closed c = false ->
    audioContextRef (refs s) = Some n \/ inputContextRef (refs s) = Some n.

(** Everything running is held, and at most one call of [connect] waits for
    the microphone, which then finds no stream and no timer held. *)
Definition tracked (s : State) : Prop :=
  accounted s /\
  forall k a, attempts (world s) !! k = Some a -> waiting a = true ->
    streamRef (refs s) = None /\ volumeIntervalRef (refs s) = None /\
    forall j b, attempts (world s) !! j = Some b -> waiting b = true -> j = k.

(** No reaction waits on a promise that has settled. *)
Definition settledClean (s : State) : Prop :=
  forall k tr, transports (world s) !! k = Some tr ->
    promise tr <> Pending -> reactions tr = [].

(** The handle is not (or no longer) a running resource. *)
Definition contextReleased (w : World) (n : nat) : Prop :=
  forall c, contexts w !! n = Some c -> closed c = true.
Definition streamReleased (w : World) (n : nat) : Prop :=
  streams w !! n <> Some true.
Definition timerReleased (w : World) (n : nat) : Prop :=
  timers w !! n <> Some true.
Definition nodeReleased (w : World) (n : nat) : Prop :=
  forall nd, nodes w !! n = Some nd -> connected nd = false.



Definition total (qs : list Q) : Q := fold_right Qplus 0%Q qs.



End LiveAgent.

(** ** components/LiveInterface.tsx *)
Module LiveInterface.
Import LiveAgent.

(** The one control the page shows for the link:
    [{!isConnected ? <button onClick={connect}> : <button onClick={disconnect}>}] *)
Inductive Control := ConnectButton | TerminateButton.

Definition control (u : UI) : Control :=
  if negb (isConnected u) then ConnectButton else TerminateButton.

End LiveInterface.

(** ** utils/audio.ts *)
Module Audio.
Import LiveAgent.
Local Open Scope Z_scope.

(** *** base64, as the browser's [btoa] and [atob] implement it (RFC 4648) *)

Definition alphabet : string :=
  "ABCDEFGHIJKLMNOPQRSTUVWXYZabcdefghijklmnopqrstuvwxyz0123456789+/".

Definition pad : ascii := "="%char.

Definition sextetChar (i : Z) : ascii :=
  match String.get (Z.to_nat i) alphabet with
  | Some c => c
  | None => pad
  end.

Definition charSextet (c : ascii) : option Z :=
  let n := Z.of_nat (nat_of_ascii c) in
  if (65 <=? n) && (n <=? 90) then Some (n - 65)
  else if (97 <=? n) && (n <=? 122) then Some (n - 71)
  else if (48 <=? n) && (n <=? 57) then Some (n + 4)
  else if n =? 43 then Some 62
  else if n =? 47 then Some 63
  else None.

Fixpoint btoa (bytes : list Z) : string :=
  match bytes with
  | [] => EmptyString
  | [a] =>
      String (sextetChar (a / 4))
        (String (sextetChar (a mod 4 * 16))
           (String pad (String pad EmptyString)))
  | [a; b] =>
      String (sextetChar (a / 4))
        (String (sextetChar (a mod 4 * 16 + b / 16))
           (String (sextetChar (b mod 16 * 4))
              (String pad EmptyString)))
  | a :: b :: c :: rest =>
      String (sextetChar (a / 4))
        (String (sextetChar (a mod 4 * 16 + b / 16))
           (String (sextetChar (b mod 16 * 4 + c / 64))
              (String (sextetChar (c mod 64)) (btoa rest))))
  end.

Fixpoint atob (s : string) : option (list Z) :=
  match s with
  | EmptyString => Some []
  | String c1 (String c2 (String c3 (String c4 rest))) =>
      s1 ← charSextet c1;
      s2 ← charSextet c2;
      if Ascii.eqb c3 pad then
        if Ascii.eqb c4 pad && String.eqb rest EmptyString
        then Some [s1 * 4 + s2 / 16]
        else None
      else
        s3 ← charSextet c3;
        if Ascii.eqb c4 pad then
          if String.eqb rest EmptyString
          then Some [s1 * 4 + s2 / 16; s2 mod 16 * 16 + s3 / 4]
          else None
        else
          s4 ← charSextet c4;
          bytes ← atob rest;
          Some (s1 * 4 + s2 / 16 :: s2 mod 16 * 16 + s3 / 4
                :: s3 mod 4 * 64 + s4 :: bytes)
  | _ => None
  end.

(** *** The PCM framer *)

(** utils/audio.ts is not among the sources, only its callers are: the
    framer below follows the specification (sections 2, 4.3, 7 and 8). *)

(** Modelled from the spec: the rounding inside the absent [createPcmBlob].
    Section 4.3 says "quantize each to a signed 16-bit integer" and names no
    direction, so the direction is a parameter. *)
Inductive Rounding := TowardZero | Down | Nearest | Up.

(** Modelled from the spec: the rounding inside the absent [createPcmBlob],
    in each of the directions a quantizer can take. *)
Definition round (mode : Rounding) (x : Q) : Z :=
  match mode with
  | TowardZero => Z.quot (Qnum x) (Zpos (Qden x))
  | Down => Qfloor x
  | Nearest => Qfloor (x + (1 # 2))
  | Up => Qceiling x
  end.

(** Modelled from the spec: the clamp inside the absent [createPcmBlob],
    "clamped to the representable range" of a signed 16-bit integer. *)
Definition clampInt16 (z : Z) : Z := Z.max (-32768) (Z.min 32767 z).

(** Modelled from the spec: the quantizer inside the absent [createPcmBlob].
    The scale is the one of the quantization step the spec gives, 1/32768
    (section 8), which is also the scale of the decoder. *)
Definition quantize (mode : Rounding) (sample : Q) : Z :=
  clampInt16 (round mode (sample * 32768)).

(** Modelled from the spec: the byte layout inside the absent
    [createPcmBlob], "signed 16-bit little-endian PCM" (section 2): two's
    complement, low byte first. *)
Definition int16Bytes (z : Z) : list Z :=
  let u := z mod 65536 in [u mod 256; u / 256].

(** Modelled from the spec: [createPcmBlob] of the absent utils/audio.ts.
    Section 4.3, Encode: quantize each sample of the block, base64-encode
    the resulting byte sequence, and tag it with the fixed input sample rate
    (16 kHz, section 6) and mono channel count. *)
Definition createPcmBlob (mode : Rounding) (data : list Q) : Blob :=
  let int16 := map (quantize mode) data in
  {| LiveAgent.data := Some (btoa (flat_map int16Bytes int16));
     mimeType := Some "audio/pcm;rate=16000"%string |}.

(** Modelled from the spec: the byte layout read back inside the absent
    [decodeAudioData]; a payload that ends in the middle of a sample is
    malformed (section 7, DecodeFailure). *)
Fixpoint int16sOfBytes (bytes : list Z) : option (list Z) :=
  match bytes with
  | [] => Some []
  | [_] => None
  | lo :: hi :: rest =>
      let u := lo + 256 * hi in
      samples ← int16sOfBytes rest;
      Some ((if u <? 32768 then u else u - 65536) :: samples)
  end.

(** Modelled from the spec: [decodeAudioData] of the absent utils/audio.ts.
    Section 4.3, Decode: a base64 payload of signed 16-bit little-endian
    samples at a fixed rate becomes floating-point samples in [-1,1] in a
    playable mono buffer at that rate. *)
Definition decodeAudioData (base64 : string) (sampleRate numChannels : Z)
    : option AudioBuffer :=
  bytes ← atob base64;
  int16 ← int16sOfBytes bytes;
  Some {| channelData := map (fun z => (inject_Z z / 32768)%Q) int16;
          LiveAgent.sampleRate := Z.to_pos sampleRate |}.

(** Ranges of the wire format. *)
Definition isByte (b : Z) : Prop := 0 <= b < 256.
Definition isInt16 (z : Z) : Prop := -32768 <= z <= 32767.

End Audio.

(** ** utils/db.ts *)
Module Db.
Import Types.

(** The object store ["projects"] (key path [id]), seen through its index
    ["userId"]: the records in the order in which the index yields them. *)
Definition ProjectStore := list Project.

(** [index.getAll(userId)]: the records whose indexed field equals the key,
    in index order. *)
Definition getAll (key : string) (store : ProjectStore) : list Project :=
  List.filter (fun p => String.eqb (userId p) key) store.

(** [Array.prototype.sort(compareFn)], which is stable: an element moves in
    front of another only when the comparator is positive for the pair taken
    in their current order. *)
Fixpoint insertSorted {A} (compareFn : A -> A -> Z) (x : A) (l : list A)
    : list A :=
  match l with
  | [] => [x]
  | y :: l' =>
      if (compareFn x y <=? 0)%Z then x :: l
      else y :: insertSorted compareFn x l'
  end.

Definition sort {A} (compareFn : A -> A -> Z) (l : list A) : list A :=
  fold_right (insertSorted compareFn) [] l.

Definition getProjectsByUser (userId : string) (store : ProjectStore)
    : list Project :=
  let projects := getAll userId store in
  sort (fun a b => (updatedAt b - updatedAt a)%Z) projects.

(** [a] may stand before [b] in a list ordered from the most recently updated. *)
Definition newerFirst (a b : Project) : Prop := (updatedAt b <= updatedAt a)%Z.

End Db.

(** ** Concrete sessions, used to exercise the statements below *)
Module Samples.
Import Types LiveAgent.
Local Open Scope string_scope.

Definition persona : AgentPersona :=
  {| id := "agent-1"; name := "Nova"; voice := "Puck";
     voiceSettings := Some {| speed := 12 # 10; pitch := 100 |};
     systemInstruction := "Be brief."; avatarColor := "from-cyan-500" |}.

(** Three samples (0, 32767, -32768) as little-endian PCM in base64: an
    eighth of a millisecond at 24 kHz. *)
Definition chunk : string := "AAD/fwCA".

Definition message (audio : option string) (interrupted turnComplete : option bool)
    : LiveServerMessage :=
  {| serverContent :=
       Some {| modelTurn :=
                 match audio with
                 | Some b64 =>
                     Some {| parts :=
                       Some [{| inlineData :=
                                  Some {| data := Some b64;
                                          mimeType := Some "audio/pcm;rate=24000" |} |}] |}
                 | None => None
                 end;
               interrupted := interrupted;
               turnComplete := turnComplete |} |}.

Definition decoder := Audio.decodeAudioData.
Definition encoder := Audio.createPcmBlob Audio.TowardZero.

(** The page after Connect was pressed and everything was granted. *)
Definition connecting : State := run decoder encoder initial [Connect persona granted].

(** The same session once the handshake has completed and [onopen] has run. *)
Definition opened : State := run decoder encoder connecting [Settle 0 true; Open 0].

(** The opened session after Terminate was pressed. *)
Definition terminated : State := run decoder encoder opened [Disconnect].




End Samples.

(* ===================================================================== *)
(** * Part I, continued: the pages around the link and the database        *)
(* ===================================================================== *)

From Stdlib Require DecimalString DecimalN.

(** ** JavaScript strings whose characters are looked at *)
Module JSString.
Local Open Scope string_scope.

(** A string is the sequence of its code units; the ones this development
    can write are the code units below 256. *)

(** What [trim] strips: the WhiteSpace and LineTerminator code points of the
    language.  Below 256 these are tab, line feed, vertical tab, form feed,
    carriage return, space and no-break space. *)
Definition isWhiteSpace (c : ascii) : bool :=
  match N_of_ascii c with
  | 9 | 10 | 11 | 12 | 13 | 32 | 160 => true
  | _ => false
  end%N.

Fixpoint trimStart (s : string) : string :=
  match s with
  | String c s' => if isWhiteSpace c then trimStart s' else s
  | EmptyString => EmptyString
  end.

Fixpoint trimEnd (s : string) : string :=
  match s with
  | EmptyString => EmptyString
  | String c s' =>
      match trimEnd s' with
      | EmptyString => if isWhiteSpace c then EmptyString else String c EmptyString
      | rest => String c rest
      end
  end.

Definition trim (s : string) : string := trimEnd (trimStart s).

(** [s.split(sep)] for a separator of one character: the pieces between the
    separators, the empty ones among them; one empty piece for the empty
    string. *)
Fixpoint split (sep : ascii) (s : string) : list string :=
  match s with
  | EmptyString => [EmptyString]
  | String c s' =>
      if Ascii.eqb c sep then EmptyString :: split sep s'
      else match split sep s' with
           | piece :: pieces => String c piece :: pieces
           | [] => [String c EmptyString]
           end
  end.

(** [s.includes(c)] for a string [c] of one character *)
Fixpoint includes (c : ascii) (s : string) : bool :=
  match s with
  | EmptyString => false
  | String d s' => Ascii.eqb d c || includes c s'
  end.

(** [s.replace(/[...]/g, '')]: every character of the class is dropped. *)
Fixpoint strip (class : ascii -> bool) (s : string) : string :=
  match s with
  | EmptyString => EmptyString
  | String c s' => if class c then strip class s' else String c (strip class s')
  end.

(** [n.toString()] of a counter: a non-negative integer, written in decimal
    (as the language does below 10^21). *)
Definition toString (n : N) : string := DecimalString.NilEmpty.string_of_uint (N.to_uint n).

(** [s.padStart(targetLength, c)] for a filler [c] of one character *)
Definition padStart (targetLength : nat) (c : ascii) (s : string) : string :=
  string_of_list_ascii (repeat c (targetLength - String.length s)) ++ s.

(** The number a string of decimal digits writes, leading zeros allowed. *)
Definition decimal (s : string) : option N :=
  option_map N.of_uint (DecimalString.NilEmpty.uint_of_string s).

End JSString.

(** ** types.ts: the records that are stored *)
Module Schema.

Inductive Gender := Male | Female | Neutral.

Record VoiceOption := {
  voice_id : string;
  apiId : string;
  voice_name : string;
  gender : Gender;
  description : string;
  color : string;
  voice_speed : Q;
  voice_pitch : Q;
  isCustom : option bool
}.

Record CastMember := {
  member_id : string;
  member_name : string;
  voiceId : string
}.

Record User := {
  user_id : string;
  username : string;
  avatar : string;
  user_createdAt : Z
}.

End Schema.

(** ** An IndexedDB object store with key path [id] *)
Module ObjectStore.

Section Store.
Context {R : Type} (key : R -> string).

(** The records of a store are held in ascending key order, one per key;
    keys that are strings compare code unit by code unit. *)
Definition before (a b : R) : Prop := (key a ?= key b)%string = Lt.

Definition keyOrdered (store : list R) : Prop := StronglySorted before store.

(** [store.put(record)]: the record takes the place of the one stored under
    its key, or its own place in key order when there is none. *)
Fixpoint put (r : R) (store : list R) : list R :=
  match store with
  | [] => [r]
  | q :: store' =>
      match (key r ?= key q)%string with
      | Lt => r :: store
      | Eq => r :: store'
      | Gt => q :: put r store'
      end
  end.

(** [store.delete(key)]: the records under the key go; deleting a key that
    is not there is not an error. *)
Definition delete (k : string) (store : list R) : list R :=
  List.filter (fun r => negb (key r =? k)%string) store.

End Store.

End ObjectStore.

(** ** utils/db.ts: the users, the operations that write, the voice vault *)
Module Database.
Import Types Schema Db.
Local Open Scope string_scope.

(** The three object stores of ["NeonVoiceDB"], version 2.  The database is
    taken to open and its transactions to complete, unless a caller below
    says otherwise. *)
Record Database := {
  users : list User;
  projects : ProjectStore;
  custom_voices : list VoiceOption
}.

Definition empty : Database :=
  {| users := []; projects := []; custom_voices := [] |}.

(** [createUser]; [uuid] is what [crypto.randomUUID()] returns and [now]
    what [Date.now()] returns. *)
Definition createUser (uuid : string) (now : Z) (username : string)
    (db : Database) : User * Database :=
  let newUser :=
    {| user_id := uuid; username := username;
       avatar := "bg-gradient-to-r from-cyan-500 to-blue-500";
       user_createdAt := now |} in
  (newUser,
   {| users := ObjectStore.put user_id newUser (users db);
      projects := projects db;
      custom_voices := custom_voices db |}).

(** [getUser]: a cursor walks the store in key order and stops at the first
    record with the user name. *)
Definition getUser (name : string) (db : Database) : option User :=
  List.find (fun u => username u =? name) (users db).

(** [{ ...project, updatedAt: Date.now() }] *)
Definition updatedProject (now : Z) (project : Project) : Project :=
  {| project_id := project_id project; userId := userId project;
     project_name := project_name project; createdAt := createdAt project;
     updatedAt := now; text := text project;
     duration := Types.duration project |}.

(** [saveProject] *)
Definition saveProject (now : Z) (project : Project) (db : Database)
    : Database :=
  {| users := users db;
     projects :=
       ObjectStore.put project_id (updatedProject now project) (projects db);
     custom_voices := custom_voices db |}.

Definition getProjectsByUser (userId : string) (db : Database) : list Project :=
  Db.getProjectsByUser userId (projects db).

(** [deleteProject] *)
Definition deleteProject (projectId : string) (db : Database) : Database :=
  {| users := users db;
     projects := ObjectStore.delete project_id projectId (projects db);
     custom_voices := custom_voices db |}.

(** [{ ...voice, isCustom: true }] *)
Definition custom (voice : VoiceOption) : VoiceOption :=
  {| voice_id := voice_id voice; apiId := apiId voice;
     voice_name := voice_name voice; gender := gender voice;
     description := description voice; color := color voice;
     voice_speed := voice_speed voice; voice_pitch := voice_pitch voice;
     isCustom := Some true |}.

(** [saveCustomVoice] *)
Definition saveCustomVoice (voice : VoiceOption) (db : Database) : Database :=
  {| users := users db;
     projects := projects db;
     custom_voices :=
       ObjectStore.put voice_id (custom voice) (custom_voices db) |}.

(** [getCustomVoices]: [request.result || []], and an array is never falsy. *)
Definition getCustomVoices (db : Database) : list VoiceOption :=
  custom_voices db.

(** [deleteCustomVoice] *)
Definition deleteCustomVoice (id : string) (db : Database) : Database :=
  {| users := users db;
     projects := projects db;
     custom_voices := ObjectStore.delete voice_id id (custom_voices db) |}.

(** One call of a function of db.ts that writes. *)
Inductive Write :=
| CreateUser (uuid : string) (now : Z) (username : string)
| SaveProject (now : Z) (project : Project)
| DeleteProject (projectId : string)
| SaveCustomVoice (voice : VoiceOption)
| DeleteCustomVoice (id : string).

Definition write (db : Database) (w : Write) : Database :=
  match w with
  | CreateUser uuid now username => snd (createUser uuid now username db)
  | SaveProject now project => saveProject now project db
  | DeleteProject projectId => deleteProject projectId db
  | SaveCustomVoice voice => saveCustomVoice voice db
  | DeleteCustomVoice id => deleteCustomVoice id db
  end.

Definition writes (db : Database) (ws : list Write) : Database :=
  fold_left write ws db.

(** Every store holds its records in key order, one per key. *)
Definition wellKeyed (db : Database) : Prop :=
  ObjectStore.keyOrdered user_id (users db)
  /\ ObjectStore.keyOrdered project_id (projects db)
  /\ ObjectStore.keyOrdered voice_id (custom_voices db).

(** Every voice of the vault carries the flag. *)
Definition flagged (db : Database) : Prop :=
  forall v, In v (custom_voices db) -> isCustom v = Some true.

End Database.

(** ** components/Auth.tsx *)
Module Auth.
Import JSString Schema Database.
Local Open Scope string_scope.

(** The component's three [useState] cells. *)
Record Form := { username : string; loading : bool; error : string }.

(** What the outside decides during one [handleAuth]: the id and the time
    stamp a new user would get, and whether [openDB] resolves for [getUser]
    and for [createUser]. *)
Record Env := {
  uuid : string;
  now : Z;
  getUserOpens : bool;
  createUserOpens : bool
}.

(** The form, the database and the user handed to [onLogin], if any, when
    [handleAuth] has run to its end. *)
Record Outcome := {
  form : Form;
  database : Database;
  loggedIn : option User
}.

Definition handleAuth (env : Env) (f : Form) (db : Database) : Outcome :=
  if negb (JS.truthy_string (trim (username f))) then
    {| form := f; database := db; loggedIn := None |}
  else
    (* setLoading(true); setError(''); and setLoading(false) in the end *)
    let failed :=
      {| form := {| username := username f; loading := false;
                    error := "Authentication failed. Please try again." |};
         database := db; loggedIn := None |} in
    if getUserOpens env then
      match getUser (username f) db with
      | Some user =>
          {| form := {| username := username f; loading := false;
                        error := "" |};
             database := db; loggedIn := Some user |}
      | None =>
          if createUserOpens env then
            let (user, db') :=
              createUser (uuid env) (now env) (username f) db in
            {| form := {| username := username f; loading := false;
                          error := "" |};
               database := db'; loggedIn := Some user |}
          else failed
      end
    else failed.

End Auth.

(** ** components/Dashboard.tsx *)
Module Dashboard.
Import Types Schema Database.

Record State := { projects : list Project; isLoading : bool }.

(** [useState([])] and [useState(true)] *)
Definition initial : State := {| projects := []; isLoading := true |}.

(** [loadProjects] up to its [await], and from the [await] on with the
    listing that arrived. *)
Definition loadingStarted (st : State) : State :=
  {| projects := projects st; isLoading := true |}.

Definition loadingDone (data : list Project) (st : State) : State :=
  {| projects := data; isLoading := false |}.

Definition loadProjects (user : User) (db : Database) (st : State) : State :=
  loadingDone (getProjectsByUser (user_id user) db) (loadingStarted st).

(** [handleDelete]; [confirmed] is the answer to [confirm(...)]. *)
Definition handleDelete (confirmed : bool) (user : User) (projectId : string)
    (db : Database) (st : State) : Database * State :=
  if confirmed then
    let db' := deleteProject projectId db in
    (db', loadProjects user db' st)
  else (db, st).

(** The three things the grid area can show. *)
Inductive Panel :=
| LoadingData
| NoProjects
| Grid (cards : list Project).

Definition panel (st : State) : Panel :=
  if isLoading st then LoadingData
  else if (length (projects st) =? 0)%nat then NoProjects
  else Grid (projects st).

End Dashboard.

(** ** App.tsx *)
Module App.
Import Types Schema.

Inductive ViewMode := AUTH | DASHBOARD | BUILDER | LIVE | STORY_EDITOR | PODCAST.

(** The mode chosen in the builder: ['LIVE' | 'TTS' | 'PODCAST']. *)
Inductive Mode := LiveMode | TTS | PodcastMode.

(** A project as the dashboard hands it to [handleEditProject]: the stored
    record with the two fields that [App] reads. *)
Record Opened := {
  stored : Project;
  agent : AgentPersona;
  isPodcast : option bool
}.

Record State := {
  view : ViewMode;
  currentUser : option User;
  activeAgent : option AgentPersona;
  activeProject : option Opened
}.

Definition initial : State :=
  {| view := AUTH; currentUser := None; activeAgent := None;
     activeProject := None |}.

Definition handleLogin (user : User) (st : State) : State :=
  {| view := DASHBOARD; currentUser := Some user;
     activeAgent := activeAgent st; activeProject := activeProject st |}.

Definition handleLogout (st : State) : State :=
  {| view := AUTH; currentUser := None; activeAgent := None;
     activeProject := None |}.

Definition handleCreateNew (st : State) : State :=
  {| view := BUILDER; currentUser := currentUser st;
     activeAgent := activeAgent st; activeProject := activeProject st |}.

Definition handleEditProject (project : Opened) (st : State) : State :=
  {| view := if JS.truthy_flag (isPodcast project) then PODCAST
             else STORY_EDITOR;
     currentUser := currentUser st;
     activeAgent := Some (agent project);
     activeProject := Some project |}.

Definition handleAgentComplete (agent : AgentPersona) (selectedMode : Mode)
    (st : State) : State :=
  match selectedMode with
  | TTS =>
      {| view := STORY_EDITOR; currentUser := currentUser st;
         activeAgent := Some agent; activeProject := None |}
  | PodcastMode =>
      {| view := PODCAST; currentUser := currentUser st;
         activeAgent := Some agent; activeProject := None |}
  | LiveMode =>
      {| view := LIVE; currentUser := currentUser st;
         activeAgent := Some agent; activeProject := activeProject st |}
  end.

Definition handleExitToDashboard (st : State) : State :=
  {| view := DASHBOARD; currentUser := currentUser st;
     activeAgent := None; activeProject := None |}.

(** What is on the page: each [{view === ... && ... && <Component/>}] of the
    JSX, with the props the component gets. *)
Inductive Screen :=
| AuthScreen
| DashboardScreen (user : User)
| BuilderScreen
| LiveScreen (agent : AgentPersona)
| StoryScreen (agent : AgentPersona) (initialProject : option Opened)
    (userId : string)
| PodcastScreen (hostAgent : AgentPersona) (initialProject : option Opened)
    (userId : string)
| Nothing.

Definition render (st : State) : Screen :=
  match view st with
  | AUTH => AuthScreen
  | DASHBOARD =>
      match currentUser st with
      | Some user => DashboardScreen user
      | None => Nothing
      end
  | BUILDER => BuilderScreen
  | LIVE =>
      match activeAgent st with
      | Some agent => LiveScreen agent
      | None => Nothing
      end
  | STORY_EDITOR =>
      match activeAgent st, currentUser st with
      | Some agent, Some user =>
          StoryScreen agent (activeProject st) (user_id user)
      | _, _ => Nothing
      end
  | PODCAST =>
      match activeAgent st, currentUser st with
      | Some agent, Some user =>
          PodcastScreen agent (activeProject st) (user_id user)
      | _, _ => Nothing
      end
  end.

(** The callbacks [App] hands to its children. *)
Inductive Callback :=
| OnLogin (user : User)
| OnLogout
| OnCreateNew
| OnEditProject (project : Opened)
| OnComplete (agent : AgentPersona) (mode : Mode)
| OnExit.

Definition handle (st : State) (c : Callback) : State :=
  match c with
  | OnLogin user => handleLogin user st
  | OnLogout => handleLogout st
  | OnCreateNew => handleCreateNew st
  | OnEditProject project => handleEditProject project st
  | OnComplete agent mode => handleAgentComplete agent mode st
  | OnExit => handleExitToDashboard st
  end.

(** Whether a callback can be called while a screen is shown: a button calls
    back only while its component is on the page; [Auth] calls [onLogin]
    after waiting for the database, so a login can land on any screen. *)
Definition offered (screen : Screen) (c : Callback) : bool :=
  match c, screen with
  | OnLogin _, _ => true
  | (OnLogout | OnCreateNew | OnEditProject _), DashboardScreen _ => true
  | OnComplete _ _, BuilderScreen => true
  | OnExit, (BuilderScreen | LiveScreen _ | StoryScreen _ _ _
            | PodcastScreen _ _ _) => true
  | _, _ => false
  end.

(** A sequence of callbacks, each called from the screen shown when its turn
    comes. *)
Fixpoint called (st : State) (cs : list Callback) : Prop :=
  match cs with
  | [] => True
  | c :: cs' => offered (render st) c = true /\ called (handle st c) cs'
  end.

Definition run (st : State) (cs : list Callback) : State :=
  fold_left handle cs st.

(** Away from the login form there is a user, and the three studios have an
    agent. *)
Definition routed (st : State) : Prop :=
  match view st with
  | AUTH => True
  | DASHBOARD | BUILDER => is_Some (currentUser st)
  | LIVE | STORY_EDITOR | PODCAST =>
      is_Some (currentUser st) /\ is_Some (activeAgent st)
  end.

End App.

(** ** components/LiveInterface.tsx: the session clock *)
Module LivePage.
Import JSString.
Local Open Scope string_scope.

(** [formatTime]; [seconds] is the counter [sessionTime]. *)
Definition formatTime (seconds : N) : string :=
  let mins := padStart 2 "0"%char (toString (seconds / 60)) in
  let secs := padStart 2 "0"%char (toString (seconds mod 60)) in
  mins ++ ":" ++ secs.

(** A counter that [prev => prev + 1] can reach from 0. *)
Definition MAX_SAFE_INTEGER : N := 9007199254740991.

End LivePage.

(** ** components/PodcastInterface.tsx: synthesis *)
Module Podcast.
Import JSString Types.
Local Open Scope string_scope.

(** Time and requests spent on the speech endpoint. *)
Record Net := {
  requests : nat;     (* calls of [generateContent] so far *)
  waited : N          (* milliseconds slept in [setTimeout] *)
}.

Section Synthesis.
Context {Failure : Type}.

(** What the handlers read of a response:
    [response.candidates?.[0]?.content?.parts?.[0]?.inlineData?.data]. *)
Definition Response := option string.

(** [ai.models.generateContent]: what the request with the given number and
    prompt comes back with, a rejection or a response. *)
Variable generateContent : nat -> string -> Failure + Response.

(** The request with the given number is rejected. *)
Definition rejected (prompt : string) (k : nat) : Prop :=
  exists e, generateContent k prompt = inl e.

(** How [callTTSWithRetry] ends. *)
Inductive Attempted :=
| Returned (response : Response)
| Thrown (lastError : option Failure).

(** The [for] loop of [callTTSWithRetry], from round [i] with [rounds] rounds
    to go. *)
Fixpoint attempts (prompt : string) (i rounds : nat)
    (lastError : option Failure) (net : Net) : Attempted * Net :=
  match rounds with
  | O => (Thrown lastError, net)
  | S rounds' =>
      match generateContent (requests net) prompt with
      | inr response =>
          (Returned response,
           {| requests := S (requests net); waited := waited net |})
      | inl e =>
          attempts prompt (S i) rounds' (Some e)
            {| requests := S (requests net);
               waited := (waited net + 2000 * (N.of_nat i + 1))%N |}
      end
  end.

Definition callTTSWithRetry (prompt : string) (retries : nat) (net : Net)
    : Attempted * Net :=
  attempts prompt 0 retries None net.

(** The class [[*_#~`|>]] *)
Definition isMarkup (c : ascii) : bool :=
  match N_of_ascii c with
  | 42 | 95 | 35 | 126 | 96 | 124 | 62 => true
  | _ => false
  end%N.

(** [text.split('\n').map(l => l.trim()).filter(l => l.includes(':'))
         .map(l => l.replace(/[*_#~`|>]/g, ''))] *)
Definition rawLines (text : string) : list string :=
  map (strip isMarkup)
    (List.filter (includes ":"%char) (map trim (split "010"%char text))).

(** The prompt of one turn. *)
Definition promptText (hostName guestName turnText : string) : string :=
  "Voice Synthesis Turn: " ++ turnText
    ++ String "010"%char "Voices available: " ++ hostName ++ ", " ++ guestName
    ++ ". Please select the matching voice profile.".

(** [new Int16Array(uint8Array.buffer)]: a range error unless the bytes come
    in pairs; a pair is one sample, low byte first. *)
Fixpoint int16Array (bytes : list Z) : option (list Z) :=
  match bytes with
  | [] => Some []
  | [_] => None
  | lo :: hi :: rest =>
      let u := (lo + 256 * hi)%Z in
      samples ← int16Array rest;
      Some ((if (u <? 32768)%Z then u else u - 65536)%Z :: samples)
  end.

(** [base64ToUint8Array] of utils/audio: the bytes, or nothing when it
    throws. *)
Variable base64ToUint8Array : string -> option (list Z).

(** The body of the [for] loop of [handleGenerate] over [rawLines], with the
    parts gathered so far; [None] when a turn throws. *)
Fixpoint turns (hostName guestName : string) (lines : list string)
    (allPcmParts : list (list Z)) (net : Net)
    : option (list (list Z)) * Net :=
  match lines with
  | [] => (Some allPcmParts, net)
  | turnText :: lines' =>
      if negb (JS.truthy_string (trim turnText)) then
        turns hostName guestName lines' allPcmParts net
      else
        match callTTSWithRetry (promptText hostName guestName turnText) 3 net
        with
        | (Thrown _, net') => (None, net')
        | (Returned base64Audio, net') =>
            let slept :=
              {| requests := requests net';
                 waited := (waited net' + 600)%N |} in
            match base64Audio with
            | Some b64 =>
                if JS.truthy_string b64 then
                  match base64ToUint8Array b64 ≫= int16Array with
                  | Some pcmPart =>
                      turns hostName guestName lines'
                        (allPcmParts ++ [pcmPart])%list slept
                  | None => (None, net')
                  end
                else turns hostName guestName lines' allPcmParts slept
            | None => turns hostName guestName lines' allPcmParts slept
            end
        end
  end.

(** The cells of the studio that [handleGenerate] writes, and the alerts it
    has raised. *)
Record Studio := {
  isLoading : bool;
  currentAudioData : option (list Z);
  isPlaying : bool;
  alerts : nat
}.

(** What the outside decides during one [handleGenerate]: the id and the
    stamp that [crypto.randomUUID()] and [Date.now()] return in the handler,
    the stamp that [Date.now()] returns in [saveProject], whether
    [new GoogleGenAI(...)] returns, whether [saveProject] resolves, and
    whether the audio device lets [playAudio] run to its end. *)
Record Env := {
  uuid : string;
  now : Z;
  savedAt : Z;
  clientOk : bool;
  saveResolves : bool;
  audioPlays : bool
}.

(** The props and cells that [handleGenerate] reads. *)
Record Script := {
  hostName : string;
  guestName : string;
  projectName : string;
  scriptText : string;
  userId : option string;
  initialProject : option Project
}.

Record Outcome := {
  studio : Studio;
  database : Database.Database;
  net : Net
}.

(** The record handed to [saveProject], in the fields that [Project]
    keeps. *)
Definition projectOf (env : Env) (script : Script) (owner : string)
    (mergedPcm : list Z) : Project :=
  {| project_id :=
       match initialProject script with
       | Some p => if JS.truthy_string (project_id p) then project_id p
                   else uuid env
       | None => uuid env
       end;
     Types.userId := owner;
     project_name := projectName script;
     createdAt :=
       match initialProject script with
       | Some p => if (createdAt p =? 0)%Z then now env else createdAt p
       | None => now env
       end;
     updatedAt := now env;
     text := scriptText script;
     duration := Z.of_nat (length mergedPcm) # 24000 |}.

(** [handleGenerate] *)
Definition handleGenerate (env : Env) (script : Script)
    (st : Studio) (db : Database.Database) (n : Net) : Outcome :=
  if negb (JS.truthy_string (trim (scriptText script))) then
    {| studio := st; database := db; net := n |}
  else
    (* setIsLoading(true); and setIsLoading(false) in the end *)
    let alerted (audio : option (list Z)) :=
      {| isLoading := false; currentAudioData := audio;
         isPlaying := isPlaying st; alerts := S (alerts st) |} in
    if negb (clientOk env) then
      {| studio := alerted (currentAudioData st); database := db; net := n |}
    else
    match turns (hostName script) (guestName script)
            (rawLines (scriptText script)) [] n with
    | (None, n') =>
        {| studio := alerted (currentAudioData st); database := db;
           net := n' |}
    | (Some allPcmParts, n') =>
        if (0 <? length allPcmParts)%nat then
          let mergedPcm := concat allPcmParts in
          let played :=
            {| isLoading := false; currentAudioData := Some mergedPcm;
               isPlaying := isPlaying st || audioPlays env;
               alerts := alerts st |} in
          match userId script with
          | Some owner =>
              if JS.truthy_string owner then
                if saveResolves env then
                  {| studio := played;
                     database :=
                       Database.saveProject (savedAt env)
                         (projectOf env script owner mergedPcm) db;
                     net := n' |}
                else
                  {| studio := alerted (Some mergedPcm); database := db;
                     net := n' |}
              else {| studio := played; database := db; net := n' |}
          | None => {| studio := played; database := db; net := n' |}
          end
        else
          {| studio :=
               {| isLoading := false;
                  currentAudioData := currentAudioData st;
                  isPlaying := isPlaying st; alerts := alerts st |};
             database := db; net := n' |}
    end.

End Synthesis.

End Podcast.

(** ** components/StoryInterface.tsx: the cast *)
Module Story.
Import JSString Types Schema.
Local Open Scope string_scope.

(** [Partial<CastMember>] *)
Record Updates := {
  set_id : option string;
  set_name : option string;
  set_voiceId : option string
}.

(** [{ ...c, ...updates }] *)
Definition updated (c : CastMember) (updates : Updates) : CastMember :=
  {| member_id := default (member_id c) (set_id updates);
     member_name := default (member_name c) (set_name updates);
     voiceId := default (voiceId c) (set_voiceId updates) |}.

(** The cast a new story starts with; nothing when [DEFAULT_VOICES] is
    empty and [DEFAULT_VOICES[0].id] throws. *)
Definition initialCast (DEFAULT_VOICES : list VoiceOption)
    (agent : AgentPersona) (uuid : string) : option (list CastMember) :=
  let found :=
    match List.find (fun v => apiId v =? voice agent) DEFAULT_VOICES with
    | Some v => voice_id v
    | None => EmptyString
    end in
  if JS.truthy_string found then
    Some [{| member_id := uuid; member_name := "Narrator"; voiceId := found |}]
  else
    match DEFAULT_VOICES with
    | v :: _ =>
        Some [{| member_id := uuid; member_name := "Narrator";
                 voiceId := voice_id v |}]
    | [] => None
    end.

(** The effect that loads the voices on mount: the defaults, then each
    voice of the vault whose id is not in the list yet. *)
Definition loadVoices (DEFAULT_VOICES : list VoiceOption)
    (db : Database.Database) : list VoiceOption :=
  fold_left
    (fun merged cv =>
       if existsb (fun mv => voice_id mv =? voice_id cv) merged then merged
       else (merged ++ [cv])%list)
    (Database.getCustomVoices db) DEFAULT_VOICES.

(** [handleAddCharacter]; nothing when [availableVoices[0].id] throws. *)
Definition handleAddCharacter (uuid : string)
    (availableVoices : list VoiceOption) (cast : list CastMember)
    : option (list CastMember) :=
  if (4 <=? length cast)%nat then Some cast
  else
    match availableVoices with
    | v :: _ =>
        let newChar :=
          {| member_id := uuid;
             member_name :=
               "Character " ++ toString (N.of_nat (length cast) + 1);
             voiceId := voice_id v |} in
        Some (cast ++ [newChar])%list
    | [] => None
    end.

Definition handleDeleteCharacter (id : string) (cast : list CastMember)
    : list CastMember :=
  if (length cast <=? 1)%nat then cast
  else List.filter (fun c => negb (member_id c =? id)) cast.

Definition updateCharacter (id : string) (updates : Updates)
    (cast : list CastMember) : list CastMember :=
  map (fun c => if member_id c =? id then updated c updates else c) cast.

(** The effect keyed on [cast.length]: a cast of one is the narrator. *)
Definition syncNarrator (cast : list CastMember) : list CastMember :=
  match cast with
  | [c] =>
      if negb (member_name c =? "Narrator") then
        [{| member_id := member_id c; member_name := "Narrator";
            voiceId := voiceId c |}]
      else cast
  | _ => cast
  end.

(** One render after [setCast]: the effect runs when the length changed. *)
Definition commit (previous next : list CastMember) : list CastMember :=
  if (length previous =? length next)%nat then next else syncNarrator next.

(** What the cast panel lets the user do. *)
Inductive Edit :=
| AddCharacter (uuid : string) (availableVoices : list VoiceOption)
| DeleteCharacter (id : string)
| NameChanged (id name : string)
| VoiceChanged (id voiceId : string).

Definition edit (cast : list CastMember) (e : Edit) : list CastMember :=
  commit cast
    match e with
    | AddCharacter uuid availableVoices =>
        default cast (handleAddCharacter uuid availableVoices cast)
    | DeleteCharacter id => handleDeleteCharacter id cast
    | NameChanged id name =>
        updateCharacter id
          {| set_id := None; set_name := Some name; set_voiceId := None |} cast
    | VoiceChanged id voiceId =>
        updateCharacter id
          {| set_id := None; set_name := None; set_voiceId := Some voiceId |}
          cast
    end.

(** The name field is read-only while the cast has one member (the Add and
    Delete buttons guard themselves), and the id of a new member is not the
    id of a member. *)
Definition editable (cast : list CastMember) (e : Edit) : Prop :=
  match e with
  | AddCharacter uuid _ => ~ In uuid (map member_id cast)
  | NameChanged _ _ => length cast <> 1%nat
  | _ => True
  end.

Fixpoint edited (cast : list CastMember) (es : list Edit) : Prop :=
  match es with
  | [] => True
  | e :: es' => editable cast e /\ edited (edit cast e) es'
  end.

Definition edits (cast : list CastMember) (es : list Edit) : list CastMember :=
  fold_left edit es cast.

(** Between one and four members, no two with the same id, and a lone
    member is the narrator. *)
Definition staffed (cast : list CastMember) : Prop :=
  (1 <= length cast <= 4)%nat
  /\ List.NoDup (map member_id cast)
  /\ (forall c, cast = [c] -> member_name c = "Narrator").

End Story.

(** ** components/AgentBuilder.tsx: the voices *)
Module AgentBuilder.
Import Types Schema Database.
Local Open Scope string_scope.

Record State := {
  name : string;
  instruction : string;
  voices : list VoiceOption;
  selectedVoiceId : string
}.

(** The editor's form, with the voice being edited, if one is. *)
Record VoiceForm := {
  editingVoice : option VoiceOption;
  formName : string;
  formDesc : string;
  formGender : Gender;
  formBaseVoice : string;
  formColor : string;
  formSpeed : Q;
  formPitch : Q
}.

Section Builder.
(** The two constants of constants.ts that the builder reads. *)
Variable DEFAULT_VOICES : list VoiceOption.
Variable DEFAULT_INSTRUCTION : string.

(** [DEFAULT_VOICES[0].id], where there is one. *)
Definition firstDefault : option string :=
  option_map voice_id (head DEFAULT_VOICES).

(** The initial values of the state cells; nothing when
    [DEFAULT_VOICES[0].id] throws. *)
Definition initial : option State :=
  option_map
    (fun first =>
       {| name := "Nexus-7"; instruction := DEFAULT_INSTRUCTION;
          voices := DEFAULT_VOICES; selectedVoiceId := first |})
    firstDefault.

(** The effect that loads the vault on mount. *)
Definition loadSavedVoices (db : Database) (st : State) : State :=
  let saved := getCustomVoices db in
  if (0 <? length saved)%nat then
    let defaultsOnly :=
      List.filter
        (fun dv =>
           negb (existsb (fun sv => voice_id sv =? voice_id dv) saved))
        DEFAULT_VOICES in
    {| name := name st; instruction := instruction st;
       voices := (defaultsOnly ++ saved)%list;
       selectedVoiceId := selectedVoiceId st |}
  else st.

(** [handleStart]: the agent handed to [onComplete], if any. *)
Definition handleStart (uuid : string) (mode : App.Mode) (st : State)
    : option (AgentPersona * App.Mode) :=
  match List.find (fun v => voice_id v =? selectedVoiceId st) (voices st) with
  | None => None
  | Some selectedVoiceDetails =>
      Some ({| id := uuid; Types.name := name st;
               voice := apiId selectedVoiceDetails;
               voiceSettings :=
                 Some {| speed := voice_speed selectedVoiceDetails;
                         pitch := voice_pitch selectedVoiceDetails |};
               systemInstruction := instruction st;
               avatarColor := color selectedVoiceDetails |}, mode)
  end.

Definition newVoice (uuid : string) (form : VoiceForm) : VoiceOption :=
  {| voice_id :=
       match editingVoice form with
       | Some v => voice_id v
       | None => uuid
       end;
     apiId := formBaseVoice form;
     voice_name := formName form;
     description := formDesc form;
     gender := formGender form;
     color := formColor form;
     voice_speed := formSpeed form;
     voice_pitch := formPitch form;
     isCustom := Some true |}.

Definition handleSaveVoice (uuid : string) (form : VoiceForm)
    (st : State) (db : Database) : State * Database :=
  let voice := newVoice uuid form in
  let filtered :=
    List.filter (fun v => negb (voice_id v =? voice_id voice)) (voices st) in
  ({| name := name st; instruction := instruction st;
      voices := (filtered ++ [voice])%list;
      selectedVoiceId := voice_id voice |},
   saveCustomVoice voice db).

(** [handleDeleteVoice]; [confirmed] is the answer to [confirm(...)].  When
    the deleted voice is the selected one the selection goes to
    [DEFAULT_VOICES[0].id]; without a default that throws once the list has
    been updated. *)
Definition handleDeleteVoice (confirmed : bool) (id : string)
    (st : State) (db : Database) : State * Database :=
  if confirmed then
    ({| name := name st; instruction := instruction st;
        voices := List.filter (fun v => negb (voice_id v =? id)) (voices st);
        selectedVoiceId :=
          if selectedVoiceId st =? id
          then default (selectedVoiceId st) firstDefault
          else selectedVoiceId st |},
     deleteCustomVoice id db)
  else (st, db).

(** What [analyzeVoice] reads of [JSON.parse(response.text)], for a response
    that follows the schema it asked for. *)
Record Analysis := {
  suggestedName : string;
  baseVoice : string;
  result_speed : Q;
  result_pitch : Q;
  result_description : string;
  result_systemInstruction : string;
  result_gender : Gender
}.

Definition clonedVoice (now : N) (result : Analysis) : VoiceOption :=
  {| voice_id := "cloned-" ++ JSString.toString now;
     apiId := baseVoice result;
     voice_name := suggestedName result ++ " (Clone)";
     description := result_description result;
     gender := result_gender result;
     color := "from-pink-500 to-cyan-500";
     voice_speed := result_speed result;
     voice_pitch := result_pitch result;
     isCustom := Some true |}.

(** [analyzeVoice] from the parsed response on, when the voice is saved;
    [now] is what [Date.now()] returns.  Up to that point, and when it
    throws, it writes none of the four cells. *)
Definition analyzeVoice (now : N) (result : Analysis) (st : State)
    (db : Database) : State * Database :=
  let voice := clonedVoice now result in
  ({| name := suggestedName result ++ " Agent";
      instruction := result_systemInstruction result;
      voices := (voices st ++ [voice])%list;
      selectedVoiceId := voice_id voice |},
   saveCustomVoice voice db).

(** The cards of the vault: [voices.filter(v => v.isCustom)]. *)
Definition customSavedVoices (st : State) : list VoiceOption :=
  List.filter (fun v => JS.truthy_flag (isCustom v)) (voices st).

(** The first default voice and the selected voice are cards of the list. *)
Definition anchored (st : State) : Prop :=
  (forall d0, firstDefault = Some d0 -> In d0 (map voice_id (voices st)))
  /\ In (selectedVoiceId st) (map voice_id (voices st)).

(** What the builder lets the user do with the voices. *)
Inductive Action :=
| Select (id : string)
| SaveVoice (uuid : string) (form : VoiceForm)
| DeleteVoice (confirmed : bool) (id : string)
| NameTyped (value : string)
| InstructionTyped (value : string)
| Clone (now : N) (result : Analysis).

Definition act (sd : State * Database) (a : Action) : State * Database :=
  match a with
  | Select id =>
      ({| name := name (fst sd); instruction := instruction (fst sd);
          voices := voices (fst sd); selectedVoiceId := id |}, snd sd)
  | SaveVoice uuid form => handleSaveVoice uuid form (fst sd) (snd sd)
  | DeleteVoice confirmed id => handleDeleteVoice confirmed id (fst sd) (snd sd)
  | NameTyped value =>
      ({| name := value; instruction := instruction (fst sd);
          voices := voices (fst sd);
          selectedVoiceId := selectedVoiceId (fst sd) |}, snd sd)
  | InstructionTyped value =>
      ({| name := name (fst sd); instruction := value;
          voices := voices (fst sd);
          selectedVoiceId := selectedVoiceId (fst sd) |}, snd sd)
  | Clone now result => analyzeVoice now result (fst sd) (snd sd)
  end.

(** An action the page offers: a card that is selected is a card of the
    list. *)
Definition onPage (st : State) (a : Action) : Prop :=
  match a with
  | Select id => In id (map voice_id (voices st))
  | _ => True
  end.

(** The action is not the deletion of the first default voice. *)
Definition sparesFirstDefault (a : Action) : Prop :=
  match a with
  | DeleteVoice true id => firstDefault <> Some id
  | _ => True
  end.

Fixpoint offered (sd : State * Database) (actions : list Action) : Prop :=
  match actions with
  | [] => True
  | a :: actions' =>
      onPage (fst sd) a /\ sparesFirstDefault a /\ offered (act sd a) actions'
  end.

Definition acts (sd : State * Database) (actions : list Action)
    : State * Database :=
  fold_left act actions sd.

End Builder.

End AgentBuilder.

(** ** components/Visualizer.tsx: the level that is drawn *)
Module Visualizer.
Local Open Scope Q_scope.

(** The two variables the [draw] loop keeps between frames. *)
Record Loop := { currentLevel : Q; phase : Q }.

(** [let currentLevel = 0; let phase = 0;] when the effect starts. *)
Definition started : Loop := {| currentLevel := 0; phase := 0 |}.

Inductive Shape := FlatLine | Wave.

(** One call of [draw]: the shape it strokes and the variables it leaves. *)
Definition draw (level : Q) (isActive : bool) (l : Loop) : Shape * Loop :=
  let currentLevel := currentLevel l + (level - currentLevel l) * (2 # 10) in
  if negb isActive || JS.gt (1 # 100) currentLevel then
    (FlatLine,
     {| currentLevel := currentLevel;
        phase := if isActive then phase l + (5 # 100) else phase l |})
  else
    (Wave,
     {| currentLevel := currentLevel;
        phase := phase l + ((15 # 100) + currentLevel * (2 # 10)) |}).

(** The loop after [n] frames. *)
Fixpoint frames (level : Q) (isActive : bool) (n : nat) : Loop :=
  match n with
  | O => started
  | S n' => snd (draw level isActive (frames level isActive n'))
  end.

End Visualizer.

(** ** components/StoryInterface.tsx: playback *)
Module Player.
Local Open Scope Q_scope.

(** A buffer source the page has started: where in the buffer it started,
    in seconds ([source.start(0, offset)]), and whether [stop()] has been
    called on it. *)
Record Source := { offset : Q; stopped : bool }.

(** The refs and cells of the transport bar, and the sources started so
    far; [voiceSourceRef] holds an index into [sources], and
    [currentAudioData] is the cell with the samples that the bar plays. *)
Record State := {
  currentAudioData : option (list Z);
  audioContextRef : bool;
  voiceSourceRef : option nat;
  startTimeRef : Q;
  savedOffsetRef : Q;
  isManualStopRef : bool;
  isPlaying : bool;
  isPaused : bool;
  sources : list Source
}.

(** The page as mounted, before anything is played:
    [useState(initialProject?.audioData || null)]. *)
Definition mounted (audioData : option (list Z)) : State :=
  {| currentAudioData := audioData;
     audioContextRef := false; voiceSourceRef := None; startTimeRef := 0;
     savedOffsetRef := 0; isManualStopRef := false; isPlaying := false;
     isPaused := false; sources := [] |}.

Definition initial : State := mounted None.

Definition setCurrentAudioData (audioData : option (list Z)) (s : State)
    : State :=
  {| currentAudioData := audioData;
     audioContextRef := audioContextRef s;
     voiceSourceRef := voiceSourceRef s;
     startTimeRef := startTimeRef s;
     savedOffsetRef := savedOffsetRef s;
     isManualStopRef := isManualStopRef s;
     isPlaying := isPlaying s;
     isPaused := isPaused s;
     sources := sources s |}.

Definition stopAt (k : nat) (l : list Source) : list Source :=
  alter (fun src => {| offset := offset src; stopped := true |}) k l.

(** [stopPlayback]; what [stop()] or [disconnect()] may throw is caught. *)
Definition stopPlayback (reset : bool) (s : State) : State :=
  let held := voiceSourceRef s in
  {| currentAudioData := currentAudioData s;
     audioContextRef := audioContextRef s;
     voiceSourceRef := None;
     startTimeRef := startTimeRef s;
     savedOffsetRef := if reset then 0 else savedOffsetRef s;
     isManualStopRef :=
       match held with Some _ => true | None => isManualStopRef s end;
     isPlaying := false;
     isPaused := if reset then false else isPaused s;
     sources :=
       match held with Some k => stopAt k (sources s) | None => sources s end
  |}.

(** [pausePlayback]; [now] is [audioContextRef.current.currentTime].  The
    page never sets the rate of a source, so [playbackRate.value || 1]
    is 1. *)
Definition pausePlayback (now : Q) (s : State) : State :=
  if negb (isPlaying s) || negb (match voiceSourceRef s with Some _ => true | None => false end)
     || negb (audioContextRef s)
  then s
  else
    let playbackRate := 1 in
    let elapsed := (now - startTimeRef s) * playbackRate in
    let s1 :=
      stopPlayback false
        {| currentAudioData := currentAudioData s;
           audioContextRef := audioContextRef s;
           voiceSourceRef := voiceSourceRef s;
           startTimeRef := startTimeRef s;
           savedOffsetRef := savedOffsetRef s + elapsed;
           isManualStopRef := isManualStopRef s;
           isPlaying := isPlaying s;
           isPaused := isPaused s;
           sources := sources s |} in
    {| currentAudioData := currentAudioData s1;
       audioContextRef := audioContextRef s1;
       voiceSourceRef := voiceSourceRef s1;
       startTimeRef := startTimeRef s1;
       savedOffsetRef := savedOffsetRef s1;
       isManualStopRef := isManualStopRef s1;
       isPlaying := isPlaying s1;
       isPaused := true;
       sources := sources s1 |}.

(** [playAudioData] when it settles; [now] is [ctx.currentTime].  The
    context constructor is taken to return.
    [ctx.createBuffer(1, rawPcmData.length, 24000)] throws for a length of
    zero, and [source.start(0, offset)] throws a range error for a negative
    offset: the function ends there, after it has stopped the source that
    was held and cleared the flag. *)
Definition playAudioData (rawPcmData : option (list Z)) (now offset : Q)
    (s : State) : State :=
  match rawPcmData with
  | None => s
  | Some samples =>
      let s1 :=
        match voiceSourceRef s with
        | Some _ => stopPlayback false s
        | None => s
        end in
      if (length samples =? 0)%nat || JS.gt 0 offset then
        {| currentAudioData := currentAudioData s1;
           audioContextRef := true;
           voiceSourceRef := voiceSourceRef s1;
           startTimeRef := startTimeRef s1;
           savedOffsetRef := savedOffsetRef s1;
           isManualStopRef := false;
           isPlaying := isPlaying s1;
           isPaused := isPaused s1;
           sources := sources s1 |}
      else
        {| currentAudioData := currentAudioData s1;
           audioContextRef := true;
           voiceSourceRef := Some (length (sources s1));
           startTimeRef := now;
           savedOffsetRef := savedOffsetRef s1;
           isManualStopRef := false;
           isPlaying := true;
           isPaused := false;
           sources :=
             (sources s1 ++ [{| offset := offset; stopped := false |}])%list |}
  end.

(** [source.onended] of any source of the page: the handler reads the one
    shared flag. *)
Definition onended (s : State) : State :=
  if negb (isManualStopRef s) then
    {| currentAudioData := currentAudioData s;
       audioContextRef := audioContextRef s;
       voiceSourceRef := voiceSourceRef s;
       startTimeRef := startTimeRef s;
       savedOffsetRef := 0;
       isManualStopRef := isManualStopRef s;
       isPlaying := false;
       isPaused := false;
       sources := sources s |}
  else s.

(** The play button of the transport bar, shown while there is audio:
    [playAudioData(currentAudioData, savedOffsetRef.current)]. *)
Definition playPressed (now : Q) (s : State) : State :=
  playAudioData (currentAudioData s) now (savedOffsetRef s) s.

(** The pause button is pressed at [paused]; the [ended] event of the
    source that was stopped is delivered; the play button is pressed at
    [resumed]. *)
Definition round (s : State) (press : Q * Q) : State :=
  playPressed (snd press) (onended (pausePlayback (fst press) s)).

Definition listen (s : State) (presses : list (Q * Q)) : State :=
  fold_left round presses s.

(** The seconds of audio heard over the rounds, the first one playing
    since [start]. *)
Fixpoint heard (start : Q) (presses : list (Q * Q)) : Q :=
  match presses with
  | [] => 0
  | press :: presses' => (fst press - start) + heard (snd press) presses'
  end.

(** No pause is pressed at a clock reading earlier than the start of the
    source it stops. *)
Fixpoint ascending (start : Q) (presses : list (Q * Q)) : Prop :=
  match presses with
  | [] => True
  | press :: presses' => start <= fst press /\ ascending (snd press) presses'
  end.

(** The audio of the bar has samples. *)
Definition audible (s : State) : Prop :=
  exists sample samples, currentAudioData s = Some (sample :: samples).

(** A source started at the saved offset is held and shown as playing, and
    it is the audio of the bar that plays: that audio has samples, or
    [playAudioData] could not have started the source. *)
Definition playing (s : State) : Prop :=
  isPlaying s = true /\ audioContextRef s = true
  /\ (exists k, voiceSourceRef s = Some k
        /\ sources s !! k = Some {| offset := savedOffsetRef s;
                                     stopped := false |})
  /\ audible s.

End Player.

(** ** components/StoryInterface.tsx: synthesis *)
Module StoryStudio.
Import JSString Types Schema.
Local Open Scope string_scope.

Record ScriptTurn := { turn_voiceId : string; turn_text : string }.

(** The cells that [handleGenerate] and [saveToDB] write, the alerts raised,
    and the transport bar, which holds the cell of the audio. *)
Record Studio := {
  isLoading : bool;
  studio_duration : Q;
  isSaving : bool;
  lastSaved : option Z;
  alerts : nat;
  player : Player.State
}.

(** What the outside decides during one [handleGenerate]: the stamps that
    [Date.now()] returns in [saveToDB], in [saveProject] and for
    [setLastSaved], whether [new GoogleGenAI(...)] returns, whether
    [saveProject] resolves, and the clock of the audio context when the
    result is played. *)
Record Env := {
  now : Z;
  savedAt : Z;
  lastSavedAt : Z;
  clientOk : bool;
  saveResolves : bool;
  currentTime : Q
}.

(** The props and cells that [handleGenerate] reads. *)
Record Page := {
  projectId : string;
  projectName : string;
  scriptText : string;
  userId : option string;
  initialProject : option Project;
  cast : list CastMember;
  availableVoices : list VoiceOption
}.

Definition currentAudioData (st : Studio) : option (list Z) :=
  Player.currentAudioData (player st).

Record Outcome := {
  studio : Studio;
  database : Database.Database;
  net : Podcast.Net
}.

(** A line that [lines.forEach] does not skip: [trimmedLine] is not
    empty. *)
Definition spoken (line : string) : bool := JS.truthy_string (trim line).

Section Synthesis.
Context {Failure : Type}.

(** [trimmedLine.match(regex)] for the pattern built from the name of a
    member (the name, optional blanks, a colon, optional blanks and a group
    for the rest of the line, ignoring case): nothing when the constructor
    throws a syntax error, else the first group of the match, if the line
    matches. *)
Variable regexMatch : string -> string -> option (option string).

(** [ai.models.generateContent] for the request with the given number,
    voice name and text. *)
Variable generateContent :
  nat -> string -> string -> Failure + Podcast.Response.

(** [base64ToUint8Array] of utils/audio: the bytes, or nothing when it
    throws. *)
Variable base64ToUint8Array : string -> option (list Z).

(** The [for] loop over the cast for one line: the turn of the first member
    whose pattern matches, if any; nothing when a pattern throws. *)
Fixpoint firstMatch (members : list CastMember) (trimmedLine : string)
    : option (option ScriptTurn) :=
  match members with
  | [] => Some None
  | member :: members' =>
      match regexMatch (member_name member) trimmedLine with
      | None => None
      | Some (Some group) =>
          Some (Some {| turn_voiceId := voiceId member;
                        turn_text := trim group |})
      | Some None => firstMatch members' trimmedLine
      end
  end.

(** The body of [lines.forEach]: the turns one line adds; nothing when it
    throws ([cast[0].voiceId] throws for an empty cast). *)
Definition turnsOfLine (cast : list CastMember) (line : string)
    : option (list ScriptTurn) :=
  let trimmedLine := trim line in
  if negb (JS.truthy_string trimmedLine) then Some []
  else
    match firstMatch cast trimmedLine with
    | None => None
    | Some (Some turn) => Some [turn]
    | Some None =>
        match cast with
        | narrator :: _ =>
            Some [{| turn_voiceId := voiceId narrator;
                     turn_text := trimmedLine |}]
        | [] => None
        end
    end.

Fixpoint turnsOfLines (cast : list CastMember) (lines : list string)
    : option (list ScriptTurn) :=
  match lines with
  | [] => Some []
  | line :: lines' =>
      first ← turnsOfLine cast line;
      rest ← turnsOfLines cast lines';
      Some (first ++ rest)%list
  end.

Definition scriptTurns (cast : list CastMember) (text : string)
    : option (list ScriptTurn) :=
  turnsOfLines cast (split "010"%char text).

(** [availableVoices.find(v => v.id === turn.voiceId) || availableVoices[0]] *)
Definition voiceOption (availableVoices : list VoiceOption)
    (turn : ScriptTurn) : option VoiceOption :=
  match List.find (fun v => voice_id v =? turn_voiceId turn) availableVoices
  with
  | Some v => Some v
  | None => head availableVoices
  end.

(** The [for] loop over the turns, with the parts gathered so far; [None]
    when a turn throws ([voiceOption.apiId] throws without a voice). *)
Fixpoint speak (availableVoices : list VoiceOption)
    (turns : list ScriptTurn) (allPcmParts : list (list Z))
    (net : Podcast.Net) : option (list (list Z)) * Podcast.Net :=
  match turns with
  | [] => (Some allPcmParts, net)
  | turn :: turns' =>
      if negb (JS.truthy_string (turn_text turn)) then
        speak availableVoices turns' allPcmParts net
      else
        match voiceOption availableVoices turn with
        | None => (None, net)
        | Some voice =>
            let asked :=
              {| Podcast.requests := S (Podcast.requests net);
                 Podcast.waited := Podcast.waited net |} in
            match generateContent (Podcast.requests net) (apiId voice)
                    (turn_text turn) with
            | inl _ => (None, asked)
            | inr base64Audio =>
                let slept :=
                  {| Podcast.requests := Podcast.requests asked;
                     Podcast.waited := (Podcast.waited asked + 600)%N |} in
                match base64Audio with
                | Some b64 =>
                    if JS.truthy_string b64 then
                      match base64ToUint8Array b64 ≫= Podcast.int16Array
                      with
                      | Some pcmPart =>
                          speak availableVoices turns'
                            (allPcmParts ++ [pcmPart])%list slept
                      | None => (None, asked)
                      end
                    else speak availableVoices turns' allPcmParts slept
                | None => speak availableVoices turns' allPcmParts slept
                end
            end
        end
  end.

(** The record [saveToDB] hands to [saveProject], in the fields that
    [Project] keeps. *)
Definition projectData (env : Env) (page : Page) (owner : string)
    (dur : Q) : Project :=
  {| project_id := projectId page;
     Types.userId := owner;
     project_name := projectName page;
     createdAt :=
       match initialProject page with
       | Some p => createdAt p
       | None => now env
       end;
     updatedAt := now env;
     text := scriptText page;
     duration := dur |}.

(** [saveToDB]: a save that fails is logged and nothing more. *)
Definition saveToDB (env : Env) (page : Page) (dur : Q)
    (st : Studio) (db : Database.Database) : Studio * Database.Database :=
  match userId page with
  | None => (st, db)
  | Some owner =>
      if negb (JS.truthy_string owner) then (st, db)
      else
        ({| isLoading := isLoading st;
            studio_duration := studio_duration st;
            isSaving := false;
            lastSaved :=
              if saveResolves env then Some (lastSavedAt env)
              else lastSaved st;
            alerts := alerts st;
            player := player st |},
         if saveResolves env then
           Database.saveProject (savedAt env) (projectData env page owner dur)
             db
         else db)
  end.

(** [handleGenerate], run to its end with no other handler in between. *)
Definition handleGenerate (env : Env) (page : Page) (st : Studio)
    (db : Database.Database) (n : Podcast.Net) : Outcome :=
  if negb (JS.truthy_string (trim (scriptText page))) then
    {| studio := st; database := db; net := n |}
  else
    (* setIsLoading(true); stopPlayback(true); and setIsLoading(false) in
       the end *)
    let stopped := Player.stopPlayback true (player st) in
    let failed (n' : Podcast.Net) :=
      {| studio :=
           {| isLoading := false;
              studio_duration := studio_duration st;
              isSaving := isSaving st;
              lastSaved := lastSaved st;
              alerts := S (alerts st);
              player := stopped |};
         database := db; net := n' |} in
    if negb (clientOk env) then failed n
    else
      match scriptTurns (cast page) (scriptText page) with
      | None => failed n
      | Some turns =>
          match speak (availableVoices page) turns [] n with
          | (None, n') => failed n'
          | (Some allPcmParts, n') =>
              if (0 <? length allPcmParts)%nat then
                let mergedPcm := concat allPcmParts in
                let newDuration := Z.of_nat (length mergedPcm) # 24000 in
                let generated :=
                  {| isLoading := false;
                     studio_duration := newDuration;
                     isSaving := isSaving st;
                     lastSaved := lastSaved st;
                     alerts := alerts st;
                     player :=
                       Player.setCurrentAudioData (Some mergedPcm) stopped |}
                in
                let (saved, db') := saveToDB env page newDuration generated db in
                {| studio :=
                     {| isLoading := isLoading saved;
                        studio_duration := studio_duration saved;
                        isSaving := isSaving saved;
                        lastSaved := lastSaved saved;
                        alerts := alerts saved;
                        player :=
                          Player.playAudioData (Some mergedPcm)
                            (currentTime env) 0 (player saved) |};
                   database := db'; net := n' |}
              else
                {| studio :=
                     {| isLoading := false;
                        studio_duration := studio_duration st;
                        isSaving := isSaving st;
                        lastSaved := lastSaved st;
                        alerts := alerts st;
                        player := stopped |};
                   database := db; net := n' |}
          end
      end.

End Synthesis.

End StoryStudio.

(** ** Concrete pages and stores, used to exercise the statements below *)
Module Scenes.
Import Types Schema LiveAgent Database.
Local Open Scope string_scope.

(** A second session on the same page: connected, terminated, connected
    again; the transport of the first session is handle 0, the one the refs
    hold is handle 1. *)
Definition reconnected : State :=
  run Samples.decoder Samples.encoder initial
    [Connect Samples.persona granted; Disconnect;
     Connect Samples.persona granted].

(** Two frames captured on the opened microphone before the handshake is
    over. *)
Definition capturing : State :=
  run Samples.decoder Samples.encoder Samples.connecting
    [Open 0; AudioProcess 1 [1 # 2; -1 # 2]; AudioProcess 1 [1 # 4]].

Definition alice : string := "user-a".
Definition bob : string := "user-b".

Definition draft (id owner : string) (stamp : Z) : Project :=
  {| project_id := id; userId := owner; project_name := "Untitled Project";
     createdAt := 1000; updatedAt := stamp; text := "Narrator: hello";
     Types.duration := 0 |}.

Definition puck : VoiceOption :=
  {| voice_id := "v1"; apiId := "Puck"; voice_name := "Puck";
     gender := Male; description := "Playful"; color := "from-cyan-400";
     voice_speed := 1; voice_pitch := 0; isCustom := None |}.

Definition kore : VoiceOption :=
  {| voice_id := "v2"; apiId := "Kore"; voice_name := "Kore";
     gender := Female; description := "Calm"; color := "from-pink-500";
     voice_speed := 11 # 10; voice_pitch := 50; isCustom := None |}.

(** Three saves by two users, at times 10, 20 and 30, in an order that is
    not the key order, and one voice in the vault. *)
Definition shelf : Database :=
  writes empty
    [SaveProject 10 (draft "p2" alice 0);
     SaveProject 20 (draft "p1" alice 0);
     SaveProject 30 (draft "p3" bob 0);
     SaveCustomVoice kore].

Definition ada : User :=
  {| user_id := alice; username := "ada"; avatar := ""; user_createdAt := 5 |}.

(** A matcher for lines that start with the name and a colon, as written:
    what the pattern of the story page gives on the lines of [tale]. *)
Definition colonMatch (name line : string) : option (option string) :=
  let lead := name ++ ":" in
  Some (if String.prefix lead line
        then Some (String.substring (String.length lead)
                     (String.length line - String.length lead) line)
        else None).

(** A story of two lines for a cast of one, on a page that has played
    nothing yet. *)
Definition tale : StoryStudio.Page :=
  {| StoryStudio.projectId := "p7";
     StoryStudio.projectName := "Tale";
     StoryStudio.scriptText :=
       "Narrator: once" ++ String "010"%char "upon a time";
     StoryStudio.userId := Some alice;
     StoryStudio.initialProject := None;
     StoryStudio.cast :=
       [{| member_id := "c1"; member_name := "Narrator"; voiceId := "v1" |}];
     StoryStudio.availableVoices := [puck; kore] |}.

Definition silence : StoryStudio.Studio :=
  {| StoryStudio.isLoading := false;
     StoryStudio.studio_duration := 0;
     StoryStudio.isSaving := false;
     StoryStudio.lastSaved := None;
     StoryStudio.alerts := 0;
     StoryStudio.player := Player.initial |}.

(** An endpoint that answers every request with the same two samples. *)
Definition twoSamples (k : nat) (voiceName text : string)
    : unit + Podcast.Response :=
  inr (Some "AAD/fwCA").

(** An endpoint whose payload holds no sample, and a decoder that finds no
    byte in it. *)
Definition blankAudio (k : nat) (voiceName text : string)
    : unit + Podcast.Response :=
  inr (Some " ").
Definition noBytes (b64 : string) : option (list Z) := Some [].

Definition offline (saveResolves : bool) : StoryStudio.Env :=
  {| StoryStudio.now := 50; StoryStudio.savedAt := 51;
     StoryStudio.lastSavedAt := 52; StoryStudio.clientOk := true;
     StoryStudio.saveResolves := saveResolves;
     StoryStudio.currentTime := 7 |}.

End Scenes.

(* ===================================================================== *)
(** * Part II: the properties                                              *)
(* ===================================================================== *)

(** ** Running a handler symbolically *)

Ltac run_monad :=
  unfold LiveAgent.bind, LiveAgent.gets, LiveAgent.modify, LiveAgent.ret,
    LiveAgent.throw, LiveAgent.when_true, LiveAgent.when_some,
    LiveAgent.try_catch, LiveAgent.startSource in *;
  cbn [LiveAgent.final LiveAgent.threw] in *.

(** Split on the one [match] that blocks evaluation. *)
Ltac step_match :=
  cbn;
  match goal with
  | |- context [match ?x with _ => _ end] =>
      lazymatch x with
      | context [match _ with _ => _ end] => fail
      | _ => destruct x eqn:?
      end
  end.

Ltac run_cases := repeat step_match; cbn.

(** Name every field of a state, so that a handler computes on it. *)
Ltac open_state s :=
  destruct s as [[ac ic nst se st pr so ia oa vi] [co sp li vo er]
                 [cx sx nx tx mx sd rj at']].

(** ** The playback timeline *)
Module SchedulerProps.
Import Types LiveAgent.
Local Open Scope Q_scope.

Section Timeline.
Variable decodeAudioData : string -> Z -> Z -> option AudioBuffer.
Variable createPcmBlob : list Q -> Blob.















(** *** The timeline over a whole run of the page *)




















End Timeline.



End SchedulerProps.

(** ** Acquisition and teardown *)
Module SessionProps.
Import Types LiveAgent.

(** *** Lists of browser objects under release *)

Lemma closeAt_lookup n l m c :
  closeAt n l !! m = Some c ->
  (m = n /\ closed c = true) \/ (m <> n /\ l !! m = Some c).
Proof.
  unfold closeAt. rewrite list_lookup_alter. case_decide as E.
  - subst. intros H. apply fmap_Some in H as (c' & _ & ->). left. auto.
  - intros H. right. auto.
Qed.

Lemma closeOpt_lookup o l m c :
  from_option closeAt (fun l => l) o l !! m = Some c ->
  closed c = true \/ (o <> Some m /\ l !! m = Some c).
Proof.
  destruct o as [n|]; cbn; [|right; split; [discriminate|assumption]].
  intros H. apply closeAt_lookup in H as [[-> ?]|[? ?]]; [auto|].
  right. split; [congruence|assumption].
Qed.

Lemma stopOpt_lookup o (l : list bool) m :
  from_option (fun n => <[n := false]>) (fun l => l) o l !! m = Some true ->
  o <> Some m /\ l !! m = Some true.
Proof.
  destruct o as [n|]; cbn; [|split; [discriminate|assumption]].
  intros H. apply list_lookup_insert_Some in H as [(_ & ? & _)|(? & ?)];
    [discriminate|]. split; [congruence|assumption].
Qed.

Lemma switchOpt_lookup o l m nd :
  from_option (switchAt false) (fun l => l) o l !! m = Some nd ->
  connected nd = false \/ (o <> Some m /\ l !! m = Some nd).
Proof.
  destruct o as [n|]; cbn; [|right; split; [discriminate|assumption]].
  unfold switchAt. rewrite list_lookup_alter. case_decide as E.
  - subst. intros H. apply fmap_Some in H as (c' & _ & ->). left. auto.
  - intros H. right. split; [congruence|assumption].
Qed.

Lemma cancel_disarms (l : list bool) n :
  length (List.filter (fun armed => armed) (<[n := false]> l))
  <= length (List.filter (fun armed => armed) l).
Proof.
  revert n. induction l as [|b l IH]; intros [|n]; cbn; try lia.
  - destruct b; cbn; lia.
  - destruct b; cbn; [apply (proj1 (Nat.succ_le_mono _ _)), IH|apply IH].
Qed.

(** *** [cleanup] in closed form *)

(** [cleanup] always returns, and its result is a function of the refs it
    found: each is cleared, and what it pointed at is released. *)
Lemma cleanup_spec s :
  exists s', cleanup s = Normal tt s'
  /\ zeroed (ui s') /\ error (ui s') = error (ui s)
  /\ unreferenced (refs s')
  /\ nextStartTimeRef (refs s') = nextStartTimeRef (refs s)
  /\ inputAnalyserRef (refs s') = inputAnalyserRef (refs s)
  /\ outputAnalyserRef (refs s') = outputAnalyserRef (refs s)
  /\ transports (world s') = transports (world s)
  /\ started (world s') = started (world s)
  /\ contexts (world s') =
       from_option closeAt (fun l => l) (audioContextRef (refs s))
         (from_option closeAt (fun l => l) (inputContextRef (refs s))
            (contexts (world s)))
  /\ streams (world s') =
       from_option (fun n => <[n := false]>) (fun l => l) (streamRef (refs s))
         (streams (world s))
  /\ timers (world s') =
       from_option (fun n => <[n := false]>) (fun l => l)
         (volumeIntervalRef (refs s)) (timers (world s))
  /\ nodes (world s') =
       from_option (switchAt false) (fun l => l) (sourceRef (refs s))
         (from_option (switchAt false) (fun l => l) (processorRef (refs s))
            (nodes (world s))).
Proof.
  exists (final (cleanup s)). open_state s.
  destruct pr, so, st, ic, ac, se, vi; vm_compute; repeat split.
Qed.

Lemma cleanup_idempotent s :
  cleanup (final (cleanup s)) = Normal tt (final (cleanup s)).
Proof.
  open_state s. destruct pr, so, st, ic, ac, se, vi; vm_compute; reflexivity.
Qed.

Lemma cleanup_error s : error (ui (final (cleanup s))) = error (ui s).
Proof.
  destruct (cleanup_spec s) as (s' & -> & _ & H & _). exact H.
Qed.

(** *** [connect], when everything is granted and when something is not *)

Lemma connect_granted s agent :
  exists s', connect agent granted s = Normal tt s'
  /\ error (ui s') = None
  /\ isConnected (ui s') = isConnected (ui s)
  /\ contexts (world s') =
       contexts (world s) ++ [{| contextRate := 24000; closed := false |};
                              {| contextRate := 16000; closed := false |}]
  /\ streams (world s') = streams (world s) ++ [true]
  /\ transports (world s') =
       transports (world s) ++ [{| persona := agent; promise := Pending;
                                   reactions := []; received := [] |}]
  /\ timers (world s') = timers (world s) ++ [true]
  /\ audioContextRef (refs s') = Some (length (contexts (world s)))
  /\ inputContextRef (refs s') = Some (S (length (contexts (world s))))
  /\ streamRef (refs s') = Some (length (streams (world s)))
  /\ sessionRef (refs s') = Some (length (transports (world s)))
  /\ volumeIntervalRef (refs s') = Some (length (timers (world s))).
Proof.
  exists (final (connect agent granted s)). open_state s.
  split; [vm_compute; reflexivity|]. cbn.
  rewrite <- app_assoc, length_app, Nat.add_1_r. cbn. repeat split.
Qed.

Lemma connect_failure s agent env :
  succeeds env = false ->
  exists s',
    connect agent env s = Normal tt s'
    /\ error (ui s') = Some "Failed to initialize"%string
    /\ zeroed (ui s')
    /\ unreferenced (refs s')
    /\ (forall n, length (contexts (world s)) <= n ->
                  contextReleased (world s') n)
    /\ (forall n, length (streams (world s)) <= n ->
                  streamReleased (world s') n)
    /\ transports (world s') = transports (world s)
    /\ timers (world s') =
         from_option (fun n => <[n := false]>) (fun l => l)
            (volumeIntervalRef (refs s)) (timers (world s)).
Proof.
  intros Hfail. unfold connect, try_catch. open_state s.
  destruct env as [[|] [|] [|] [|]]; try discriminate Hfail; cbn -[cleanup];
    unfold bind, modify;
    match goal with
    | |- context [cleanup ?st] =>
        destruct (cleanup_spec st)
          as (s' & -> & Hui & Herr & Hrefs & _ & _ & _ & Htr & _
              & Hctx & Hstr & Htim & _)
    end; cbn in *; exists s';
    (split; [reflexivity|]); (split; [exact Herr|]); (split; [exact Hui|]);
    (split; [exact Hrefs|]).
  all: split;
    [intros n Hn c Hc; rewrite Hctx in Hc;
     repeat first
       [ apply closeOpt_lookup in Hc as [?|[? Hc]]; [assumption|]
       | apply closeAt_lookup in Hc as [[? ?]|[? Hc]]; [assumption|] ];
     apply lookup_lt_Some in Hc; rewrite ?length_app in *; cbn in *; lia|].
  all: split;
    [intros n Hn Hlive; rewrite Hstr in Hlive;
     first
       [ apply stopOpt_lookup in Hlive as [? Hlive]
       | apply list_lookup_insert_Some in Hlive as [(? & ? & ?)|(? & Hlive)];
         [discriminate|] ];
     apply lookup_lt_Some in Hlive; rewrite ?length_app in *; cbn in *; lia|].
  all: split; assumption.
Qed.

Lemma cleanup_attempts s :
  attempts (world (final (cleanup s))) = attempts (world s).
Proof.
  open_state s. destruct pr, so, st, ic, ac, se, vi; reflexivity.
Qed.

(** *** [connect] cut at its [await] *)

(** When both contexts are created, [connect] suspends: the attempt waits,
    the refs point at the new contexts, and nothing else has changed but the
    error slot. *)
Lemma connectBegin_granted s agent :
  exists s', connectBegin agent true true s = Normal tt s'
  /\ error (ui s') = None
  /\ isConnected (ui s') = isConnected (ui s)
  /\ isSpeaking (ui s') = isSpeaking (ui s)
  /\ contexts (world s') =
       contexts (world s) ++ [{| contextRate := 24000; closed := false |};
                              {| contextRate := 16000; closed := false |}]
  /\ streams (world s') = streams (world s)
  /\ transports (world s') = transports (world s)
  /\ timers (world s') = timers (world s)
  /\ started (world s') = started (world s)
  /\ attempts (world s') =
       attempts (world s) ++ [{| caller := agent; waiting := true |}]
  /\ audioContextRef (refs s') = Some (length (contexts (world s)))
  /\ inputContextRef (refs s') = Some (S (length (contexts (world s))))
  /\ streamRef (refs s') = streamRef (refs s)
  /\ sessionRef (refs s') = sessionRef (refs s)
  /\ volumeIntervalRef (refs s') = volumeIntervalRef (refs s)
  /\ nextStartTimeRef (refs s') = nextStartTimeRef (refs s).
Proof.
  exists (final (connectBegin agent true true s)). open_state s.
  split; [vm_compute; reflexivity|]. cbn.
  rewrite <- app_assoc, length_app, Nat.add_1_r. cbn. repeat split.
Qed.

(** When a context constructor throws, nothing distinguishes the call from a
    [connect] that fails at that point. *)
Lemma connectBegin_failure s agent outputOk inputOk micGranted clientOk :
  outputOk && inputOk = false ->
  connectBegin agent outputOk inputOk s
  = connect agent {| outputContextOk := outputOk; inputContextOk := inputOk;
                     micGranted := micGranted; clientOk := clientOk |} s.
Proof.
  intros H. open_state s.
  destruct outputOk, inputOk; try discriminate H; reflexivity.
Qed.

(** The answer of the microphone to an attempt that does not wait (any
    more) runs nothing. *)
Lemma connectResume_idle s k micGranted clientOk :
  (forall agent, attempts (world s) !! k
                 <> Some {| caller := agent; waiting := true |}) ->
  connectResume k micGranted clientOk s = Normal tt s.
Proof.
  intros H. unfold connectResume, bind, gets.
  destruct (attempts (world s) !! k) as [[agent [|]]|] eqn:E;
    [destruct (H agent); reflexivity|reflexivity|reflexivity].
Qed.

Lemma connectResume_granted s k agent :
  attempts (world s) !! k = Some {| caller := agent; waiting := true |} ->
  exists s', connectResume k true true s = Normal tt s'
  /\ ui s' = ui s
  /\ contexts (world s') = contexts (world s)
  /\ streams (world s') = streams (world s) ++ [true]
  /\ transports (world s') =
       transports (world s) ++ [{| persona := agent; promise := Pending;
                                   reactions := []; received := [] |}]
  /\ timers (world s') = timers (world s) ++ [true]
  /\ started (world s') = started (world s)
  /\ attempts (world s') =
       <[k := {| caller := agent; waiting := false |}]> (attempts (world s))
  /\ audioContextRef (refs s') = audioContextRef (refs s)
  /\ inputContextRef (refs s') = inputContextRef (refs s)
  /\ streamRef (refs s') = Some (length (streams (world s)))
  /\ sessionRef (refs s') = Some (length (transports (world s)))
  /\ volumeIntervalRef (refs s') = Some (length (timers (world s)))
  /\ nextStartTimeRef (refs s') = nextStartTimeRef (refs s).
Proof.
  intros H. exists (final (connectResume k true true s)). open_state s.
  cbn in H. unfold connectResume, bind, gets. cbn. rewrite H.
  split; [reflexivity|]. cbn. repeat split.
Qed.

(** When the microphone is denied the [catch] block runs on the state as
    it is by then; when the client library throws, it runs after the stream
    has been stored. *)
Lemma connectResume_denied s k agent clientOk :
  attempts (world s) !! k = Some {| caller := agent; waiting := true |} ->
  connectResume k false clientOk s = failedToInitialize (answered k agent s).
Proof.
  intros H. open_state s. cbn in H.
  unfold connectResume, bind, gets. cbn. rewrite H. reflexivity.
Qed.

Lemma connectResume_client s k agent :
  attempts (world s) !! k = Some {| caller := agent; waiting := true |} ->
  connectResume k true false s
  = failedToInitialize
      (set_streamRef (Some (length (streams (world s))))
         (put_streams (streams (world s) ++ [true]) (answered k agent s))).
Proof.
  intros H. open_state s. cbn in H.
  unfold connectResume, bind, gets. cbn. rewrite H. reflexivity.
Qed.

(** The [catch] block in closed form: [cleanup] with the message set. *)
Lemma failedToInitialize_spec s :
  exists s', failedToInitialize s = Normal tt s'
  /\ s' = final (cleanup (setError (Some "Failed to initialize"%string) s))
  /\ error (ui s') = Some "Failed to initialize"%string
  /\ zeroed (ui s') /\ unreferenced (refs s').
Proof.
  unfold failedToInitialize, bind, modify.
  destruct (cleanup_spec (setError (Some "Failed to initialize"%string) s))
    as (s' & Hrun & Hui & Herr & Hrefs & _).
  exists s'. rewrite Hrun. split; [reflexivity|]. split; [reflexivity|].
  split; [rewrite Herr; destruct s as [? [] ?]; reflexivity|]. auto.
Qed.

Lemma succeeds_granted env : succeeds env = true -> env = granted.
Proof. destruct env as [[|] [|] [|] [|]]; try discriminate. reflexivity. Qed.

Lemma filter_none {A} (P : A -> bool) (l : list A) :
  (forall n x, l !! n = Some x -> P x = false) -> List.filter P l = [].
Proof.
  induction l as [|x l IH]; intros H; cbn; [reflexivity|].
  rewrite (H 0%nat x eq_refl). apply IH. intros n y Hy. apply (H (S n) y Hy).
Qed.

(** After [cleanup], whatever still runs ran before and was not held. *)
Lemma cleanup_starts_nothing s :
  let s' := final (cleanup s) in
  (forall n c, contexts (world s') !! n = Some c -> closed c = false ->
     contexts (world s) !! n = Some c
     /\ audioContextRef (refs s) <> Some n /\ inputContextRef (refs s) <> Some n)
  /\ (forall n, streams (world s') !! n = Some true ->
       streams (world s) !! n = Some true /\ streamRef (refs s) <> Some n)
  /\ (forall n, timers (world s') !! n = Some true ->
       timers (world s) !! n = Some true /\ volumeIntervalRef (refs s) <> Some n).
Proof.
  destruct (cleanup_spec s) as (s' & -> & _ & _ & _ & _ & _ & _ & _ & _
                                 & Hctx & Hstr & Htim & _).
  cbn. split; [|split].
  - intros n c Hc Hopen. rewrite Hctx in Hc.
    apply closeOpt_lookup in Hc as [?|[Hout Hc]]; [congruence|].
    apply closeOpt_lookup in Hc as [?|[Hin Hc]]; [congruence|]. auto.
  - intros n Hn. rewrite Hstr in Hn. apply stopOpt_lookup in Hn as [? ?]. auto.
  - intros n Hn. rewrite Htim in Hn. apply stopOpt_lookup in Hn as [? ?]. auto.
Qed.

Lemma cleanup_leaves_nothing s :
  accounted s ->
  let s' := final (cleanup s) in
  openContexts (world s') = 0 /\ liveStreams (world s') = 0
  /\ armedTimers (world s') = 0 /\ accounted s'.
Proof.
  intros (Hc & Hs & Ht).
  destruct (cleanup_starts_nothing s) as (Hc' & Hs' & Ht'). cbn zeta.
  assert (Hno_c : forall n c, contexts (world (final (cleanup s))) !! n = Some c ->
                              negb (closed c) = false).
  { intros n c Hl. destruct (closed c) eqn:E; [reflexivity|].
    destruct (Hc' n c Hl E) as (Hold & H1 & H2).
    destruct (Hc n c Hold E); contradiction. }
  assert (Hno_s : forall n b, streams (world (final (cleanup s))) !! n = Some b ->
                              b = false).
  { intros n [|] Hl; [|reflexivity].
    destruct (Hs' n Hl) as (Hold & H1). destruct (H1 (Hs n Hold)). }
  assert (Hno_t : forall n b, timers (world (final (cleanup s))) !! n = Some b ->
                              b = false).
  { intros n [|] Hl; [|reflexivity].
    destruct (Ht' n Hl) as (Hold & H1). destruct (H1 (Ht n Hold)). }
  unfold openContexts, liveStreams, armedTimers.
  rewrite (filter_none _ _ Hno_c), (filter_none _ _ Hno_s),
    (filter_none _ _ Hno_t).
  repeat split; try reflexivity.
  - intros n c Hl E. specialize (Hno_c n c Hl). rewrite E in Hno_c. discriminate.
  - intros n Hl. specialize (Hno_s n _ Hl). discriminate.
  - intros n Hl. specialize (Hno_t n _ Hl). discriminate.
Qed.

(** *** Nothing is left running *)

Section Invariant.
Variable decodeAudioData : string -> Z -> Z -> option AudioBuffer.
Variable createPcmBlob : list Q -> Blob.

(** The callbacks that neither acquire nor release. *)
Lemma settle_holds k ok s :
  let s' := final (settle k ok s) in
  contexts (world s') = contexts (world s)
  /\ streams (world s') = streams (world s)
  /\ timers (world s') = timers (world s)
  /\ audioContextRef (refs s') = audioContextRef (refs s)
  /\ inputContextRef (refs s') = inputContextRef (refs s)
  /\ streamRef (refs s') = streamRef (refs s)
  /\ volumeIntervalRef (refs s') = volumeIntervalRef (refs s)
  /\ attempts (world s') = attempts (world s).
Proof.
  open_state s. unfold settle. run_monad. run_cases; repeat split.
Qed.

Lemma onopen_holds k s :
  let s' := final (onopen k s) in
  contexts (world s') = contexts (world s)
  /\ streams (world s') = streams (world s)
  /\ timers (world s') = timers (world s)
  /\ audioContextRef (refs s') = audioContextRef (refs s)
  /\ inputContextRef (refs s') = inputContextRef (refs s)
  /\ streamRef (refs s') = streamRef (refs s)
  /\ volumeIntervalRef (refs s') = volumeIntervalRef (refs s)
  /\ attempts (world s') = attempts (world s).
Proof.
  open_state s. unfold onopen, createNode, connectNode, setConnected.
  run_monad. run_cases; repeat split.
Qed.

Lemma onmessage_holds agent now message s :
  let s' := final (onmessage decodeAudioData agent now message s) in
  contexts (world s') = contexts (world s)
  /\ streams (world s') = streams (world s)
  /\ timers (world s') = timers (world s)
  /\ audioContextRef (refs s') = audioContextRef (refs s)
  /\ inputContextRef (refs s') = inputContextRef (refs s)
  /\ streamRef (refs s') = streamRef (refs s)
  /\ volumeIntervalRef (refs s') = volumeIntervalRef (refs s)
  /\ attempts (world s') = attempts (world s).
Proof.
  open_state s. unfold onmessage. run_monad.
  destruct (inlineAudio message) as [b64|], ac as [ctx|]; cbn;
    try destruct (JS.truthy_string b64); cbn;
    try destruct (decodeAudioData b64 24000%Z 1%Z); cbn;
    destruct (isInterrupted message), (isTurnComplete message);
    repeat split.
Qed.

Lemma onaudioprocess_holds k frame s :
  let s' := final (onaudioprocess createPcmBlob k frame s) in
  contexts (world s') = contexts (world s)
  /\ streams (world s') = streams (world s)
  /\ timers (world s') = timers (world s)
  /\ audioContextRef (refs s') = audioContextRef (refs s)
  /\ inputContextRef (refs s') = inputContextRef (refs s)
  /\ streamRef (refs s') = streamRef (refs s)
  /\ volumeIntervalRef (refs s') = volumeIntervalRef (refs s)
  /\ attempts (world s') = attempts (world s).
Proof.
  open_state s. unfold onaudioprocess, thenSend. run_monad.
  run_cases; repeat split.
Qed.

Lemma tick_holds inputData outputData s :
  let s' := final (tick inputData outputData s) in
  contexts (world s') = contexts (world s)
  /\ streams (world s') = streams (world s)
  /\ timers (world s') = timers (world s)
  /\ audioContextRef (refs s') = audioContextRef (refs s)
  /\ inputContextRef (refs s') = inputContextRef (refs s)
  /\ streamRef (refs s') = streamRef (refs s)
  /\ volumeIntervalRef (refs s') = volumeIntervalRef (refs s)
  /\ attempts (world s') = attempts (world s).
Proof. open_state s. repeat split. Qed.

Lemma accounted_holds s s' :
  contexts (world s') = contexts (world s)
  /\ streams (world s') = streams (world s)
  /\ timers (world s') = timers (world s)
  /\ audioContextRef (refs s') = audioContextRef (refs s)
  /\ inputContextRef (refs s') = inputContextRef (refs s)
  /\ streamRef (refs s') = streamRef (refs s)
  /\ volumeIntervalRef (refs s') = volumeIntervalRef (refs s)
  /\ attempts (world s') = attempts (world s) ->
  accounted s -> accounted s'.
Proof.
  intros (H1 & H2 & H3 & H4 & H5 & H6 & H7 & _) Hacc. unfold accounted.
  rewrite H1, H2, H3, H4, H5, H6, H7. exact Hacc.
Qed.

Lemma tracked_holds s s' :
  contexts (world s') = contexts (world s)
  /\ streams (world s') = streams (world s)
  /\ timers (world s') = timers (world s)
  /\ audioContextRef (refs s') = audioContextRef (refs s)
  /\ inputContextRef (refs s') = inputContextRef (refs s)
  /\ streamRef (refs s') = streamRef (refs s)
  /\ volumeIntervalRef (refs s') = volumeIntervalRef (refs s)
  /\ attempts (world s') = attempts (world s) ->
  tracked s -> tracked s'.
Proof.
  intros H [Hacc Hw]. split; [eapply accounted_holds; eauto|].
  destruct H as (_ & _ & _ & _ & _ & H6 & H7 & H8).
  rewrite H6, H7, H8. exact Hw.
Qed.

Lemma appended_lookup {A} (l new : list A) n x :
  (l ++ new) !! n = Some x ->
  l !! n = Some x \/ exists i, n = length l + i /\ new !! i = Some x.
Proof.
  intros H. apply lookup_app_Some in H as [?|[Hle Hx]]; [auto|].
  right. exists (n - length l). split; [lia|exact Hx].
Qed.

Lemma connect_accounted s agent env :
  accounted s -> guarded s (Connect agent env) ->
  accounted (final (connect agent env s)).
Proof.
  intros (Hc & Hs & Ht) ((Hac & Hic & Hst & Hvi) & _).
  assert (Hc0 : forall n c, contexts (world s) !! n = Some c -> closed c = true).
  { intros n c Hl. destruct (closed c) eqn:E; [reflexivity|].
    destruct (Hc n c Hl E); congruence. }
  assert (Hs0 : forall n, streams (world s) !! n <> Some true).
  { intros n Hl. specialize (Hs n Hl). congruence. }
  assert (Ht0 : forall n, timers (world s) !! n <> Some true).
  { intros n Hl. specialize (Ht n Hl). congruence. }
  clear Hc Hs Ht.
  destruct (succeeds env) eqn:Hok.
  - rewrite (succeeds_granted env Hok).
    destruct (connect_granted s agent)
      as (s' & -> & _ & _ & Hctx & Hstr & _ & Htim & Hac' & Hic' & Hst' & _ & Hvi').
    cbn. split; [|split].
    + intros n c Hl Hopen. rewrite Hctx in Hl. rewrite Hac', Hic'.
      apply appended_lookup in Hl as [Hl|(i & -> & Hl)].
      * specialize (Hc0 n c Hl). congruence.
      * destruct i as [|[|i]]; [left|right|discriminate]; f_equal; lia.
    + intros n Hl. rewrite Hstr in Hl. rewrite Hst'.
      apply appended_lookup in Hl as [Hl|(i & -> & Hl)].
      * destruct (Hs0 n Hl).
      * destruct i as [|i]; [|discriminate]. f_equal; lia.
    + intros n Hl. rewrite Htim in Hl. rewrite Hvi'.
      apply appended_lookup in Hl as [Hl|(i & -> & Hl)].
      * destruct (Ht0 n Hl).
      * destruct i as [|i]; [|discriminate]. f_equal; lia.
  - unfold connect, try_catch. open_state s. cbn in *. subst.
    destruct env as [[|] [|] [|] [|]]; try discriminate Hok; cbn -[cleanup];
      unfold bind, modify;
      match goal with
      | |- context [cleanup ?st] =>
          apply (cleanup_leaves_nothing st)
      end; (split; [|split]); cbn.
    all: try (intros n c Hl Hopen;
              repeat (apply appended_lookup in Hl as [Hl|(i & -> & Hl)];
                      [|try (destruct i as [|i]; [|discriminate]);
                        rewrite ?length_app; cbn;
                        first [left; f_equal; lia | right; f_equal; lia]]);
              specialize (Hc0 n c Hl); congruence).
    all: try (intros n Hl;
              repeat (apply appended_lookup in Hl as [Hl|(i & -> & Hl)];
                      [|try (destruct i as [|i]; [|discriminate]);
                        f_equal; lia]);
              first [destruct (Hs0 n Hl) | destruct (Ht0 n Hl)]).
Qed.

Lemma connect_attempts agent env s :
  attempts (world (final (connect agent env s))) = attempts (world s).
Proof.
  destruct (succeeds env) eqn:Hok.
  - rewrite (succeeds_granted env Hok). open_state s. reflexivity.
  - unfold connect, try_catch. open_state s.
    destruct env as [[|] [|] [|] [|]]; try discriminate Hok; cbn -[cleanup];
      unfold failedToInitialize, bind, modify; cbn -[cleanup];
      rewrite cleanup_attempts; reflexivity.
Qed.

(** A state in which no call waits is tracked as soon as it is accounted. *)
Lemma settled_tracked s :
  accounted s -> settledAttempts (world s) -> tracked s.
Proof.
  intros Hacc Hset. split; [exact Hacc|]. intros k a Hl Hw.
  rewrite (Hset k a Hl) in Hw. discriminate.
Qed.

Lemma connect_tracked s agent env :
  tracked s -> guarded s (Connect agent env) ->
  tracked (final (connect agent env s)).
Proof.
  intros [Hacc _] Hg. apply settled_tracked.
  - apply connect_accounted; assumption.
  - unfold settledAttempts. rewrite connect_attempts. apply Hg.
Qed.

Lemma cleanup_tracked s : tracked s -> tracked (final (cleanup s)).
Proof.
  intros [Hacc Hw]. split; [apply cleanup_leaves_nothing, Hacc|].
  rewrite cleanup_attempts. intros k a Hl Ha.
  destruct (Hw k a Hl Ha) as (_ & _ & Huniq).
  destruct (cleanup_spec s) as (s' & -> & _ & _ & Hrefs & _). cbn.
  destruct Hrefs as (_ & _ & Hst & _ & _ & _ & Hvi). auto.
Qed.

Lemma setError_accounted v s : accounted s -> accounted (setError v s).
Proof. destruct s as [? [] ?]. auto. Qed.

(** After the [catch] block, on a state in which no call waits. *)
Lemma failed_tracked s :
  accounted s -> settledAttempts (world s) ->
  tracked (final (failedToInitialize s)).
Proof.
  intros Hacc Hset.
  destruct (failedToInitialize_spec s) as (s' & -> & -> & _). cbn [final].
  apply settled_tracked.
  - apply cleanup_leaves_nothing, setError_accounted, Hacc.
  - unfold settledAttempts. rewrite cleanup_attempts.
    destruct s as [? [] ?]. exact Hset.
Qed.

Lemma begin_tracked s agent outputOk inputOk :
  tracked s -> guarded s (Begin agent outputOk inputOk) ->
  tracked (final (connectBegin agent outputOk inputOk s)).
Proof.
  intros Htr Hg. destruct (outputOk && inputOk) eqn:Hok.
  - apply andb_prop in Hok as [-> ->].
    destruct Htr as [(Hc & Hs & Ht) _].
    destruct Hg as ((Hac & Hic & Hst & Hvi) & Hset).
    destruct (connectBegin_granted s agent)
      as (s' & -> & _ & _ & _ & Hctx & Hstr & _ & Htim & _ & Hat
          & Hac' & Hic' & Hst' & _ & Hvi' & _).
    cbn. split; [split; [|split]|].
    + intros n c Hl Hopen. rewrite Hctx in Hl. rewrite Hac', Hic'.
      apply appended_lookup in Hl as [Hl|(i & -> & Hl)].
      * destruct (Hc n c Hl Hopen); congruence.
      * destruct i as [|[|i]]; [left|right|discriminate]; f_equal; lia.
    + intros n Hl. rewrite Hstr in Hl. specialize (Hs n Hl). congruence.
    + intros n Hl. rewrite Htim in Hl. specialize (Ht n Hl). congruence.
    + rewrite Hat, Hst', Hvi'. intros k a Hl Ha.
      split; [exact Hst|]. split; [exact Hvi|]. intros j b Hj Hb.
      apply appended_lookup in Hl as [Hl|(i & -> & Hl)];
        [rewrite (Hset k a Hl) in Ha; discriminate|].
      apply appended_lookup in Hj as [Hj|(i' & -> & Hj)];
        [rewrite (Hset j b Hj) in Hb; discriminate|].
      destruct i as [|i], i' as [|i']; try discriminate. reflexivity.
  - rewrite (connectBegin_failure s agent outputOk inputOk true true Hok).
    apply connect_tracked; assumption.
Qed.

Lemma resume_tracked s k micGranted clientOk :
  tracked s -> tracked (final (connectResume k micGranted clientOk s)).
Proof.
  intros Htr.
  destruct (attempts (world s) !! k) as [[agent [|]]|] eqn:E;
    [|rewrite connectResume_idle; [exact Htr|intros ?; congruence]..].
  destruct Htr as [Hacc Hw].
  destruct (Hw k _ E eq_refl) as (Hst & Hvi & Huniq).
  assert (Hset : settledAttempts (world (answered k agent s))).
  { intros j b Hl. destruct (waiting b) eqn:Hb; [|reflexivity].
    cbn in Hl. apply list_lookup_insert_Some in Hl as [(_ & <- & _)|(Hne & Hl)];
      [discriminate|]. destruct Hne. symmetry. eapply Huniq; eauto. }
  destruct Hacc as (Hc & Hs & Ht).
  destruct micGranted; [destruct clientOk|].
  - destruct (connectResume_granted s k agent E)
      as (s' & -> & _ & Hctx & Hstr & _ & Htim & _ & Hat
          & Hac & Hic & Hsr & _ & Hvr & _).
    cbn. apply settled_tracked.
    + unfold accounted. rewrite Hctx, Hac, Hic, Hstr, Hsr, Htim, Hvr.
      split; [exact Hc|]. split.
      * intros n Hl. apply appended_lookup in Hl as [Hl|(i & -> & Hl)].
        -- specialize (Hs n Hl). congruence.
        -- destruct i as [|i]; [|discriminate]. f_equal; lia.
      * intros n Hl. apply appended_lookup in Hl as [Hl|(i & -> & Hl)].
        -- specialize (Ht n Hl). congruence.
        -- destruct i as [|i]; [|discriminate]. f_equal; lia.
    + unfold settledAttempts. rewrite Hat. exact Hset.
  - rewrite (connectResume_client s k agent E). apply failed_tracked.
    + split; [exact Hc|]. split; [|exact Ht]. cbn.
      intros n Hl. apply appended_lookup in Hl as [Hl|(i & -> & Hl)].
      * specialize (Hs n Hl). congruence.
      * destruct i as [|i]; [|discriminate]. f_equal; lia.
    + exact Hset.
  - rewrite (connectResume_denied s k agent clientOk E). apply failed_tracked.
    + split; [exact Hc|]. split; [exact Hs|exact Ht].
    + exact Hset.
Qed.

Lemma step_tracked s e :
  tracked s -> guarded s e ->
  tracked (step decodeAudioData createPcmBlob s e).
Proof.
  intros Htr Hg. unfold step.
  destruct e as [agent env| | |k ok|k|k now message|k|k|t i o|n frame
                |agent outputOk inputOk|k micGranted clientOk];
    cbn [handler].
  - apply connect_tracked; assumption.
  - apply cleanup_tracked, Htr.
  - apply cleanup_tracked, Htr.
  - eapply tracked_holds; [apply settle_holds|exact Htr].
  - destruct (transports (world s) !! k); [|exact Htr].
    eapply tracked_holds; [apply onopen_holds|exact Htr].
  - destruct (transports (world s) !! k); [|exact Htr].
    eapply tracked_holds; [apply onmessage_holds|exact Htr].
  - destruct (transports (world s) !! k); [|exact Htr].
    apply cleanup_tracked, Htr.
  - destruct (transports (world s) !! k); [|exact Htr].
    unfold onerror, bind, modify.
    apply cleanup_tracked. destruct s as [? [] ?]. exact Htr.
  - destruct (timers (world s) !! t) as [[|]|];
      first [exact Htr|eapply tracked_holds; [apply tick_holds|exact Htr]].
  - destruct (nodes (world s) !! n) as [[[|k] [|]]|]; try exact Htr.
    eapply tracked_holds; [apply onaudioprocess_holds|exact Htr].
  - apply begin_tracked; assumption.
  - apply resume_tracked, Htr.
Qed.

Lemma guarded_run_tracked es : forall s,
  tracked s -> guardedRun decodeAudioData createPcmBlob s es ->
  tracked (run decodeAudioData createPcmBlob s es).
Proof.
  induction es as [|e es IH]; intros s Htr Hrun; [exact Htr|].
  destruct Hrun as [Hg Hrest]. cbn. apply IH; [|exact Hrest].
  apply step_tracked; assumption.
Qed.

Lemma initial_tracked : tracked initial.
Proof.
  apply settled_tracked; [repeat split; intros; discriminate|].
  intros k a Hl. discriminate.
Qed.

(** *** The contexts of one attempt *)

Lemma cleanup_contextsHeld P s :
  contextsHeld P s -> contextsHeld P (final (cleanup s)).
Proof.
  intros H n c Hn Hl Hopen.
  destruct (cleanup_starts_nothing s) as (Hc & _).
  destruct (Hc n c Hl Hopen) as (Hold & H1 & H2).
  destruct (H n c Hn Hold Hopen); contradiction.
Qed.

Lemma contextsHeld_holds P s s' :
  contexts (world s') = contexts (world s)
  /\ streams (world s') = streams (world s)
  /\ timers (world s') = timers (world s)
  /\ audioContextRef (refs s') = audioContextRef (refs s)
  /\ inputContextRef (refs s') = inputContextRef (refs s)
  /\ streamRef (refs s') = streamRef (refs s)
  /\ volumeIntervalRef (refs s') = volumeIntervalRef (refs s)
  /\ attempts (world s') = attempts (world s) ->
  contextsHeld P s -> contextsHeld P s'.
Proof.
  intros (H1 & _ & _ & H4 & H5 & _) H. unfold contextsHeld.
  rewrite H1, H4, H5. exact H.
Qed.

Lemma failed_contextsHeld P s :
  contextsHeld P s -> contextsHeld P (final (failedToInitialize s)).
Proof.
  intros H. destruct (failedToInitialize_spec s) as (s' & -> & -> & _).
  cbn [final]. apply cleanup_contextsHeld. destruct s as [? [] ?]. exact H.
Qed.

Lemma resume_contextsHeld P s k micGranted clientOk :
  contextsHeld P s ->
  contextsHeld P (final (connectResume k micGranted clientOk s)).
Proof.
  intros H.
  destruct (attempts (world s) !! k) as [[agent [|]]|] eqn:E;
    [|rewrite connectResume_idle; [exact H|intros ?; congruence]..].
  destruct micGranted; [destruct clientOk|].
  - destruct (connectResume_granted s k agent E)
      as (s' & -> & _ & Hctx & _ & _ & _ & _ & _ & Hac & Hic & _).
    cbn. unfold contextsHeld. rewrite Hctx, Hac, Hic. exact H.
  - rewrite (connectResume_client s k agent E).
    apply failed_contextsHeld. exact H.
  - rewrite (connectResume_denied s k agent clientOk E).
    apply failed_contextsHeld. exact H.
Qed.

(** While no other call of [connect] starts, a context is either held by
    the refs or closed. *)
Lemma step_contextsHeld P s e :
  startsNoAttempt e -> contextsHeld P s ->
  contextsHeld P (step decodeAudioData createPcmBlob s e).
Proof.
  intros Hno H. unfold step.
  destruct e as [agent env| | |k ok|k|k now message|k|k|t i o|n frame
                |agent outputOk inputOk|k micGranted clientOk];
    cbn [handler]; try destruct Hno.
  - apply cleanup_contextsHeld, H.
  - apply cleanup_contextsHeld, H.
  - eapply contextsHeld_holds; [apply settle_holds|exact H].
  - destruct (transports (world s) !! k); [|exact H].
    eapply contextsHeld_holds; [apply onopen_holds|exact H].
  - destruct (transports (world s) !! k); [|exact H].
    eapply contextsHeld_holds; [apply onmessage_holds|exact H].
  - destruct (transports (world s) !! k); [|exact H].
    apply cleanup_contextsHeld, H.
  - destruct (transports (world s) !! k); [|exact H].
    unfold onerror, bind, modify.
    apply cleanup_contextsHeld. destruct s as [? [] ?]. exact H.
  - destruct (timers (world s) !! t) as [[|]|];
      first [exact H
            |eapply contextsHeld_holds; [apply tick_holds|exact H]].
  - destruct (nodes (world s) !! n) as [[[|k] [|]]|]; try exact H.
    eapply contextsHeld_holds; [apply onaudioprocess_holds|exact H].
  - apply resume_contextsHeld, H.
Qed.

Lemma run_contextsHeld P es : forall s,
  Forall startsNoAttempt es -> contextsHeld P s ->
  contextsHeld P (run decodeAudioData createPcmBlob s es).
Proof.
  induction es as [|e es IH]; intros s Hall H; [exact H|].
  apply Forall_cons in Hall as [He Hall]. cbn.
  apply IH; [exact Hall|]. apply step_contextsHeld; assumption.
Qed.

(** An attempt goes on waiting until the microphone answers it. *)
Lemma step_waits s e k a :
  startsNoAttempt e -> (forall m c, e <> Resume k m c) ->
  attempts (world s) !! k = Some a ->
  attempts (world (step decodeAudioData createPcmBlob s e)) !! k = Some a.
Proof.
  intros Hno Hne Ha. unfold step.
  destruct e as [agent env| | |j ok|j|j now message|j|j|t i o|n frame
                |agent outputOk inputOk|j micGranted clientOk];
    cbn [handler]; try destruct Hno.
  - unfold disconnect. rewrite cleanup_attempts. exact Ha.
  - rewrite cleanup_attempts. exact Ha.
  - destruct (settle_holds j ok s) as (_ & _ & _ & _ & _ & _ & _ & ->).
    exact Ha.
  - destruct (transports (world s) !! j); [|exact Ha].
    destruct (onopen_holds j s) as (_ & _ & _ & _ & _ & _ & _ & ->).
    exact Ha.
  - destruct (transports (world s) !! j) as [tr|]; [|exact Ha].
    destruct (onmessage_holds (persona tr) now message s)
      as (_ & _ & _ & _ & _ & _ & _ & ->).
    exact Ha.
  - destruct (transports (world s) !! j); [|exact Ha].
    unfold onclose. rewrite cleanup_attempts. exact Ha.
  - destruct (transports (world s) !! j); [|exact Ha].
    unfold onerror, bind, modify. rewrite cleanup_attempts.
    destruct s as [? [] ?]. exact Ha.
  - destruct (timers (world s) !! t) as [[|]|]; exact Ha.
  - destruct (nodes (world s) !! n) as [[[|j] [|]]|]; try exact Ha.
    destruct (onaudioprocess_holds j frame s)
      as (_ & _ & _ & _ & _ & _ & _ & ->).
    exact Ha.
  - assert (Hjk : j <> k) by (intros ->; destruct (Hne micGranted clientOk);
                               reflexivity).
    destruct (attempts (world s) !! j) as [[agent [|]]|] eqn:E;
      [|rewrite connectResume_idle; [exact Ha|intros ?; congruence]..].
    assert (Hans : attempts (world (answered j agent s)) !! k = Some a)
      by (cbn; rewrite list_lookup_insert_ne by exact Hjk; exact Ha).
    destruct micGranted; [destruct clientOk|].
    + destruct (connectResume_granted s j agent E)
        as (s' & -> & _ & _ & _ & _ & _ & _ & Hat & _).
      cbn. rewrite Hat. exact Hans.
    + rewrite (connectResume_client s j agent E).
      destruct (failedToInitialize_spec
                  (set_streamRef (Some (length (streams (world s))))
                     (put_streams (streams (world s) ++ [true])
                        (answered j agent s)))) as (s' & -> & -> & _).
      cbn [final]. rewrite cleanup_attempts. exact Hans.
    + rewrite (connectResume_denied s j agent clientOk E).
      destruct (failedToInitialize_spec (answered j agent s))
        as (s' & -> & -> & _).
      cbn [final]. rewrite cleanup_attempts.
      destruct s as [? [] ?]. exact Hans.
Qed.

Lemma run_waits k a es : forall s,
  Forall startsNoAttempt es ->
  Forall (fun e => forall m c, e <> Resume k m c) es ->
  attempts (world s) !! k = Some a ->
  attempts (world (run decodeAudioData createPcmBlob s es)) !! k = Some a.
Proof.
  induction es as [|e es IH]; intros s Hno Hne Ha; [exact Ha|].
  apply Forall_cons in Hno as [Hno1 Hno]. apply Forall_cons in Hne as [Hne1 Hne].
  cbn. apply IH; [exact Hno|exact Hne|]. apply step_waits; assumption.
Qed.

(** *** [Connect] is [Begin] followed at once by [Resume] *)

Lemma cleanup_put_attempts a s :
  final (cleanup (put_attempts a s)) = put_attempts a (final (cleanup s)).
Proof.
  open_state s. destruct pr, so, st, ic, ac, se, vi; vm_compute; reflexivity.
Qed.

Lemma failedToInitialize_put_attempts a s :
  final (failedToInitialize (put_attempts a s))
  = put_attempts a (final (failedToInitialize s)).
Proof.
  unfold failedToInitialize, bind, modify.
  rewrite <- cleanup_put_attempts. destruct s as [? [] []]. reflexivity.
Qed.

Lemma openSession_put_attempts a agent m c s :
  final (try_catch (openSession agent m c) failedToInitialize
           (put_attempts a s))
  = put_attempts a
      (final (try_catch (openSession agent m c) failedToInitialize s)).
Proof.
  destruct m; [destruct c|].
  - open_state s. reflexivity.
  - transitivity
      (final (failedToInitialize
                (put_attempts a
                   (set_streamRef (Some (length (streams (world s))))
                      (put_streams (streams (world s) ++ [true]) s))))).
    + open_state s. reflexivity.
    + rewrite failedToInitialize_put_attempts. open_state s. reflexivity.
  - transitivity (final (failedToInitialize (put_attempts a s))).
    + open_state s. reflexivity.
    + rewrite failedToInitialize_put_attempts. open_state s. reflexivity.
Qed.

Lemma put_attempts_twice a b s :
  put_attempts a (put_attempts b s) = put_attempts a s.
Proof. destruct s as [? ? []]. reflexivity. Qed.

(** When the microphone answers before anything else runs, the two halves
    of [connect] leave the page as the whole does, but for the record of the
    attempt. *)
Lemma connect_in_two_steps s agent env :
  let k := length (attempts (world s)) in
  let together := final (connect agent env s) in
  let apart :=
    step decodeAudioData createPcmBlob
      (step decodeAudioData createPcmBlob s
         (Begin agent (outputContextOk env) (inputContextOk env)))
      (Resume k (micGranted env) (clientOk env)) in
  put_attempts (attempts (world s)) apart = together.
Proof.
  cbn zeta. unfold step. cbn [handler].
  destruct (outputContextOk env && inputContextOk env) eqn:Hok.
  - apply andb_prop in Hok as [Ho Hi].
    destruct env as [o i m c]. cbn in Ho, Hi. subst o i.
    cbn [LiveAgent.outputContextOk LiveAgent.inputContextOk
         LiveAgent.micGranted LiveAgent.clientOk].
    set (s1 := final (acquireContexts true true s)).
    assert (Hbegin : connectBegin agent true true s
      = Normal tt (put_attempts
                     (attempts (world s)
                        ++ [{| caller := agent; waiting := true |}]) s1))
      by (unfold s1; open_state s; reflexivity).
    assert (Htogether : final (connect agent
                                 {| outputContextOk := true;
                                    inputContextOk := true;
                                    micGranted := m; clientOk := c |} s)
      = final (try_catch (openSession agent m c) failedToInitialize
                 (put_attempts (attempts (world s)) s1))).
    { unfold s1, connect, try_catch, bind. open_state s.
      cbn -[openSession failedToInitialize]. reflexivity. }
    rewrite Hbegin, Htogether. cbn [final].
    unfold connectResume, bind, gets, modify.
    replace (attempts (world (put_attempts
               (attempts (world s)
                  ++ [{| caller := agent; waiting := true |}]) s1))
             !! length (attempts (world s)))
      with (Some {| caller := agent; waiting := true |}).
    2:{ destruct s1 as [? ? []]. cbn.
        rewrite (list_lookup_middle _ [] _ _ eq_refl). reflexivity. }
    unfold answered. rewrite put_attempts_twice.
    rewrite !openSession_put_attempts. apply put_attempts_twice.
  - rewrite (connectBegin_failure s agent _ _ (micGranted env) (clientOk env)
               Hok).
    replace {| outputContextOk := outputContextOk env;
               inputContextOk := inputContextOk env;
               micGranted := micGranted env; clientOk := clientOk env |}
      with env by (destruct env; reflexivity).
    rewrite connectResume_idle.
    + cbn [final]. rewrite <- (connect_attempts agent env s) at 1.
      destruct (final (connect agent env s)) as [? ? []]. reflexivity.
    + intros a H. rewrite connect_attempts in H.
      apply lookup_lt_Some in H. lia.
Qed.

End Invariant.

(** *** C3 *)

(** C3, as stated, fails: pressing Connect again while the first connection
    is still connecting (the page still shows the button), or calling
    [connect] on the opened session, opens a second transport, a second pair
    of audio contexts and a second microphone stream, and arms a second
    timer. *)
Lemma second_connect_acquires_again :
  let again :=
    run Samples.decoder Samples.encoder Samples.connecting
      [Connect Samples.persona granted] in
  let reopened :=
    run Samples.decoder Samples.encoder Samples.opened
      [Connect Samples.persona granted] in
  LiveInterface.control (ui Samples.connecting) = LiveInterface.ConnectButton
  /\ (openedTransports (world Samples.connecting) = 1
      /\ openContexts (world Samples.connecting) = 2
      /\ liveStreams (world Samples.connecting) = 1)
  /\ (openedTransports (world again) = 2
      /\ openContexts (world again) = 4
      /\ liveStreams (world again) = 2
      /\ armedTimers (world again) = 2)
  /\ (openedTransports (world reopened) = 2
      /\ openContexts (world reopened) = 4
      /\ liveStreams (world reopened) = 2
      /\ armedTimers (world reopened) = 2).
Proof. vm_compute. repeat split. Qed.

(** C3, amended.  [connect] has no guard of its own.  Whatever the session
    holds, a [connect] whose acquisitions are all granted returns normally
    having opened one more transport, created one more pair of running
    audio contexts (24 kHz and 16 kHz), acquired one more live microphone
    stream and armed one more timer; the refs point at the new objects, and
    the objects they pointed at before are still there, unreleased.  So
    exactly one transport, one stream and one pair of contexts are held
    after it only if none was held before.  The button that calls [connect]
    stays on the page until [onopen] has set [isConnected]: it is gone once
    the session is open, not while it is connecting. *)
Theorem connect_acquires_unconditionally s agent :
  exists s',
    connect agent granted s = Normal tt s'
    /\ (contexts (world s') =
          contexts (world s) ++ [{| contextRate := 24000; closed := false |};
                                 {| contextRate := 16000; closed := false |}]
        /\ streams (world s') = streams (world s) ++ [true]
        /\ transports (world s') =
             transports (world s) ++ [{| persona := agent; promise := Pending;
                                         reactions := []; received := [] |}]
        /\ timers (world s') = timers (world s) ++ [true])
    /\ (audioContextRef (refs s') = Some (length (contexts (world s)))
        /\ inputContextRef (refs s') = Some (S (length (contexts (world s))))
        /\ streamRef (refs s') = Some (length (streams (world s)))
        /\ sessionRef (refs s') = Some (length (transports (world s)))
        /\ volumeIntervalRef (refs s') = Some (length (timers (world s))))
    /\ (openedTransports (world s') = openedTransports (world s) + 1
        /\ openContexts (world s') = openContexts (world s) + 2
        /\ liveStreams (world s') = liveStreams (world s) + 1
        /\ armedTimers (world s') = armedTimers (world s) + 1)
    /\ LiveInterface.control (ui s') = LiveInterface.control (ui s)
    /\ (forall k,
          LiveInterface.control (ui (final (onopen k s')))
          = LiveInterface.TerminateButton).
Proof.
  destruct (connect_granted s agent)
    as (s' & Hrun & _ & Hcon & Hctx & Hstr & Htr & Htim
        & Hac & Hic & Hst & Hse & Hvi).
  exists s'. split; [exact Hrun|]. split; [auto|]. split; [auto|].
  split; [|split].
  - unfold openedTransports, openContexts, liveStreams, armedTimers.
    rewrite Hctx, Hstr, Htr, Htim, !List.filter_app, !length_app. cbn.
    repeat split.
  - unfold LiveInterface.control. rewrite Hcon. reflexivity.
  - intros k. clear. open_state s'.
    unfold onopen, createNode, connectNode, setConnected. run_monad.
    destruct ic, st; reflexivity.
Qed.

(** *** C4 *)

(** C4, as stated, fails: [connect] has no guard, so a second call, or a
    call that overlaps one still waiting for the microphone, overwrites the
    refs.  The teardown that follows returns, zeroes the flags and clears
    the refs, and leaves the microphone stream of the first call live, its
    two contexts open and its timer armed. *)
Lemma second_connect_outlives_teardown :
  let twice :=
    run Samples.decoder Samples.encoder initial
      [Connect Samples.persona granted; Connect Samples.persona granted] in
  let overlapped :=
    run Samples.decoder Samples.encoder initial
      [Begin Samples.persona true true; Begin Samples.persona true true;
       Resume 0 true true; Resume 1 true true] in
  (exists s', disconnect twice = Normal tt s'
     /\ zeroed (ui s') /\ unreferenced (refs s')
     /\ liveStreams (world s') = 1 /\ openContexts (world s') = 2
     /\ armedTimers (world s') = 1)
  /\ (exists s', disconnect overlapped = Normal tt s'
        /\ zeroed (ui s') /\ unreferenced (refs s')
        /\ liveStreams (world s') = 1 /\ openContexts (world s') = 2
        /\ armedTimers (world s') = 1).
Proof. split; eexists; vm_compute; repeat split. Qed.

(** C4, amended.  From every state, hence after every history of calls,
    [disconnect] (which is [cleanup]) returns normally; the observable flags
    are then at their zero state, every ref it tests is null (the transport
    handle among them), and the microphone stream, the two audio contexts,
    the timer and the nodes that those refs held are stopped, closed,
    cancelled and detached; a second call in succession returns normally
    and changes nothing, and so does a call before any [connect].  What an
    earlier [connect] acquired and the refs no longer hold is not released.
    No context is left open, no stream live and no timer armed when
    everything running was held by the refs, as it is after every history in
    which [connect] was only called on a session holding nothing and with no
    earlier call waiting for the microphone, whatever ran between a call and
    the answer of the microphone. *)
Theorem teardown_is_total_and_zeroing s :
  exists s',
    disconnect s = Normal tt s'
    /\ zeroed (ui s')
    /\ unreferenced (refs s')
    /\ (forall n, streamRef (refs s) = Some n -> streamReleased (world s') n)
    /\ (forall n, inputContextRef (refs s) = Some n \/
                  audioContextRef (refs s) = Some n ->
                  contextReleased (world s') n)
    /\ (forall n, volumeIntervalRef (refs s) = Some n ->
                  timerReleased (world s') n)
    /\ (forall n, processorRef (refs s) = Some n \/ sourceRef (refs s) = Some n ->
                  nodeReleased (world s') n)
    /\ disconnect s' = Normal tt s'
    /\ disconnect initial = Normal tt initial
    /\ (accounted s ->
        openContexts (world s') = 0 /\ liveStreams (world s') = 0
        /\ armedTimers (world s') = 0)
    /\ (forall decodeAudioData createPcmBlob history,
          guardedRun decodeAudioData createPcmBlob initial history ->
          let after :=
            final (disconnect
                     (run decodeAudioData createPcmBlob initial history)) in
          openContexts (world after) = 0 /\ liveStreams (world after) = 0
          /\ armedTimers (world after) = 0).
Proof.
  unfold disconnect.
  destruct (cleanup_spec s) as (s' & Hrun & Hui & _ & Hrefs & _ & _ & _ & _ & _
                                 & Hctx & Hstr & Htim & Hnod).
  exists s'. split; [exact Hrun|]. split; [exact Hui|]. split; [exact Hrefs|].
  split; [|split; [|split; [|split; [|split; [|split; [|split]]]]]].
  - intros n Hn Hlive. rewrite Hstr in Hlive.
    apply stopOpt_lookup in Hlive as [Hne _]. congruence.
  - intros n Hn c Hc. rewrite Hctx in Hc.
    apply closeOpt_lookup in Hc as [?|[Hout Hc]]; [assumption|].
    apply closeOpt_lookup in Hc as [?|[Hin Hc]]; [assumption|].
    destruct Hn; congruence.
  - intros n Hn Harmed. rewrite Htim in Harmed.
    apply stopOpt_lookup in Harmed as [Hne _]. congruence.
  - intros n Hn nd Hnd. rewrite Hnod in Hnd.
    apply switchOpt_lookup in Hnd as [?|[Hsrc Hnd]]; [assumption|].
    apply switchOpt_lookup in Hnd as [?|[Hproc Hnd]]; [assumption|].
    destruct Hn; congruence.
  - pose proof (cleanup_idempotent s) as H. rewrite Hrun in H. exact H.
  - vm_compute. reflexivity.
  - intros Hacc. pose proof (cleanup_leaves_nothing s Hacc) as H.
    rewrite Hrun in H. cbn in H. tauto.
  - intros dec enc history Hguarded.
    destruct (guarded_run_tracked dec enc history initial
                initial_tracked Hguarded) as [Hacc _].
    pose proof (cleanup_leaves_nothing _ Hacc) as H. cbn zeta in *. tauto.
Qed.

(** Connect is pressed and Terminate before the microphone has answered;
    the microphone is granted all the same, the session is opened and
    spoken to; then Terminate is pressed again. *)
Lemma teardown_is_total_and_zeroing_witness :
  let history :=
    [Begin Samples.persona true true; Disconnect; Resume 0 true true;
     Settle 0 true; Open 0;
     Message 0 (1 # 10) (Samples.message (Some Samples.chunk) None None)] in
  guardedRun Samples.decoder Samples.encoder initial history
  /\ liveStreams
       (world (run Samples.decoder Samples.encoder initial history)) = 1
  /\ liveStreams
       (world
          (final (disconnect
                    (run Samples.decoder Samples.encoder initial history))))
     = 0.
Proof.
  intros history.
  assert (H : guardedRun Samples.decoder Samples.encoder initial history).
  { cbn. repeat split. intros k a Hl. discriminate. }
  split; [exact H|]. split; [reflexivity|].
  destruct (teardown_is_total_and_zeroing initial)
    as (_ & _ & _ & _ & _ & _ & _ & _ & _ & _ & _ & Hall).
  apply (Hall Samples.decoder Samples.encoder history H).
Defined.

(** *** C5 *)

(** C5, as stated, fails: [connect] suspends while the microphone is asked,
    with the Connect button still on the page.  When it is pressed again
    before the answer, the refs hold the contexts of the second call; the
    denial that then reaches the first call sets the error and tears down
    what the refs hold, and the two contexts that the first call created
    stay open. *)
Lemma overlapping_attempt_leaves_contexts_open :
  let waitingFor :=
    run Samples.decoder Samples.encoder initial
      [Begin Samples.persona true true] in
  let denied :=
    run Samples.decoder Samples.encoder waitingFor
      [Begin Samples.persona true true; Resume 0 false true] in
  LiveInterface.control (ui waitingFor) = LiveInterface.ConnectButton
  /\ contexts (world waitingFor)
     = [{| contextRate := 24000; closed := false |};
        {| contextRate := 16000; closed := false |}]
  /\ error (ui denied) = Some "Failed to initialize"%string
  /\ zeroed (ui denied) /\ unreferenced (refs denied)
  /\ contexts (world denied)
     = [{| contextRate := 24000; closed := false |};
        {| contextRate := 16000; closed := false |};
        {| contextRate := 24000; closed := true |};
        {| contextRate := 16000; closed := true |}]
  /\ openContexts (world denied) = 2.
Proof. vm_compute. repeat split. Qed.

Section Failure.
Variable decodeAudioData : string -> Z -> Z -> option AudioBuffer.
Variable createPcmBlob : list Q -> Blob.

(** What the [catch] block releases. *)
Lemma failed_releases s :
  let s' := final (failedToInitialize s) in
  transports (world s') = transports (world s)
  /\ streams (world s') =
       from_option (fun n => <[n := false]>) (fun l => l) (streamRef (refs s))
         (streams (world s))
  /\ timers (world s') =
       from_option (fun n => <[n := false]>) (fun l => l)
         (volumeIntervalRef (refs s)) (timers (world s)).
Proof.
  destruct (failedToInitialize_spec s) as (s' & -> & -> & _). cbn [final].
  destruct (cleanup_spec (setError (Some "Failed to initialize"%string) s))
    as (s' & -> & _ & _ & _ & _ & _ & _ & Htr & _ & _ & Hstr & Htim & _).
  cbn [final]. rewrite Htr, Hstr, Htim. destruct s as [? [] ?]. repeat split.
Qed.

(** C5, amended.  When the microphone is denied, or any other acquisition
    step of [connect] fails, the exception is caught: the error message is
    set, the flags are zeroed and every ref is cleared by the teardown, which
    releases what the refs hold by then.  When the microphone answers before
    any other callback runs, no audio context and no microphone stream
    created during the attempt is left running, no transport was opened and
    no timer armed; a context constructor that throws does so before
    [connect] suspends, so that case is always of this kind.  When callbacks
    run between the call and the answer, the same holds as long as none of
    them is another call of [connect]: the two contexts of the attempt are
    closed, by the failure or by a teardown before it. *)
Theorem failed_connect_tears_down s agent :
  (forall env,
     succeeds env = false ->
     exists s',
       connect agent env s = Normal tt s'
       /\ error (ui s') = Some "Failed to initialize"%string
       /\ zeroed (ui s')
       /\ unreferenced (refs s')
       /\ (forall n, length (contexts (world s)) <= n ->
                     contextReleased (world s') n)
       /\ (forall n, length (streams (world s)) <= n ->
                     streamReleased (world s') n)
       /\ transports (world s') = transports (world s)
       /\ armedTimers (world s') <= armedTimers (world s))
  /\ (forall outputOk inputOk micGranted clientOk,
        outputOk && inputOk = false ->
        connectBegin agent outputOk inputOk s
        = connect agent {| outputContextOk := outputOk;
                           inputContextOk := inputOk;
                           micGranted := micGranted;
                           clientOk := clientOk |} s)
  /\ (forall between micGranted clientOk,
        let k := length (attempts (world s)) in
        let waitingFor :=
          run decodeAudioData createPcmBlob
            (step decodeAudioData createPcmBlob s (Begin agent true true))
            between in
        Forall startsNoAttempt between ->
        Forall (fun e => forall m c, e <> Resume k m c) between ->
        micGranted && clientOk = false ->
        let s' := step decodeAudioData createPcmBlob waitingFor
                    (Resume k micGranted clientOk) in
        error (ui s') = Some "Failed to initialize"%string
        /\ zeroed (ui s')
        /\ unreferenced (refs s')
        /\ contextReleased (world s') (length (contexts (world s)))
        /\ contextReleased (world s') (S (length (contexts (world s))))
        /\ (forall n, length (streams (world waitingFor)) <= n ->
                      streamReleased (world s') n)
        /\ transports (world s') = transports (world waitingFor)
        /\ armedTimers (world s') <= armedTimers (world waitingFor)).
Proof.
  split; [|split].
  - intros env Hfail.
    destruct (connect_failure s agent env Hfail)
      as (s' & Hrun & Herr & Hui & Hrefs & Hctx & Hstr & Htr & Htim).
    exists s'. repeat (split; [assumption|]).
    unfold armedTimers. rewrite Htim.
    destruct (volumeIntervalRef (refs s)) as [n|]; cbn; [|lia].
    apply cancel_disarms.
  - intros outputOk inputOk micGranted clientOk H.
    apply connectBegin_failure, H.
  - intros between micGranted clientOk k waitingFor Hno Hne Hfail s'.
    set (P := fun n => n = length (contexts (world s))
                       \/ n = S (length (contexts (world s)))).
    destruct (connectBegin_granted s agent)
      as (s1 & Hbegin & _ & _ & _ & Hctx1 & _ & _ & _ & _ & Hat1
          & Hac1 & Hic1 & _).
    assert (Hs1 : step decodeAudioData createPcmBlob s (Begin agent true true)
                  = s1) by (unfold step; cbn [handler]; rewrite Hbegin;
                            reflexivity).
    assert (Hheld : contextsHeld P waitingFor).
    { unfold waitingFor. rewrite Hs1. apply run_contextsHeld; [exact Hno|].
      intros n c [-> | ->] _ _; [left|right]; assumption. }
    assert (Hwait : attempts (world waitingFor) !! k
                    = Some {| caller := agent; waiting := true |}).
    { unfold waitingFor. rewrite Hs1. apply run_waits; [exact Hno|exact Hne|].
      rewrite Hat1. unfold k.
      rewrite lookup_app_r by lia. rewrite Nat.sub_diag. reflexivity. }
    assert (Hend : exists mid,
      s' = final (failedToInitialize mid)
      /\ contextsHeld P mid
      /\ transports (world mid) = transports (world waitingFor)
      /\ volumeIntervalRef (refs mid) = volumeIntervalRef (refs waitingFor)
      /\ timers (world mid) = timers (world waitingFor)
      /\ ((streams (world mid) = streams (world waitingFor)
           /\ streamRef (refs mid) = streamRef (refs waitingFor))
          \/ (streams (world mid) = streams (world waitingFor) ++ [true]
              /\ streamRef (refs mid)
                 = Some (length (streams (world waitingFor)))))).
    { unfold s', step. cbn [handler].
      destruct micGranted; [destruct clientOk; [discriminate Hfail|]|].
      - rewrite (connectResume_client waitingFor k agent Hwait).
        eexists. split; [reflexivity|]. split; [exact Hheld|].
        repeat split. right. split; reflexivity.
      - rewrite (connectResume_denied waitingFor k agent clientOk Hwait).
        eexists. split; [reflexivity|]. split; [exact Hheld|].
        repeat split. left. split; reflexivity. }
    destruct Hend as (mid & -> & Hmid & Htr & Hvi & Htim & Hstreams).
    destruct (failedToInitialize_spec mid) as (s2 & Hrun & _ & Herr & Hui & Hrefs).
    pose proof (failed_contextsHeld P mid Hmid) as Hafter.
    destruct (failed_releases mid) as (Htr' & Hstr' & Htim').
    rewrite Hrun in *. cbn [final] in *.
    assert (Hclosed : forall n, P n -> contextReleased (world s2) n).
    { intros n Hn c Hl. destruct (closed c) eqn:E; [reflexivity|].
      destruct Hrefs as (_ & _ & _ & Hic & Hac & _).
      destruct (Hafter n c Hn Hl E); congruence. }
    split; [exact Herr|]. split; [exact Hui|]. split; [exact Hrefs|].
    split; [apply Hclosed; left; reflexivity|].
    split; [apply Hclosed; right; reflexivity|].
    split; [|split].
    + intros n Hn Hlive. rewrite Hstr' in Hlive.
      destruct Hstreams as [[Hsame Href]|[Hmore Href]].
      * rewrite Hsame in Hlive. apply stopOpt_lookup in Hlive as [_ Hlive].
        apply lookup_lt_Some in Hlive. lia.
      * rewrite Hmore, Href in Hlive. cbn in Hlive.
        apply list_lookup_insert_Some in Hlive as [(_ & ? & _)|(Hne' & Hlive)];
          [discriminate|].
        apply lookup_lt_Some in Hlive. rewrite length_app in Hlive.
        cbn in Hlive. lia.
    + rewrite Htr'. exact Htr.
    + unfold armedTimers. rewrite Htim', Hvi, Htim.
      destruct (volumeIntervalRef (refs waitingFor)) as [n|]; cbn; [|lia].
      apply cancel_disarms.
Qed.

End Failure.

(** The microphone is denied at once; and it is denied after Terminate has
    been pressed and a tick of no timer has come in between. *)
Lemma failed_connect_tears_down_witness :
  let between := [Disconnect; Tick 0 [] []] in
  succeeds micDenied = false
  /\ Forall startsNoAttempt between
  /\ Forall (fun e => forall m c, e <> Resume 0 m c) between
  /\ (exists s',
        connect Samples.persona micDenied initial = Normal tt s'
        /\ error (ui s') = Some "Failed to initialize"%string
        /\ openContexts (world s') = 0)
  /\ contextReleased
       (world
          (step Samples.decoder Samples.encoder
             (run Samples.decoder Samples.encoder
                (step Samples.decoder Samples.encoder initial
                   (Begin Samples.persona true true))
                between)
             (Resume 0 false true)))
       (length (contexts (world initial))).
Proof.
  intros between.
  assert (H : succeeds micDenied = false) by reflexivity.
  assert (H1 : Forall startsNoAttempt between) by (repeat constructor).
  assert (H2 : Forall (fun e => forall m c, e <> Resume 0 m c) between)
    by (repeat constructor; discriminate).
  split; [exact H|]. split; [exact H1|]. split; [exact H2|].
  destruct (failed_connect_tears_down Samples.decoder Samples.encoder
              initial Samples.persona) as (Hlone & _ & Hbetween).
  split.
  - destruct (Hlone micDenied H) as (s' & Hrun & Herr & _).
    exists s'. split; [exact Hrun|]. split; [exact Herr|].
    vm_compute in Hrun. injection Hrun as <-. reflexivity.
  - destruct (Hbetween between false true H1 H2 eq_refl)
      as (_ & _ & _ & Hclosed & _).
    exact Hclosed.
Defined.

(** *** C9 *)

Section ErrorSlot.
Variable decodeAudioData : string -> Z -> Z -> option AudioBuffer.
Variable createPcmBlob : list Q -> Blob.

Lemma settle_ui k ok s : ui (final (settle k ok s)) = ui s.
Proof.
  open_state s. unfold settle. run_monad. run_cases; reflexivity.
Qed.

Lemma onopen_error k s : error (ui (final (onopen k s))) = error (ui s).
Proof.
  open_state s. unfold onopen, createNode, connectNode, setConnected.
  run_monad. run_cases; reflexivity.
Qed.

Lemma onmessage_error agent now message s :
  error (ui (final (onmessage decodeAudioData agent now message s)))
  = error (ui s).
Proof.
  open_state s. unfold onmessage. run_monad.
  destruct (inlineAudio message) as [b64|], ac as [ctx|]; cbn;
    try destruct (JS.truthy_string b64); cbn;
    try destruct (decodeAudioData b64 24000%Z 1%Z); cbn;
    destruct (isInterrupted message), (isTurnComplete message); reflexivity.
Qed.

Lemma tick_error inputData outputData s :
  error (ui (final (tick inputData outputData s))) = error (ui s).
Proof. open_state s. reflexivity. Qed.

Lemma onaudioprocess_ui k frame s :
  ui (final (onaudioprocess createPcmBlob k frame s)) = ui s.
Proof.
  open_state s. unfold onaudioprocess, thenSend. run_monad.
  run_cases; reflexivity.
Qed.

Lemma onerror_error s :
  error (ui (final (onerror s))) = Some "Connection Error"%string.
Proof.
  unfold onerror, bind, modify.
  rewrite cleanup_error. destruct s as [? [] ?]. reflexivity.
Qed.

(** No callback but [connect] can empty the error slot. *)
Lemma step_keeps_error s e :
  (forall agent env, e <> Connect agent env) ->
  (forall agent outputOk inputOk, e <> Begin agent outputOk inputOk) ->
  error (ui (step decodeAudioData createPcmBlob s e)) = error (ui s)
  \/ error (ui (step decodeAudioData createPcmBlob s e))
     = Some "Connection Error"%string
  \/ error (ui (step decodeAudioData createPcmBlob s e))
     = Some "Failed to initialize"%string.
Proof.
  intros Hne Hnb. unfold step.
  destruct e as [agent env| | |k ok|k|k now message|k|k|t i o|n frame
                |agent outputOk inputOk|k micGranted clientOk];
    cbn [handler].
  - destruct (Hne agent env). reflexivity.
  - left. apply cleanup_error.
  - left. apply cleanup_error.
  - left. rewrite settle_ui. reflexivity.
  - left. destruct (transports (world s) !! k); [apply onopen_error|reflexivity].
  - left. destruct (transports (world s) !! k);
      [apply onmessage_error|reflexivity].
  - left. destruct (transports (world s) !! k);
      [apply cleanup_error|reflexivity].
  - destruct (transports (world s) !! k);
      [right; left; apply onerror_error|left; reflexivity].
  - left. destruct (timers (world s) !! t) as [[|]|];
      [apply tick_error|reflexivity|reflexivity].
  - left. destruct (nodes (world s) !! n) as [[[|k] [|]]|];
      try reflexivity. rewrite onaudioprocess_ui. reflexivity.
  - destruct (Hnb agent outputOk inputOk). reflexivity.
  - destruct (attempts (world s) !! k) as [[agent [|]]|] eqn:E;
      [|left; rewrite connectResume_idle;
         [reflexivity|intros ?; congruence]..].
    destruct micGranted; [destruct clientOk|].
    + left. destruct (connectResume_granted s k agent E) as (s' & -> & Hui & _).
      cbn [final]. rewrite Hui. reflexivity.
    + right. right. rewrite (connectResume_client s k agent E).
      destruct (failedToInitialize_spec
                  (set_streamRef (Some (length (streams (world s))))
                     (put_streams (streams (world s) ++ [true])
                        (answered k agent s)))) as (s' & -> & _ & H & _).
      exact H.
    + right. right. rewrite (connectResume_denied s k agent clientOk E).
      destruct (failedToInitialize_spec (answered k agent s))
        as (s' & -> & _ & H & _).
      exact H.
Qed.

(** C9.  [cleanup] (and so [disconnect]) leaves the error slot as it found
    it while it zeroes the other flags; the message set by a failed
    [connect] is therefore still there after the teardown that [connect] ran
    and after any further [disconnect]; among all the callbacks of the page
    only [connect] can turn a non-null error into null, and it does so at
    its start ([Connect], or [Begin] when other callbacks run before the
    microphone answers), not when the microphone answers: after a [connect]
    that goes through, and already when it is left waiting for the
    microphone, the slot is null whatever it held. *)
Theorem error_slot_outlives_teardown s :
  (error (ui (final (cleanup s))) = error (ui s)
   /\ zeroed (ui (final (cleanup s))))
  /\ (forall agent env,
        succeeds env = false ->
        let failed := final (connect agent env s) in
        error (ui failed) = Some "Failed to initialize"%string
        /\ error (ui (final (disconnect failed)))
           = Some "Failed to initialize"%string)
  /\ (forall e,
        (forall agent env, e <> Connect agent env) ->
        (forall agent outputOk inputOk, e <> Begin agent outputOk inputOk) ->
        is_Some (error (ui s)) ->
        is_Some (error (ui (step decodeAudioData createPcmBlob s e))))
  /\ (forall agent env,
        succeeds env = true ->
        error (ui (final (connect agent env s))) = None)
  /\ (forall agent,
        error (ui (step decodeAudioData createPcmBlob s
                     (Begin agent true true))) = None).
Proof.
  split; [|split; [|split; [|split]]].
  - destruct (cleanup_spec s) as (s' & -> & Hui & Herr & _). auto.
  - intros agent env Hfail.
    destruct (connect_failure s agent env Hfail) as (s' & -> & Herr & _).
    cbn. split; [exact Herr|].
    unfold disconnect. rewrite cleanup_error. exact Herr.
  - intros e Hne Hnb Hsome.
    destruct (step_keeps_error s e Hne Hnb) as [-> | [-> | ->]];
      [exact Hsome|eexists; reflexivity..].
  - intros agent env Hok. rewrite (succeeds_granted env Hok).
    destruct (connect_granted s agent) as (s' & -> & Herr & _). exact Herr.
  - intros agent. unfold step. cbn [handler].
    destruct (connectBegin_granted s agent) as (s' & -> & Herr & _).
    exact Herr.
Qed.

End ErrorSlot.

(** The microphone is denied on the first [connect]; Terminate is pressed
    afterwards. *)
Lemma error_slot_outlives_teardown_witness :
  succeeds micDenied = false
  /\ error
       (ui (final (disconnect
                     (final (connect Samples.persona micDenied initial)))))
     = Some "Failed to initialize"%string.
Proof.
  assert (H : succeeds micDenied = false) by reflexivity.
  split; [exact H|].
  destruct (error_slot_outlives_teardown Samples.decoder Samples.encoder
              initial) as (_ & Hfailed & _).
  apply (Hfailed Samples.persona micDenied H).
Defined.

End SessionProps.

(** ** The speaking flag *)
Module SpeakingProps.
Import Types LiveAgent.
Local Open Scope Q_scope.

(** C7, as stated, fails: the transport is not closed by [disconnect], so an
    event with an audio payload can still arrive on the terminated session;
    its handler finds no output context and leaves the speaking flag
    false. *)
Lemma audio_after_teardown_leaves_flag :
  let message := Samples.message (Some Samples.chunk) None None in
  inlineAudio message = Some Samples.chunk
  /\ is_Some (transports (world Samples.terminated) !! 0%nat)
  /\ audioContextRef (refs Samples.terminated) = None
  /\ isSpeaking
       (ui (step Samples.decoder Samples.encoder Samples.terminated
              (Message 0 1 message))) = false.
Proof. vm_compute. repeat split. eexists. reflexivity. Qed.

(** C7, amended.  An inbound event that carries a non-empty audio payload
    while the output audio context is held sets the speaking flag, which is
    then true when the handler ends unless the handler goes on to the
    turn-complete flag of the same event; with no output context held (after
    teardown) the payload is ignored and the flag keeps its value unless the
    event is turn-complete; an event with the turn-complete flag whose
    handler runs to its end leaves the flag false; and every telemetry tick
    publishes the output level (zero without an analyser) and sets the flag
    to whether that level exceeds 0.01, whatever the flag was and whatever
    the last event said. *)
Theorem speaking_flag_rules
    (decodeAudioData : string -> Z -> Z -> option AudioBuffer)
    agent now message s inputData outputData :
  let c := onmessage decodeAudioData agent now message s in
  let t := final (tick inputData outputData s) in
  (forall b64, inlineAudio message = Some b64 -> JS.truthy_string b64 = true ->
     is_Some (audioContextRef (refs s)) ->
     isSpeaking (ui (final c)) = negb (isTurnComplete message && negb (threw c)))
  /\ (audioContextRef (refs s) = None -> threw c = false /\
      isSpeaking (ui (final c)) =
        if isTurnComplete message then false else isSpeaking (ui s))
  /\ (isTurnComplete message = true -> threw c = false ->
      isSpeaking (ui (final c)) = false)
  /\ output (volumeLevels (ui t)) =
       match outputAnalyserRef (refs s) with
       | Some _ => level outputData
       | None => 0
       end
  /\ isSpeaking (ui t) = JS.gt (output (volumeLevels (ui t))) (1 # 100).
Proof.
  open_state s. cbn zeta. unfold onmessage. run_monad.
  cbn [refs audioContextRef].
  split; [|split; [|split; [|split]]].
  - intros b64 Hb Ht [ctx ->]. rewrite Hb, Ht. cbn.
    destruct (decodeAudioData b64 24000%Z 1%Z); cbn;
      destruct (isInterrupted message), (isTurnComplete message); reflexivity.
  - intros ->. destruct (inlineAudio message); cbn;
      destruct (isInterrupted message), (isTurnComplete message); auto.
  - intros Htc. rewrite Htc.
    destruct (inlineAudio message) as [b64|], ac as [ctx|]; cbn;
      try destruct (JS.truthy_string b64); cbn;
      try destruct (decodeAudioData b64 24000%Z 1%Z); cbn;
      destruct (isInterrupted message); cbn; auto; discriminate.
  - cbn. destruct oa; reflexivity.
  - cbn. destruct oa; reflexivity.
Qed.

(** On the opened session, a chunk sets the flag. *)
Lemma speaking_flag_rules_witness :
  let message := Samples.message (Some Samples.chunk) None None in
  inlineAudio message = Some Samples.chunk
  /\ JS.truthy_string Samples.chunk = true
  /\ is_Some (audioContextRef (refs Samples.opened))
  /\ isSpeaking
       (ui (final (onmessage Samples.decoder Samples.persona 0 message
                     Samples.opened))) = true.
Proof.
  intros message.
  assert (H1 : inlineAudio message = Some Samples.chunk) by reflexivity.
  assert (H2 : JS.truthy_string Samples.chunk = true) by reflexivity.
  assert (H3 : is_Some (audioContextRef (refs Samples.opened)))
    by (eexists; reflexivity).
  repeat (split; [assumption|]).
  destruct (speaking_flag_rules Samples.decoder Samples.persona 0 message
              Samples.opened [] []) as [H _].
  rewrite (H Samples.chunk H1 H2 H3). reflexivity.
Defined.

End SpeakingProps.

(** ** Outbound frames *)
Module CaptureProps.
Import Types LiveAgent SessionProps.

Section Capture.
Variable createPcmBlob : list Q -> Blob.

Lemma onaudioprocess_transport k frame s tr :
  transports (world s) !! k = Some tr ->
  transports (world (final (onaudioprocess createPcmBlob k frame s))) !! k =
    Some match promise tr with
         | Pending =>
             {| persona := persona tr; promise := Pending;
                reactions := reactions tr ++ [createPcmBlob frame];
                received := received tr |}
         | Fulfilled =>
             {| persona := persona tr; promise := Fulfilled;
                reactions := reactions tr;
                received := received tr ++ [createPcmBlob frame] |}
         | Rejected => tr
         end.
Proof.
  intros Htr. pose proof (lookup_lt_Some _ _ _ Htr) as Hlt.
  open_state s. cbn in Htr, Hlt. unfold onaudioprocess, thenSend. run_monad.
  cbn. rewrite Htr. destruct (promise tr); cbn;
    rewrite ?list_lookup_insert_eq by exact Hlt; auto.
Qed.

Lemma settle_transport k s tr :
  transports (world s) !! k = Some tr ->
  transports (world (final (settle k true s))) !! k =
    Some match promise tr with
         | Pending =>
             {| persona := persona tr; promise := Fulfilled;
                reactions := [];
                received := received tr ++ reactions tr |}
         | _ => tr
         end.
Proof.
  intros Htr. pose proof (lookup_lt_Some _ _ _ Htr) as Hlt.
  open_state s. cbn in Htr, Hlt. unfold settle. run_monad.
  cbn. rewrite Htr. destruct (promise tr); cbn;
    rewrite ?list_lookup_insert_eq by exact Hlt; auto.
Qed.


End Capture.

(** *** The condition on the promise holds in every session *)

Section Settled.
Variable decodeAudioData : string -> Z -> Z -> option AudioBuffer.
Variable createPcmBlob : list Q -> Blob.

Lemma settle_settledClean k ok s :
  settledClean s -> settledClean (final (settle k ok s)).
Proof.
  intros Hs. open_state s. unfold settledClean in *. cbn in Hs.
  unfold settle. run_monad. run_cases; try exact Hs.
  all: intros j tr' Hl Hp;
    apply list_lookup_insert_Some in Hl as [(_ & <- & _)|(_ & Hl)];
    [reflexivity|exact (Hs j tr' Hl Hp)].
Qed.

Lemma onaudioprocess_settledClean k frame s :
  settledClean s ->
  settledClean (final (onaudioprocess createPcmBlob k frame s)).
Proof.
  intros Hs. open_state s. unfold settledClean in *. cbn in Hs.
  unfold onaudioprocess, thenSend. run_monad. run_cases; try exact Hs.
  all: intros j tr' Hl Hp;
    apply list_lookup_insert_Some in Hl as [(-> & <- & _)|(_ & Hl)];
    [|exact (Hs j tr' Hl Hp)]; cbn in *; try congruence.
  match goal with
  | H : tx !! _ = Some ?t |- _ => apply (Hs _ _ H); congruence
  end.
Qed.

Lemma settledClean_same s s' :
  transports (world s') = transports (world s) ->
  settledClean s -> settledClean s'.
Proof. unfold settledClean. intros ->. auto. Qed.

Lemma onopen_transports k s :
  transports (world (final (onopen k s))) = transports (world s).
Proof.
  open_state s. unfold onopen, createNode, connectNode, setConnected.
  run_monad. run_cases; reflexivity.
Qed.

Lemma onmessage_transports agent now message s :
  transports (world (final (onmessage decodeAudioData agent now message s)))
  = transports (world s).
Proof.
  open_state s. unfold onmessage. run_monad.
  destruct (inlineAudio message) as [b64|], ac as [ctx|]; cbn;
    try destruct (JS.truthy_string b64); cbn;
    try destruct (decodeAudioData b64 24000%Z 1%Z); cbn;
    destruct (isInterrupted message), (isTurnComplete message); reflexivity.
Qed.

Lemma cleanup_transports s :
  transports (world (final (cleanup s))) = transports (world s).
Proof.
  destruct (cleanup_spec s) as (s' & -> & _ & _ & _ & _ & _ & _ & H & _).
  exact H.
Qed.

Lemma connect_settledClean agent env s :
  settledClean s -> settledClean (final (connect agent env s)).
Proof.
  intros Hs. destruct (succeeds env) eqn:Hok.
  - rewrite (succeeds_granted env Hok).
    destruct (connect_granted s agent)
      as (s' & -> & _ & _ & _ & _ & Htr & _). cbn.
    intros k tr Hl Hp. rewrite Htr in Hl.
    apply lookup_app_Some in Hl as [Hl|[_ Hl]]; [exact (Hs k tr Hl Hp)|].
    destruct (k - length (transports (world s)))%nat; [|discriminate].
    injection Hl as <-. reflexivity.
  - destruct (connect_failure s agent env Hok)
      as (s' & -> & _ & _ & _ & _ & _ & Htr & _).
    eapply settledClean_same; [exact Htr|exact Hs].
Qed.

Lemma step_settledClean s e :
  settledClean s -> settledClean (step decodeAudioData createPcmBlob s e).
Proof.
  intros Hs. unfold step.
  destruct e as [agent env| | |k ok|k|k now message|k|k|t i o|n frame
                |agent outputOk inputOk|k micGranted clientOk];
    cbn [handler].
  - apply connect_settledClean, Hs.
  - eapply settledClean_same; [apply cleanup_transports|exact Hs].
  - eapply settledClean_same; [apply cleanup_transports|exact Hs].
  - apply settle_settledClean, Hs.
  - destruct (transports (world s) !! k); [|exact Hs].
    eapply settledClean_same; [apply onopen_transports|exact Hs].
  - destruct (transports (world s) !! k); [|exact Hs].
    eapply settledClean_same; [apply onmessage_transports|exact Hs].
  - destruct (transports (world s) !! k); [|exact Hs].
    eapply settledClean_same; [apply cleanup_transports|exact Hs].
  - destruct (transports (world s) !! k); [|exact Hs].
    unfold onerror, bind, modify.
    eapply settledClean_same; [apply cleanup_transports|].
    destruct s as [? [] ?]. exact Hs.
  - destruct (timers (world s) !! t) as [[|]|]; exact Hs.
  - destruct (nodes (world s) !! n) as [[[|k] [|]]|]; try exact Hs.
    apply onaudioprocess_settledClean, Hs.
  - destruct (outputOk && inputOk) eqn:Hok.
    + apply andb_prop in Hok as [-> ->].
      destruct (connectBegin_granted s agent)
        as (s' & -> & _ & _ & _ & _ & _ & Htr & _).
      eapply settledClean_same; [exact Htr|exact Hs].
    + rewrite (connectBegin_failure s agent outputOk inputOk true true Hok).
      apply connect_settledClean, Hs.
  - destruct (attempts (world s) !! k) as [[agent [|]]|] eqn:E;
      [|rewrite connectResume_idle; [exact Hs|intros ?; congruence]..].
    destruct micGranted; [destruct clientOk|].
    + destruct (connectResume_granted s k agent E)
        as (s' & -> & _ & _ & _ & Htr & _). cbn.
      intros j tr Hl Hp. rewrite Htr in Hl.
      apply lookup_app_Some in Hl as [Hl|[_ Hl]]; [exact (Hs j tr Hl Hp)|].
      destruct (j - length (transports (world s)))%nat; [|discriminate].
      injection Hl as <-. destruct Hp. reflexivity.
    + rewrite (connectResume_client s k agent E).
      eapply settledClean_same; [apply failed_releases|].
      destruct s as [? ? []]. exact Hs.
    + rewrite (connectResume_denied s k agent clientOk E).
      eapply settledClean_same; [apply failed_releases|].
      destruct s as [? ? []]. exact Hs.
Qed.

(** In every session, however it came about, no reaction waits on a settled
    promise. *)
Lemma sessions_settle_clean history : forall s,
  settledClean s ->
  settledClean (run decodeAudioData createPcmBlob s history).
Proof.
  induction history as [|e history IH]; intros s Hs; [exact Hs|].
  cbn. apply IH, step_settledClean, Hs.
Qed.

Lemma initial_settledClean : settledClean initial.
Proof. intros k tr Hl. discriminate. Qed.

End Settled.


End CaptureProps.

(** ** The PCM framer *)
Module AudioProps.
Import LiveAgent Audio.
Local Open Scope Z_scope.

Lemma sextet_roundtrip i :
  0 <= i < 64 ->
  charSextet (sextetChar i) = Some i /\ Ascii.eqb (sextetChar i) pad = false.
Proof.
  intros Hi. rewrite <- (Z2Nat.id i) by lia.
  assert (Hn : (Z.to_nat i < 64)%nat) by lia.
  generalize dependent (Z.to_nat i). clear. intros n Hn.
  do 64 (destruct n as [|n]; [vm_compute; auto|]). lia.
Qed.

Ltac sextets :=
  repeat match goal with
  | |- context [charSextet (sextetChar ?i)] =>
      let H := fresh in
      assert (H : 0 <= i < 64)
        by (unfold isByte in *; Z.div_mod_to_equations; lia);
      destruct (sextet_roundtrip i H) as [-> ?]; clear H
  end.

(** [atob] undoes [btoa] on bytes. *)
Lemma atob_btoa n : forall bytes,
  (length bytes <= n)%nat -> Forall isByte bytes ->
  atob (btoa bytes) = Some bytes.
Proof.
  induction n as [|n IH]; intros bytes Hlen Hall.
  - destruct bytes; [reflexivity|cbn in Hlen; lia].
  - destruct bytes as [|a [|b [|c rest]]]; [reflexivity| | |].
    + inversion Hall as [|? ? Ha _]; subst. cbn [btoa atob].
      sextets. cbn. unfold isByte in *.
      f_equal. f_equal. Z.div_mod_to_equations. lia.
    + inversion Hall as [|? ? Ha Hall']; subst.
      inversion Hall' as [|? ? Hb _]; subst. cbn [btoa atob].
      sextets. cbn.
      assert (Hp : 0 <= b mod 16 * 4 < 64) by (Z.div_mod_to_equations; lia).
      destruct (sextet_roundtrip _ Hp) as [_ ->]. cbn.
      unfold isByte in *.
      f_equal. f_equal; [|f_equal]; Z.div_mod_to_equations; lia.
    + inversion Hall as [|? ? Ha Hall']; subst.
      inversion Hall' as [|? ? Hb Hall'']; subst.
      inversion Hall'' as [|? ? Hc Hrest]; subst. cbn [btoa atob].
      assert (Hp3 : 0 <= b mod 16 * 4 + c / 64 < 64)
        by (unfold isByte in *; Z.div_mod_to_equations; lia).
      assert (Hp4 : 0 <= c mod 64 < 64) by (Z.div_mod_to_equations; lia).
      destruct (sextet_roundtrip _ Hp3) as [_ E3].
      destruct (sextet_roundtrip _ Hp4) as [_ E4].
      sextets. cbn. rewrite E3. cbn. rewrite E4. cbn.
      rewrite IH by (cbn in Hlen; lia || assumption). cbn.
      unfold isByte in *.
      f_equal. f_equal; [|f_equal; [|f_equal]]; Z.div_mod_to_equations; lia.
Qed.

Lemma int16Bytes_bytes z : Forall isByte (int16Bytes z).
Proof.
  unfold int16Bytes, isByte. repeat constructor; Z.div_mod_to_equations; lia.
Qed.

Lemma int16s_roundtrip zs :
  Forall isInt16 zs -> int16sOfBytes (flat_map int16Bytes zs) = Some zs.
Proof.
  induction 1 as [|z zs Hz _ IH]; [reflexivity|].
  cbn [flat_map int16Bytes app int16sOfBytes]. rewrite IH. cbn.
  f_equal. f_equal. unfold isInt16 in Hz.
  destruct (Z.ltb_spec (z mod 65536 mod 256 + 256 * (z mod 65536 / 256)) 32768);
    Z.div_mod_to_equations; lia.
Qed.

Local Open Scope Q_scope.

(** Every rounding direction lands strictly within one unit. *)
Lemma round_within_one mode x :
  x - 1 < inject_Z (round mode x) /\ inject_Z (round mode x) < x + 1.
Proof.
  pose proof (Qfloor_le x) as H1. pose proof (Qlt_floor x) as H2.
  pose proof (Qle_ceiling x) as H3. pose proof (Qceiling_lt x) as H4.
  pose proof (Qfloor_le (x + (1 # 2))) as H5.
  pose proof (Qlt_floor (x + (1 # 2))) as H6.
  unfold Z.sub in H4. rewrite inject_Z_plus in H2, H4, H6.
  rewrite inject_Z_opp in H4.
  change (inject_Z 1) with 1 in *.
  destruct mode; cbn [round]; try lra.
  destruct x as [a b].
  change (Z.quot (Qnum (a # b)) (Z.pos (Qden (a # b))))
    with (Z.quot a (Z.pos b)).
  destruct (Z.le_gt_cases 0 a) as [Ha|Ha].
  - rewrite Z.quot_div_nonneg by lia.
    change (a / Z.pos b)%Z with (Qfloor (a # b)). lra.
  - replace (Z.quot a (Z.pos b)) with (Qceiling (a # b)); [lra|].
    unfold Qceiling, Qfloor. cbn.
    rewrite <- (Z.opp_involutive a) at 2. rewrite Z.quot_opp_l by lia.
    rewrite Z.quot_div_nonneg by lia. reflexivity.
Qed.

Lemma quantize_error mode x :
  -1 <= x <= 1 ->
  isInt16 (quantize mode x)
  /\ Qabs (x - inject_Z (quantize mode x) / 32768) <= 1 # 32768.
Proof.
  intros Hx. unfold quantize.
  destruct (round_within_one mode (x * 32768)) as [Hlo Hhi].
  set (r := round mode (x * 32768)) in *.
  assert (Hr : (-32768 <= r <= 32768)%Z).
  { assert (H1 : (-32769 < r)%Z)
      by (rewrite Zlt_Qlt; change (inject_Z (-32769)) with (-32769 # 1); lra).
    assert (H2 : (r < 32769)%Z)
      by (rewrite Zlt_Qlt; change (inject_Z 32769) with (32769 # 1); lra).
    lia. }
  split; [unfold isInt16, clampInt16; lia|].
  apply Qabs_Qle_condition. unfold Qdiv. change (/ 32768) with (1 # 32768).
  destruct (Z.eq_dec r 32768%Z) as [E|E].
  - rewrite E in *. change (clampInt16 32768%Z) with 32767%Z.
    change (inject_Z 32768) with (32768 # 1) in Hhi.
    change (inject_Z 32767) with (32767 # 1). split; lra.
  - replace (clampInt16 r) with r by (unfold clampInt16; lia).
    split; lra.
Qed.

(** C6.  Whichever way the quantizer rounds: a block of samples in [-1,1],
    encoded (each sample quantized to a clamped signed 16-bit integer, the
    integers laid out little-endian, the bytes base64-encoded), decodes again
    at any given rate, into a mono buffer at that rate with one sample per
    original sample, each within 1/32768 of the original. *)
Theorem pcm_round_trip mode samples rate :
  Forall (fun x => -1 <= x <= 1) samples ->
  exists base64 buf,
    data (createPcmBlob mode samples) = Some base64
    /\ decodeAudioData base64 (Z.pos rate) 1 = Some buf
    /\ sampleRate buf = rate
    /\ Forall2 (fun x y => Qabs (x - y) <= 1 # 32768)
         samples (channelData buf).
Proof.
  intros Hall. unfold createPcmBlob, decodeAudioData. cbn [data].
  eexists. eexists. split; [reflexivity|].
  assert (Hq : Forall isInt16 (map (quantize mode) samples)).
  { apply Forall_map. eapply Forall_impl; [exact Hall|].
    intros x Hx. apply quantize_error, Hx. }
  rewrite (atob_btoa
             (length (flat_map int16Bytes (map (quantize mode) samples))));
    [|reflexivity|].
  2:{ apply Forall_flat_map. apply Forall_forall.
      intros; apply int16Bytes_bytes. }
  cbn. rewrite (int16s_roundtrip _ Hq). cbn.
  split; [reflexivity|]. split; [reflexivity|].
  rewrite map_map. clear Hq. induction Hall as [|x l Hx _ IH]; constructor.
  - apply quantize_error, Hx.
  - exact IH.
Qed.

Lemma pcm_round_trip_witness :
  let samples := [0; 1; -1; 1 # 2; - (1 # 3)] in
  Forall (fun x => -1 <= x <= 1) samples
  /\ exists base64 buf,
       data (createPcmBlob TowardZero samples) = Some base64
       /\ decodeAudioData base64 16000 1 = Some buf
       /\ Forall2 (fun x y => Qabs (x - y) <= 1 # 32768)
            samples (channelData buf).
Proof.
  intros samples.
  assert (H : Forall (fun x => -1 <= x <= 1) samples)
    by (repeat constructor; discriminate).
  split; [exact H|].
  destruct (pcm_round_trip TowardZero samples 16000 H)
    as (base64 & buf & Hb & Hd & _ & Herr).
  exists base64, buf. repeat split; assumption.
Defined.

End AudioProps.

(** ** The project store *)
Module DbProps.
Import Types Db.

Section Sort.
Context {A : Type} (compareFn : A -> A -> Z).

Lemma insertSorted_perm x l :
  Permutation (insertSorted compareFn x l) (x :: l).
Proof.
  induction l as [|y l IH]; cbn; [reflexivity|].
  destruct (compareFn x y <=? 0)%Z; [reflexivity|].
  rewrite IH. apply perm_swap.
Qed.

Lemma sort_perm l : Permutation (sort compareFn l) l.
Proof.
  induction l as [|x l IH]; cbn; [reflexivity|].
  rewrite insertSorted_perm, IH. reflexivity.
Qed.

End Sort.

Lemma insert_newerFirst x l :
  StronglySorted newerFirst l ->
  StronglySorted newerFirst
    (insertSorted (fun a b => (updatedAt b - updatedAt a)%Z) x l).
Proof.
  induction 1 as [|y l Hs IH Hall]; cbn.
  - repeat constructor.
  - destruct (updatedAt y - updatedAt x <=? 0)%Z eqn:E.
    + apply Z.leb_le in E. constructor; [constructor; assumption|].
      constructor; [unfold newerFirst; lia|].
      eapply List.Forall_impl; [|exact Hall]. unfold newerFirst. intros; lia.
    + apply Z.leb_gt in E. constructor; [exact IH|].
      rewrite insertSorted_perm.
      constructor; [unfold newerFirst; lia|exact Hall].
Qed.

(** C10.  For every user id and every content of the store,
    [getProjectsByUser] returns the stored projects whose [userId] is the
    given id, each as often as it is stored and no other project, ordered by
    [updatedAt] from the most recently updated to the least. *)
Theorem projects_of_user_newest_first uid store :
  let projects := getProjectsByUser uid store in
  Permutation projects
    (List.filter (fun p => String.eqb (userId p) uid) store)
  /\ (forall p, In p projects <-> In p store /\ userId p = uid)
  /\ StronglySorted (fun a b => (updatedAt a >= updatedAt b)%Z) projects.
Proof.
  cbn zeta. unfold getProjectsByUser, getAll.
  set (mine := List.filter _ store).
  assert (Hperm : Permutation
                    (sort (fun a b => (updatedAt b - updatedAt a)%Z) mine) mine)
    by apply sort_perm.
  split; [exact Hperm|]. split.
  - intros p. split.
    + intros Hin. apply (Permutation_in _ Hperm) in Hin.
      apply List.filter_In in Hin as [? Heq]. apply String.eqb_eq in Heq. auto.
    + intros [Hin Heq]. apply (Permutation_in _ (Permutation_sym Hperm)).
      apply List.filter_In. split; [assumption|]. apply String.eqb_eq, Heq.
  - assert (Hs : StronglySorted newerFirst
                   (sort (fun a b => (updatedAt b - updatedAt a)%Z) mine)).
    { clear Hperm. induction mine as [|x l IH]; cbn; [constructor|].
      apply insert_newerFirst, IH. }
    clear Hperm. induction Hs as [|y l Hs IH Hall]; constructor; [exact IH|].
    eapply List.Forall_impl; [|exact Hall]. unfold newerFirst. intros; lia.
Qed.

End DbProps.

(* ===================================================================== *)
(** * Part III: further properties of the code                             *)
(* ===================================================================== *)

(** ** The link: what the callbacks of the hook do besides *)
Module LinkProps.
Import Types LiveAgent SessionProps CaptureProps.
Local Open Scope Q_scope.

Lemma switch_last b l nd :
  switchAt b (length l) (l ++ [nd]) = l ++ [{| kind := kind nd; connected := b |}].
Proof.
  unfold switchAt. rewrite <- (Nat.add_0_r (length l)), alter_app_r.
  reflexivity.
Qed.

Lemma switch_inner b l nd new :
  switchAt b (length l) ((l ++ [nd]) ++ new)
  = (l ++ [{| kind := kind nd; connected := b |}]) ++ new.
Proof.
  unfold switchAt. rewrite <- !app_assoc.
  rewrite <- (Nat.add_0_r (length l)), alter_app_r. reflexivity.
Qed.

(** X1.  [onopen] never throws and always shows the session as connected
    and listening.  When an input context and a microphone stream are held
    it creates exactly two nodes, a stream source and a processor bound to
    the transport that opened, leaves both connected and points the two
    refs at them; when either is missing (the session was torn down while
    the transport was connecting) it creates nothing and touches no ref:
    the page then shows a connected session that captures nothing. *)
Theorem onopen_wires_capture_only_when_held k s :
  let c := onopen k s in
  threw c = false
  /\ isConnected (ui (final c)) = true
  /\ isListening (ui (final c)) = true
  /\ (is_Some (inputContextRef (refs s)) -> is_Some (streamRef (refs s)) ->
      nodes (world (final c)) =
        nodes (world s) ++ [{| kind := MediaStreamSource; connected := true |};
                            {| kind := ScriptProcessor k; connected := true |}]
      /\ sourceRef (refs (final c)) = Some (length (nodes (world s)))
      /\ processorRef (refs (final c)) = Some (S (length (nodes (world s)))))
  /\ (inputContextRef (refs s) = None \/ streamRef (refs s) = None ->
      world (final c) = world s
      /\ refs (final c) = refs s
      /\ error (ui (final c)) = error (ui s)).
Proof.
  open_state s. cbn zeta.
  unfold onopen, createNode, connectNode, setConnected. run_monad.
  cbn [refs inputContextRef streamRef].
  destruct ic as [i|], st as [m|]; cbn -[switchAt];
    (split; [reflexivity|]); (split; [reflexivity|]); (split; [reflexivity|]);
    (split; [intros Hic Hst|intros Hnone]);
    try (destruct Hic; discriminate); try (destruct Hst; discriminate);
    try (destruct Hnone; discriminate); try (repeat split; fail).
  rewrite !switch_last, switch_inner, switch_last, length_app, <- app_assoc.
  cbn. repeat split. f_equal. lia.
Qed.

(** The transport opens on the connecting session, and on the terminated
    one. *)
Lemma onopen_wires_capture_only_when_held_witness :
  is_Some (inputContextRef (refs Samples.connecting))
  /\ is_Some (streamRef (refs Samples.connecting))
  /\ processorRef (refs (final (onopen 0 Samples.connecting))) = Some 1%nat
  /\ processorRef (refs (final (onopen 0 Samples.terminated))) = None.
Proof.
  assert (H1 : is_Some (inputContextRef (refs Samples.connecting)))
    by (eexists; reflexivity).
  assert (H2 : is_Some (streamRef (refs Samples.connecting)))
    by (eexists; reflexivity).
  split; [exact H1|]. split; [exact H2|].
  destruct (onopen_wires_capture_only_when_held 0 Samples.connecting)
    as (_ & _ & _ & Hheld & _).
  destruct (Hheld H1 H2) as (_ & _ & ->).
  split; reflexivity.
Defined.


Section Callbacks.
Variable decodeAudioData : string -> Z -> Z -> option AudioBuffer.
Variable createPcmBlob : list Q -> Blob.

Lemma connect_granted_speaking s agent :
  isSpeaking (ui (final (connect agent granted s))) = isSpeaking (ui s).
Proof. open_state s. vm_compute. reflexivity. Qed.

Lemma connect_flags s agent env :
  let s' := final (connect agent env s) in
  (isConnected (ui s') = true -> isConnected (ui s) = true)
  /\ (isSpeaking (ui s') = true -> isSpeaking (ui s) = true).
Proof.
  cbn zeta. destruct (succeeds env) eqn:Hok.
  - rewrite (succeeds_granted env Hok).
    rewrite connect_granted_speaking.
    destruct (connect_granted s agent) as (s' & Hrun & _ & Hcon & _).
    rewrite Hrun. cbn. rewrite Hcon. auto.
  - destruct (connect_failure s agent env Hok)
      as (s' & -> & _ & (H1 & _ & H3 & _) & _). cbn.
    rewrite H1, H3. split; discriminate.
Qed.

Lemma connectBegin_flags s agent outputOk inputOk :
  let s' := final (connectBegin agent outputOk inputOk s) in
  (isConnected (ui s') = true -> isConnected (ui s) = true)
  /\ (isSpeaking (ui s') = true -> isSpeaking (ui s) = true).
Proof.
  cbn zeta. destruct (outputOk && inputOk) eqn:Hok.
  - apply andb_prop in Hok as [-> ->].
    destruct (connectBegin_granted s agent) as (s' & -> & _ & Hcon & Hsp & _).
    cbn. rewrite Hcon, Hsp. auto.
  - rewrite (connectBegin_failure s agent outputOk inputOk true true Hok).
    apply connect_flags.
Qed.

Lemma connectResume_flags s k micGranted clientOk :
  let s' := final (connectResume k micGranted clientOk s) in
  (isConnected (ui s') = true -> isConnected (ui s) = true)
  /\ (isSpeaking (ui s') = true -> isSpeaking (ui s) = true).
Proof.
  cbn zeta.
  destruct (attempts (world s) !! k) as [[agent [|]]|] eqn:E;
    [|rewrite connectResume_idle; [auto|intros ?; congruence]..].
  destruct micGranted; [destruct clientOk|].
  - destruct (connectResume_granted s k agent E) as (s' & -> & Hui & _).
    cbn. rewrite Hui. auto.
  - rewrite (connectResume_client s k agent E).
    destruct (failedToInitialize_spec
                (set_streamRef (Some (length (streams (world s))))
                   (put_streams (streams (world s) ++ [true])
                      (answered k agent s))))
      as (s' & -> & _ & _ & (H1 & _ & H3 & _) & _).
    cbn. rewrite H1, H3. split; discriminate.
  - rewrite (connectResume_denied s k agent clientOk E).
    destruct (failedToInitialize_spec (answered k agent s))
      as (s' & -> & _ & _ & (H1 & _ & H3 & _) & _).
    cbn. rewrite H1, H3. split; discriminate.
Qed.

Lemma cleanup_flags s :
  isConnected (ui (final (cleanup s))) = false
  /\ isSpeaking (ui (final (cleanup s))) = false.
Proof.
  destruct (cleanup_spec s) as (s' & -> & (H1 & _ & H3 & _) & _). auto.
Qed.

Lemma onerror_flags s :
  isConnected (ui (final (onerror s))) = false
  /\ isSpeaking (ui (final (onerror s))) = false.
Proof. unfold onerror, bind, modify. apply cleanup_flags. Qed.

Lemma onopen_speaking k s :
  isSpeaking (ui (final (onopen k s))) = isSpeaking (ui s).
Proof.
  open_state s. unfold onopen, createNode, connectNode, setConnected.
  run_monad. run_cases; reflexivity.
Qed.

Lemma onmessage_flags agent now message s :
  let s' := final (onmessage decodeAudioData agent now message s) in
  isConnected (ui s') = isConnected (ui s)
  /\ (isSpeaking (ui s') = true ->
      isSpeaking (ui s) = true
      \/ (is_Some (inlineAudio message) /\ is_Some (audioContextRef (refs s)))).
Proof.
  open_state s. unfold onmessage. run_monad.
  destruct (inlineAudio message) as [b64|], ac as [ctx|]; cbn;
    try destruct (JS.truthy_string b64); cbn;
    try destruct (decodeAudioData b64 24000%Z 1%Z); cbn;
    destruct (isInterrupted message), (isTurnComplete message); cbn;
    (split; [reflexivity|]); intros H; try discriminate; auto;
    right; split; eexists; reflexivity.
Qed.

Lemma tick_connected inputData outputData s :
  isConnected (ui (final (tick inputData outputData s))) = isConnected (ui s).
Proof. open_state s. reflexivity. Qed.

(** X2.  Of all the callbacks of the page, only [onopen] of an existing
    transport can turn the connected flag on, and only an inbound message
    with an audio payload on a held output context, or a tick of an armed
    timer, can turn the speaking flag on; [connect] itself raises neither. *)
Theorem flags_are_raised_by_their_own_events s e :
  let s' := step decodeAudioData createPcmBlob s e in
  (isConnected (ui s) = false -> isConnected (ui s') = true ->
     exists k, e = Open k /\ is_Some (transports (world s) !! k))
  /\ (isSpeaking (ui s) = false -> isSpeaking (ui s') = true ->
      (exists k now message,
         e = Message k now message /\ is_Some (transports (world s) !! k)
         /\ is_Some (inlineAudio message)
         /\ is_Some (audioContextRef (refs s)))
      \/ (exists t inputData outputData,
            e = Tick t inputData outputData
            /\ timers (world s) !! t = Some true)).
Proof.
  cbn zeta. unfold step.
  destruct e as [agent env| | |k ok|k|k now message|k|k|t i o|n frame
                |agent outputOk inputOk|k micGranted clientOk];
    cbn [handler].
  - destruct (connect_flags s agent env) as [H1 H2].
    split; intros Hoff Hon; [apply H1 in Hon|apply H2 in Hon]; congruence.
  - destruct (cleanup_flags s) as [H1 H2]. unfold disconnect.
    split; intros _ Hon; congruence.
  - destruct (cleanup_flags s) as [H1 H2]. split; intros _ Hon; congruence.
  - rewrite settle_ui. split; intros; congruence.
  - destruct (transports (world s) !! k) as [tr|] eqn:Htr;
      [|split; intros; cbn in *; congruence].
    split; [intros _ _; exists k; split; [reflexivity|eauto]|].
    rewrite onopen_speaking. intros; congruence.
  - destruct (transports (world s) !! k) as [tr|] eqn:Htr;
      [|split; intros; cbn in *; congruence].
    destruct (onmessage_flags (persona tr) now message s) as [H1 H2].
    split; [intros; congruence|]. intros Hoff Hon.
    destruct (H2 Hon) as [?|[Ha Hc]]; [congruence|].
    left. exists k, now, message. rewrite Htr. eauto 6.
  - destruct (transports (world s) !! k) as [tr|];
      [|split; intros; cbn in *; congruence].
    destruct (cleanup_flags s) as [H1 H2]. unfold onclose.
    split; intros _ Hon; congruence.
  - destruct (transports (world s) !! k) as [tr|];
      [|split; intros; cbn in *; congruence].
    destruct (onerror_flags s) as [H1 H2]. split; intros _ Hon; congruence.
  - destruct (timers (world s) !! t) as [[|]|] eqn:Ht;
      try (split; intros; cbn in *; congruence).
    rewrite tick_connected. split; [intros; congruence|].
    intros _ _. right. exists t, i, o. auto.
  - destruct (nodes (world s) !! n) as [[[|k] [|]]|];
      try (split; intros; cbn in *; congruence).
    rewrite onaudioprocess_ui. split; intros; congruence.
  - destruct (connectBegin_flags s agent outputOk inputOk) as [H1 H2].
    split; intros Hoff Hon; [apply H1 in Hon|apply H2 in Hon]; congruence.
  - destruct (connectResume_flags s k micGranted clientOk) as [H1 H2].
    split; intros Hoff Hon; [apply H1 in Hon|apply H2 in Hon]; congruence.
Qed.

(** X3.  When the payload of a message does not decode, [onmessage] throws
    at the [await]: no source is started, the speaking flag stays on, the
    timeline stays at the later of its old value and the clock, and the
    interruption and turn-complete flags of that message are not acted
    upon. *)
Theorem undecodable_chunk_aborts_handler agent now message s b64 :
  inlineAudio message = Some b64 ->
  JS.truthy_string b64 = true ->
  decodeAudioData b64 24000%Z 1%Z = None ->
  is_Some (audioContextRef (refs s)) ->
  let c := onmessage decodeAudioData agent now message s in
  threw c = true
  /\ started (world (final c)) = started (world s)
  /\ isSpeaking (ui (final c)) = true
  /\ nextStartTimeRef (refs (final c)) = Qmax (nextStartTimeRef (refs s)) now.
Proof.
  intros Hb Ht Hd [ctx Hctx]. open_state s. cbn in Hctx. subst ac.
  unfold onmessage. run_monad. cbn. rewrite Hb, Ht. cbn. rewrite Hd. cbn.
  repeat split.
Qed.

End Callbacks.

(** The handshake of the connecting session completes. *)
Lemma flags_are_raised_by_their_own_events_witness :
  isConnected (ui Samples.connecting) = false
  /\ isConnected
       (ui (step Samples.decoder Samples.encoder Samples.connecting (Open 0)))
     = true
  /\ exists k, Open 0 = Open k
       /\ is_Some (transports (world Samples.connecting) !! k).
Proof.
  assert (H1 : isConnected (ui Samples.connecting) = false) by reflexivity.
  assert (H2 : isConnected
                 (ui (step Samples.decoder Samples.encoder Samples.connecting
                        (Open 0))) = true) by reflexivity.
  split; [exact H1|]. split; [exact H2|].
  exact (proj1 (flags_are_raised_by_their_own_events Samples.decoder
                  Samples.encoder Samples.connecting (Open 0)) H1 H2).
Defined.

(** A payload cut one character short, flagged interrupted and
    turn-complete, on the opened session. *)
Lemma undecodable_chunk_aborts_handler_witness :
  let message := Samples.message (Some "AAD/fwC"%string) (Some true) (Some true) in
  inlineAudio message = Some "AAD/fwC"%string
  /\ Samples.decoder "AAD/fwC"%string 24000%Z 1%Z = None
  /\ threw (onmessage Samples.decoder Samples.persona (1 # 10) message
              Samples.opened) = true
  /\ nextStartTimeRef
       (refs (final (onmessage Samples.decoder Samples.persona (1 # 10) message
                       Samples.opened))) == 1 # 10.
Proof.
  intros message.
  assert (H1 : inlineAudio message = Some "AAD/fwC"%string) by reflexivity.
  assert (H2 : JS.truthy_string "AAD/fwC" = true) by reflexivity.
  assert (H3 : Samples.decoder "AAD/fwC"%string 24000%Z 1%Z = None)
    by reflexivity.
  assert (H4 : is_Some (audioContextRef (refs Samples.opened)))
    by (eexists; reflexivity).
  split; [exact H1|]. split; [exact H3|].
  destruct (undecodable_chunk_aborts_handler Samples.decoder Samples.persona
              (1 # 10) message Samples.opened _ H1 H2 H3 H4)
    as (Hthrew & _ & _ & Hnext).
  split; [exact Hthrew|]. rewrite Hnext. reflexivity.
Defined.


Lemma sum_bytes data : forall a,
  Forall Audio.isByte data ->
  (a <= fold_left Z.add data a <= a + 255 * Z.of_nat (length data))%Z.
Proof.
  induction data as [|b data IH]; intros a Hall; cbn [fold_left length].
  - lia.
  - apply Forall_cons in Hall as [Hb Hall]. unfold Audio.isByte in Hb.
    specialize (IH (a + b)%Z Hall). lia.
Qed.

Lemma level_fraction data :
  Forall Audio.isByte data -> data <> [] -> 0 <= level data <= 1.
Proof.
  intros Hall Hne. unfold level.
  pose proof (sum_bytes data 0%Z Hall) as [Hlo Hhi].
  assert (Hlen : (0 < Z.of_nat (length data))%Z)
    by (destruct data; [congruence|cbn; lia]).
  set (total := fold_left Z.add data 0%Z) in *.
  set (n := Z.of_nat (length data)) in *.
  assert (Hn : 0 < inject_Z n)
    by (change 0 with (inject_Z 0); rewrite <- Zlt_Qlt; exact Hlen).
  split.
  - apply Qle_shift_div_l; [reflexivity|]. apply Qle_shift_div_l; [exact Hn|].
    rewrite !Qmult_0_l. change 0 with (inject_Z 0).
    rewrite <- Zle_Qle. exact Hlo.
  - apply Qle_shift_div_r; [reflexivity|]. apply Qle_shift_div_r; [exact Hn|].
    rewrite Qmult_1_l. change 255 with (inject_Z 255).
    rewrite <- inject_Z_mult, <- Zle_Qle. lia.
Qed.

(** X4.  The two levels that a tick publishes lie between 0 and 1, whatever
    bytes the analysers report and whether or not an analyser is there. *)
Theorem telemetry_levels_are_fractions inputData outputData s :
  Forall Audio.isByte inputData -> inputData <> [] ->
  Forall Audio.isByte outputData -> outputData <> [] ->
  let u := ui (final (tick inputData outputData s)) in
  0 <= input (volumeLevels u) <= 1 /\ 0 <= output (volumeLevels u) <= 1.
Proof.
  intros Hi Hin Ho Hon. open_state s. cbn.
  destruct ia, oa; cbn; split;
    try (apply level_fraction; assumption); split; discriminate.
Qed.

Lemma telemetry_levels_are_fractions_witness :
  Forall Audio.isByte [0; 128; 255]%Z /\ [0; 128; 255]%Z <> []
  /\ output
       (volumeLevels
          (ui (final (tick [0; 128; 255]%Z [0; 128; 255]%Z Samples.opened))))
     <= 1.
Proof.
  assert (H1 : Forall Audio.isByte [0; 128; 255]%Z)
    by (repeat constructor; unfold Audio.isByte; lia).
  assert (H2 : [0; 128; 255]%Z <> []) by discriminate.
  split; [exact H1|]. split; [exact H2|].
  exact (proj2 (proj2 (telemetry_levels_are_fractions _ _ Samples.opened
                         H1 H2 H1 H2))).
Defined.

(** X5.  [onclose] and [onerror] do not look at the transport they belong
    to: when either is called for any transport that exists, be it the one
    of an earlier session, the session the refs hold now is torn down (flags
    zeroed, refs cleared, its contexts closed, its stream stopped, its timer
    cancelled), and [onerror] leaves its message in the error slot. *)
Theorem late_callback_tears_down_current_session
    (decodeAudioData : string -> Z -> Z -> option AudioBuffer)
    (createPcmBlob : list Q -> Blob) s k (failed : bool) :
  is_Some (transports (world s) !! k) ->
  let s' := step decodeAudioData createPcmBlob s
              (if failed then Error k else Close k) in
  zeroed (ui s') /\ unreferenced (refs s')
  /\ (forall n, inputContextRef (refs s) = Some n \/
                audioContextRef (refs s) = Some n ->
                contextReleased (world s') n)
  /\ (forall n, streamRef (refs s) = Some n -> streamReleased (world s') n)
  /\ (forall n, volumeIntervalRef (refs s) = Some n ->
                timerReleased (world s') n)
  /\ error (ui s') =
       if failed then Some "Connection Error"%string else error (ui s).
Proof.
  intros [tr Htr]. cbn zeta. unfold step.
  assert (Hclean : forall s0,
    refs s0 = refs s -> world s0 = world s ->
    let s' := final (cleanup s0) in
    zeroed (ui s') /\ unreferenced (refs s')
    /\ (forall n, inputContextRef (refs s) = Some n \/
                  audioContextRef (refs s) = Some n ->
                  contextReleased (world s') n)
    /\ (forall n, streamRef (refs s) = Some n -> streamReleased (world s') n)
    /\ (forall n, volumeIntervalRef (refs s) = Some n ->
                  timerReleased (world s') n)
    /\ error (ui s') = error (ui s0)).
  { intros s0 Hr Hw.
    destruct (cleanup_spec s0) as (s' & -> & Hui & Herr & Hrefs & _ & _ & _ & _
                                   & _ & Hctx & Hstr & Htim & _).
    cbn. rewrite Hr, Hw in *.
    split; [exact Hui|]. split; [exact Hrefs|].
    split; [|split; [|split]].
    - intros n Hn c Hc. rewrite Hctx in Hc.
      apply closeOpt_lookup in Hc as [?|[Hout Hc]]; [assumption|].
      apply closeOpt_lookup in Hc as [?|[Hin Hc]]; [assumption|].
      destruct Hn; congruence.
    - intros n Hn Hlive. rewrite Hstr in Hlive.
      apply stopOpt_lookup in Hlive as [Hne _]. congruence.
    - intros n Hn Harmed. rewrite Htim in Harmed.
      apply stopOpt_lookup in Harmed as [Hne _]. congruence.
    - exact Herr. }
  destruct failed; cbn [handler]; rewrite Htr.
  - unfold onerror, bind, modify.
    destruct (Hclean (setError (Some "Connection Error"%string) s))
      as (H1 & H2 & H3 & H4 & H5 & H6);
      [destruct s as [? [] ?]; reflexivity..|].
    repeat (split; [assumption|]). rewrite H6.
    destruct s as [? [] ?]. reflexivity.
  - unfold onclose. apply (Hclean s); reflexivity.
Qed.

(** The transport of the first session closes after the page has
    reconnected. *)
Lemma late_callback_tears_down_current_session_witness :
  guardedRun Samples.decoder Samples.encoder initial
    [Connect Samples.persona granted; Disconnect;
     Connect Samples.persona granted]
  /\ is_Some (transports (world Scenes.reconnected) !! 0%nat)
  /\ sessionRef (refs Scenes.reconnected) = Some 1%nat
  /\ openContexts (world Scenes.reconnected) = 2%nat
  /\ unreferenced
       (refs (step Samples.decoder Samples.encoder Scenes.reconnected
                (Close 0))).
Proof.
  assert (H1 : is_Some (transports (world Scenes.reconnected) !! 0%nat))
    by (eexists; reflexivity).
  split; [cbn; repeat split; intros k a H; discriminate H|].
  split; [exact H1|].
  split; [reflexivity|]. split; [reflexivity|].
  exact (proj1 (proj2 (late_callback_tears_down_current_session
                         Samples.decoder Samples.encoder Scenes.reconnected
                         0%nat false H1))).
Defined.

Section Capture.
Variable decodeAudioData : string -> Z -> Z -> option AudioBuffer.
Variable createPcmBlob : list Q -> Blob.

(** X6.  [disconnect] does not cancel what waits on the session promise:
    when the handshake of a transport completes after the teardown, the
    frames captured before it are handed to that transport all the same, in
    the order they were captured. *)
Theorem queued_frames_are_sent_after_teardown s k tr :
  transports (world s) !! k = Some tr ->
  promise tr = Pending ->
  let s' := run decodeAudioData createPcmBlob s [Disconnect; Settle k true] in
  unreferenced (refs s')
  /\ exists tr', transports (world s') !! k = Some tr'
       /\ promise tr' = Fulfilled
       /\ received tr' = received tr ++ reactions tr.
Proof.
  intros Htr Hp. cbn. unfold step. cbn [handler]. unfold disconnect.
  destruct (cleanup_spec s) as (s1 & Hrun & _ & _ & Hrefs & _ & _ & _ & Htx & _).
  rewrite Hrun. cbn [final].
  assert (Htr1 : transports (world s1) !! k = Some tr) by (rewrite Htx; exact Htr).
  pose proof (settle_transport k s1 tr Htr1) as Hset. rewrite Hp in Hset.
  split.
  - clear - Hrefs. open_state s1. unfold settle. run_monad.
    cbn in *. run_cases; exact Hrefs.
  - eexists. split; [exact Hset|]. split; reflexivity.
Qed.

Lemma settle_rejected k s tr :
  transports (world s) !! k = Some tr -> promise tr = Pending ->
  transports (world (final (settle k false s))) !! k =
    Some {| persona := persona tr; promise := Rejected;
            reactions := []; received := received tr |}.
Proof.
  intros Htr Hp. pose proof (lookup_lt_Some _ _ _ Htr) as Hlt.
  open_state s. cbn in Htr, Hlt. unfold settle. run_monad.
  cbn. rewrite Htr, Hp. cbn. rewrite list_lookup_insert_eq by exact Hlt.
  reflexivity.
Qed.

Lemma outbound_rejected events : forall s k tr,
  transports (world s) !! k = Some tr -> promise tr = Rejected ->
  transports (world (outbound createPcmBlob k s events)) !! k = Some tr.
Proof.
  induction events as [|e events IH]; intros s k tr Htr Hp; [exact Htr|].
  destruct e as [frame|]; cbn [outbound fold_left]; apply IH; try exact Hp.
  - rewrite (onaudioprocess_transport createPcmBlob k frame s tr Htr), Hp.
    reflexivity.
  - rewrite (settle_transport k s tr Htr), Hp. reflexivity.
Qed.

(** X7.  When the handshake of a transport fails, the hook shows nothing and
    keeps its refs; the frames that waited on the promise are dropped, and
    no frame captured afterwards reaches that transport. *)
Theorem rejected_handshake_drops_frames events s k tr :
  transports (world s) !! k = Some tr ->
  promise tr = Pending ->
  let s1 := final (settle k false s) in
  ui s1 = ui s /\ refs s1 = refs s
  /\ exists tr',
       transports (world (outbound createPcmBlob k s1 events)) !! k = Some tr'
       /\ promise tr' = Rejected
       /\ received tr' = received tr
       /\ reactions tr' = [].
Proof.
  intros Htr Hp. cbn zeta. split; [apply settle_ui|]. split.
  - clear. open_state s. unfold settle. run_monad. run_cases; reflexivity.
  - exists {| persona := persona tr; promise := Rejected;
              reactions := []; received := received tr |}.
    split; [|repeat split].
    apply outbound_rejected;
      [apply (settle_rejected k s tr Htr Hp)|reflexivity].
Qed.

End Capture.

(** Two frames wait; Terminate is pressed; the handshake completes. *)
Lemma queued_frames_are_sent_after_teardown_witness :
  (exists tr, transports (world Scenes.capturing) !! 0%nat = Some tr
              /\ promise tr = Pending /\ length (reactions tr) = 2%nat
              /\ received tr = [])
  /\ exists tr',
       transports
         (world (run Samples.decoder Samples.encoder Scenes.capturing
                   [Disconnect; Settle 0 true])) !! 0%nat = Some tr'
       /\ length (received tr') = 2%nat.
Proof.
  split; [eexists; repeat split; reflexivity|].
  destruct (queued_frames_are_sent_after_teardown Samples.decoder
              Samples.encoder Scenes.capturing 0%nat _ eq_refl eq_refl)
    as (_ & tr' & Hl & _ & Hr).
  exists tr'. split; [exact Hl|]. rewrite Hr. reflexivity.
Defined.

(** Two frames wait; the handshake fails; two more are captured. *)
Lemma rejected_handshake_drops_frames_witness :
  (exists tr, transports (world Scenes.capturing) !! 0%nat = Some tr
              /\ promise tr = Pending /\ length (reactions tr) = 2%nat)
  /\ exists tr',
       transports
         (world (outbound Samples.encoder 0
                   (final (settle 0 false Scenes.capturing))
                   [Captured [1 # 2]; Handshake; Captured [1 # 3]])) !! 0%nat
       = Some tr'
       /\ received tr' = [].
Proof.
  split; [eexists; repeat split; reflexivity|].
  destruct (rejected_handshake_drops_frames Samples.encoder
              [Captured [1 # 2]; Handshake; Captured [1 # 3]]
              Scenes.capturing 0%nat _ eq_refl eq_refl)
    as (_ & _ & tr' & Hl & _ & Hr & _).
  exists tr'. split; [exact Hl|]. rewrite Hr. reflexivity.
Defined.


End LinkProps.

(** ** The object stores *)
Module StoreProps.
Import ObjectStore.

Lemma ascii_compare_trans a b c :
  Ascii.compare a b = Lt -> Ascii.compare b c = Lt -> Ascii.compare a c = Lt.
Proof.
  unfold Ascii.compare. rewrite !N.compare_lt_iff. apply N.lt_trans.
Qed.

Lemma ascii_compare_refl a : Ascii.compare a a = Eq.
Proof. unfold Ascii.compare. apply N.compare_refl. Qed.

Lemma compare_trans : forall a b c,
  (a ?= b)%string = Lt -> (b ?= c)%string = Lt -> (a ?= c)%string = Lt.
Proof.
  induction a as [|x a IH]; intros [|y b] [|z c]; cbn; try congruence.
  destruct (Ascii.compare x y) eqn:Hxy; try discriminate;
    destruct (Ascii.compare y z) eqn:Hyz; try discriminate; intros H1 H2.
  - apply Ascii.compare_eq_iff in Hxy, Hyz. subst.
    rewrite ascii_compare_refl. eauto.
  - apply Ascii.compare_eq_iff in Hxy. subst. rewrite Hyz. reflexivity.
  - apply Ascii.compare_eq_iff in Hyz. subst. rewrite Hxy. reflexivity.
  - rewrite (ascii_compare_trans _ _ _ Hxy Hyz). reflexivity.
Qed.

Lemma compare_refl a : (a ?= a)%string = Eq.
Proof.
  induction a as [|x a IH]; cbn; [reflexivity|].
  rewrite ascii_compare_refl. exact IH.
Qed.

Lemma compare_Lt_neq a b : (a ?= b)%string = Lt -> a <> b.
Proof. intros H ->. rewrite compare_refl in H. discriminate. Qed.

Lemma compare_Gt_Lt a b : (a ?= b)%string = Gt -> (b ?= a)%string = Lt.
Proof. intros H. rewrite String.compare_antisym, H. reflexivity. Qed.

Section Store.
Context {R : Type} (key : R -> string).

Lemma before_all r q store :
  before key r q -> Forall (before key q) store -> Forall (before key r) store.
Proof.
  intros Hrq. apply List.Forall_impl. intros x. apply compare_trans, Hrq.
Qed.

(** What a store holds after [put]. *)
Lemma put_In r store : keyOrdered key store ->
  forall q, In q (put key r store) <-> q = r \/ (In q store /\ key q <> key r).
Proof.
  induction 1 as [|p store Hs IH Hall]; intros q; cbn.
  - intuition.
  - destruct (key r ?= key p)%string eqn:E.
    + apply String.compare_eq_iff in E. cbn. split.
      * intros [<-|Hin]; [auto|]. right. split; [auto|].
        rewrite List.Forall_forall in Hall. specialize (Hall q Hin).
        rewrite E. intros Heq. apply compare_Lt_neq in Hall. congruence.
      * intros [->|[[<-|Hin] Hne]]; [auto|congruence|auto].
    + cbn. split.
      * intros [<-|[<-|Hin]]; [auto| |].
        -- right. split; [auto|]. apply compare_Lt_neq in E. congruence.
        -- right. split; [auto|].
           pose proof (before_all r p store E Hall) as Hr.
           rewrite List.Forall_forall in Hr. specialize (Hr q Hin).
           apply compare_Lt_neq in Hr. congruence.
      * intros [->|[[<-|Hin] Hne]]; auto.
    + cbn. rewrite IH. split.
      * intros [<-|[->|[Hin Hne]]]; [|auto|auto].
        right. split; [auto|]. apply compare_Gt_Lt, compare_Lt_neq in E.
        congruence.
      * intros [->|[[<-|Hin] Hne]]; auto.
Qed.

Lemma put_ordered r store :
  keyOrdered key store -> keyOrdered key (put key r store).
Proof.
  induction 1 as [|p store Hs IH Hall]; cbn.
  - repeat constructor.
  - destruct (key r ?= key p)%string eqn:E.
    + apply String.compare_eq_iff in E. constructor; [exact Hs|].
      unfold before in *. rewrite E. exact Hall.
    + constructor; [constructor; assumption|].
      constructor; [exact E|]. exact (before_all r p store E Hall).
    + constructor; [exact IH|].
      apply List.Forall_forall. intros q Hq.
      apply (put_In r store Hs) in Hq as [->|[Hq _]].
      * apply compare_Gt_Lt, E.
      * rewrite List.Forall_forall in Hall. auto.
Qed.

Lemma filter_ordered (P : R -> bool) store :
  keyOrdered key store -> keyOrdered key (List.filter P store).
Proof.
  induction 1 as [|p store Hs IH Hall]; cbn; [constructor|].
  destruct (P p); [|exact IH].
  constructor; [exact IH|].
  apply List.Forall_forall. intros q Hq. apply List.filter_In in Hq as [Hq _].
  rewrite List.Forall_forall in Hall. auto.
Qed.

Lemma delete_ordered k store :
  keyOrdered key store -> keyOrdered key (delete key k store).
Proof. apply filter_ordered. Qed.

Lemma put_In_self r store : In r (put key r store).
Proof.
  induction store as [|p store IH]; cbn; [auto|].
  destruct (key r ?= key p)%string; cbn; auto.
Qed.

Lemma put_subset r store q : In q (put key r store) -> q = r \/ In q store.
Proof.
  induction store as [|p store IH]; cbn; [intuition|].
  destruct (key r ?= key p)%string; cbn; intuition.
Qed.

Lemma delete_In k store q :
  In q (delete key k store) <-> In q store /\ key q <> k.
Proof.
  unfold delete. rewrite List.filter_In, Bool.negb_true_iff, String.eqb_neq.
  reflexivity.
Qed.

Lemma delete_missing k store :
  (forall q, In q store -> key q <> k) -> delete key k store = store.
Proof.
  intros Hno. unfold delete. induction store as [|p store IH]; cbn; [reflexivity|].
  rewrite (proj2 (String.eqb_neq (key p) k)) by (apply Hno; left; reflexivity).
  cbn. f_equal. apply IH. intros q Hq. apply Hno. right. exact Hq.
Qed.

Lemma delete_put r store :
  delete key (key r) (put key r store) = delete key (key r) store.
Proof.
  unfold delete. induction store as [|p store IH]; cbn.
  - rewrite String.eqb_refl. reflexivity.
  - destruct (key r ?= key p)%string eqn:E; cbn.
    + apply String.compare_eq_iff in E. rewrite <- E, String.eqb_refl.
      reflexivity.
    + rewrite String.eqb_refl. reflexivity.
    + rewrite IH. reflexivity.
Qed.

(** In a store in key order a key names one record. *)
Lemma ordered_key_inj store : keyOrdered key store ->
  forall a b, In a store -> In b store -> key a = key b -> a = b.
Proof.
  induction 1 as [|p store Hs IH Hall]; intros a b Ha Hb Heq; [destruct Ha|].
  rewrite List.Forall_forall in Hall.
  destruct Ha as [<-|Ha], Hb as [<-|Hb]; auto.
  - specialize (Hall b Hb). apply compare_Lt_neq in Hall. congruence.
  - specialize (Hall a Ha). apply compare_Lt_neq in Hall. congruence.
Qed.

Lemma ordered_NoDup store :
  keyOrdered key store -> List.NoDup (map key store).
Proof.
  induction 1 as [|p store Hs IH Hall]; cbn; constructor; [|exact IH].
  rewrite List.Forall_forall in Hall. intros Hin.
  apply List.in_map_iff in Hin as (q & Heq & Hq).
  specialize (Hall q Hq). apply compare_Lt_neq in Hall. congruence.
Qed.

End Store.
End StoreProps.

(** ** utils/db.ts *)
Module DatabaseProps.
Import Types Schema Db Database ObjectStore StoreProps DbProps.

Lemma write_wellKeyed db w : wellKeyed db -> wellKeyed (write db w).
Proof.
  intros (Hu & Hp & Hv).
  destruct w; cbn; unfold wellKeyed; cbn;
    auto using put_ordered, delete_ordered.
Qed.

Lemma writes_wellKeyed ws : forall db, wellKeyed db -> wellKeyed (writes db ws).
Proof.
  induction ws as [|w ws IH]; intros db H; [exact H|].
  apply IH, write_wellKeyed, H.
Qed.

Lemma empty_wellKeyed : wellKeyed empty.
Proof. repeat split; constructor. Qed.

Lemma write_flagged db w : flagged db -> flagged (write db w).
Proof.
  intros H. destruct w; cbn; unfold flagged; cbn; try exact H.
  - intros v Hv. apply put_subset in Hv as [->|Hv]; [reflexivity|auto].
  - intros v Hv. apply delete_In in Hv as [Hv _]. auto.
Qed.

Lemma writes_flagged ws : forall db, flagged db -> flagged (writes db ws).
Proof.
  induction ws as [|w ws IH]; intros db H; [exact H|].
  apply IH, write_flagged, H.
Qed.

Lemma listing_NoDup uid store :
  keyOrdered project_id store ->
  List.NoDup (map project_id (Db.getProjectsByUser uid store)).
Proof.
  intros Hs. unfold Db.getProjectsByUser, getAll.
  eapply Permutation_NoDup.
  - apply Permutation_map, Permutation_sym, sort_perm.
  - apply ordered_NoDup, filter_ordered, Hs.
Qed.

(** X8.  Whatever sequence of [createUser], [saveProject], [deleteProject],
    [saveCustomVoice] and [deleteCustomVoice] has run on a fresh database,
    each store holds its records in key order with one record per id; so no
    listing of a user's projects and no listing of the vault shows an id
    twice, and every voice the vault returns carries [isCustom: true]. *)
Theorem stores_hold_one_record_per_id ws :
  let db := writes empty ws in
  wellKeyed db
  /\ (forall uid, List.NoDup (map project_id (getProjectsByUser uid db)))
  /\ List.NoDup (map voice_id (getCustomVoices db))
  /\ (forall v, In v (getCustomVoices db) -> isCustom v = Some true).
Proof.
  cbn zeta.
  pose proof (writes_wellKeyed ws empty empty_wellKeyed) as Hw.
  split; [exact Hw|]. destruct Hw as (Hu & Hp & Hv).
  split; [intros uid; apply listing_NoDup, Hp|].
  split; [apply ordered_NoDup, Hv|].
  apply (writes_flagged ws empty). intros v [].
Qed.

Lemma listing_In uid store q :
  In q (Db.getProjectsByUser uid store) <-> In q store /\ userId q = uid.
Proof.
  unfold Db.getProjectsByUser, getAll. split.
  - intros H. apply (Permutation_in _ (sort_perm _ _)) in H.
    apply List.filter_In in H as [? H]. apply String.eqb_eq in H. auto.
  - intros [H Heq]. apply (Permutation_in _ (Permutation_sym (sort_perm _ _))).
    apply List.filter_In. split; [exact H|]. apply String.eqb_eq, Heq.
Qed.

(** What the listings hold after a save. *)
Lemma listing_after_save now project db uid q :
  wellKeyed db ->
  In q (getProjectsByUser uid (saveProject now project db)) <->
    (q = updatedProject now project /\ userId project = uid)
    \/ (In q (getProjectsByUser uid db) /\ project_id q <> project_id project).
Proof.
  intros (_ & Hp & _). unfold getProjectsByUser, saveProject.
  cbn [projects].
  rewrite !listing_In, (put_In project_id _ _ Hp).
  change (userId (updatedProject now project)) with (userId project).
  change (project_id (updatedProject now project)) with (project_id project).
  split.
  - intros [[->|[Hq Hne]] Hu]; [left|right]; auto.
  - intros [[-> Hu]|[[Hq Hu] Hne]]; auto.
Qed.

(** X9.  After [saveProject] the listing of the project's owner holds the
    project with [updatedAt] set to the time of the save, the listing of
    every user holds what it held before except a record with the saved id,
    and nothing else: the earlier version is gone, also from the listing of
    an earlier owner. *)
Theorem saved_project_is_listed_once now project db :
  wellKeyed db ->
  let db' := saveProject now project db in
  forall uid q,
    In q (getProjectsByUser uid db') <->
      (q = updatedProject now project /\ userId project = uid)
      \/ (In q (getProjectsByUser uid db) /\ project_id q <> project_id project).
Proof.
  intros Hw db' uid q. apply listing_after_save, Hw.
Qed.

(** A project of one user is saved again by another. *)
Lemma saved_project_is_listed_once_witness :
  wellKeyed Scenes.shelf
  /\ (forall q,
        In q (getProjectsByUser Scenes.bob
                (saveProject 40 (Scenes.draft "p1" Scenes.bob 0) Scenes.shelf))
        -> project_id q = "p1"%string -> updatedAt q = 40%Z)
  /\ getProjectsByUser Scenes.alice
       (saveProject 40 (Scenes.draft "p1" Scenes.bob 0) Scenes.shelf)
     = [updatedProject 10 (Scenes.draft "p2" Scenes.alice 0)].
Proof.
  assert (H : wellKeyed Scenes.shelf)
    by (apply (writes_wellKeyed _ empty empty_wellKeyed)).
  split; [exact H|]. split; [|reflexivity].
  intros q Hq Hid.
  apply (saved_project_is_listed_once 40 (Scenes.draft "p1" Scenes.bob 0)
           Scenes.shelf H) in Hq as [[-> _]|[_ Hne]];
    [reflexivity|contradiction].
Defined.

Lemma listing_sorted uid store :
  StronglySorted newerFirst (Db.getProjectsByUser uid store).
Proof.
  unfold Db.getProjectsByUser. induction (getAll uid store) as [|x l IH]; cbn.
  - constructor.
  - apply insert_newerFirst, IH.
Qed.

(** X10.  A project saved at a time later than the stamps of its owner's
    other projects is the first of the owner's listing. *)
Theorem saved_project_comes_first now project db :
  wellKeyed db ->
  (forall q, In q (projects db) -> userId q = userId project ->
             project_id q <> project_id project -> (updatedAt q < now)%Z) ->
  head (getProjectsByUser (userId project) (saveProject now project db))
  = Some (updatedProject now project).
Proof.
  intros Hw Hlate.
  assert (Hin : forall q,
    In q (getProjectsByUser (userId project) (saveProject now project db)) <->
      (q = updatedProject now project /\ userId project = userId project)
      \/ (In q (getProjectsByUser (userId project) db)
          /\ project_id q <> project_id project))
    by (intros q; apply listing_after_save, Hw).
  pose proof (listing_sorted (userId project)
                (projects (saveProject now project db))) as Hs.
  unfold getProjectsByUser in *.
  destruct (Db.getProjectsByUser (userId project)
              (projects (saveProject now project db))) as [|h l] eqn:El.
  - destruct (proj2 (Hin (updatedProject now project))
                (or_introl (conj eq_refl eq_refl))).
  - cbn. f_equal.
    destruct (proj1 (Hin h) (or_introl eq_refl)) as [[-> _]|[Hold Hne]];
      [reflexivity|].
    apply listing_In in Hold as [Hold Howner].
    pose proof (Hlate h Hold Howner Hne) as Hstamp.
    apply StronglySorted_inv in Hs as [_ Hall].
    rewrite List.Forall_forall in Hall.
    destruct (proj2 (Hin (updatedProject now project)) (or_introl (conj eq_refl eq_refl)))
      as [Heq|Hl]; [congruence|].
    specialize (Hall _ Hl). unfold newerFirst in Hall. cbn in Hall. lia.
Qed.

(** The older of two projects is saved again. *)
Lemma saved_project_comes_first_witness :
  wellKeyed Scenes.shelf
  /\ (forall q, In q (projects Scenes.shelf) -> userId q = Scenes.alice ->
                project_id q <> "p2"%string -> (updatedAt q < 40)%Z)
  /\ map project_id
       (getProjectsByUser Scenes.alice
          (saveProject 40 (Scenes.draft "p2" Scenes.alice 0) Scenes.shelf))
     = ["p2"; "p1"]%string.
Proof.
  assert (H : wellKeyed Scenes.shelf)
    by (apply (writes_wellKeyed _ empty empty_wellKeyed)).
  assert (Hlate : forall q, In q (projects Scenes.shelf) ->
            userId q = Scenes.alice -> project_id q <> "p2"%string ->
            (updatedAt q < 40)%Z).
  { intros q Hq _ _. vm_compute in Hq.
    destruct Hq as [<-|[<-|[<-|[]]]]; reflexivity. }
  split; [exact H|]. split; [exact Hlate|].
  pose proof (saved_project_comes_first 40 (Scenes.draft "p2" Scenes.alice 0)
                Scenes.shelf H Hlate) as Hhead.
  destruct (getProjectsByUser Scenes.alice
              (saveProject 40 (Scenes.draft "p2" Scenes.alice 0) Scenes.shelf))
    as [|h l] eqn:El; [discriminate|].
  vm_compute in El. injection El as <- <-. reflexivity.
Defined.

(** Filtering a listing is listing what was filtered. *)
Lemma filter_insert (P : Project -> bool) x l :
  StronglySorted newerFirst l ->
  List.filter P (insertSorted (fun a b => (updatedAt b - updatedAt a)%Z) x l)
  = if P x
    then insertSorted (fun a b => (updatedAt b - updatedAt a)%Z) x
           (List.filter P l)
    else List.filter P l.
Proof.
  induction 1 as [|y l Hs IH Hall]; cbn.
  - destruct (P x); reflexivity.
  - destruct (updatedAt y - updatedAt x <=? 0)%Z eqn:E; cbn.
    + destruct (P x) eqn:Px, (P y) eqn:Py; cbn; rewrite ?E; try reflexivity.
      apply Z.leb_le in E.
      destruct (List.filter P l) as [|z l'] eqn:El; cbn; [reflexivity|].
      assert (Hz : In z l).
      { apply (proj1 (List.filter_In P z l)). rewrite El. left. reflexivity. }
      rewrite List.Forall_forall in Hall. specialize (Hall z Hz).
      unfold newerFirst in Hall.
      rewrite (proj2 (Z.leb_le _ _)) by lia. reflexivity.
    + rewrite IH. destruct (P x), (P y); cbn; rewrite ?E; reflexivity.
Qed.

Lemma filter_sort (P : Project -> bool) l :
  List.filter P (sort (fun a b => (updatedAt b - updatedAt a)%Z) l)
  = sort (fun a b => (updatedAt b - updatedAt a)%Z) (List.filter P l).
Proof.
  unfold sort. induction l as [|x l IH]; [reflexivity|].
  cbn [fold_right]. rewrite filter_insert.
  - rewrite IH. cbn [List.filter]. destruct (P x); reflexivity.
  - clear. induction l as [|y l IH]; cbn [fold_right]; [constructor|].
    apply insert_newerFirst, IH.
Qed.

Lemma filter_swap {A} (P Q : A -> bool) l :
  List.filter P (List.filter Q l) = List.filter Q (List.filter P l).
Proof.
  induction l as [|x l IH]; cbn; [reflexivity|].
  destruct (P x) eqn:Px, (Q x) eqn:Qx; cbn; rewrite ?Px, ?Qx, IH; reflexivity.
Qed.

Lemma listing_after_delete projectId uid store :
  Db.getProjectsByUser uid (delete project_id projectId store)
  = List.filter (fun p => negb (project_id p =? projectId)%string)
      (Db.getProjectsByUser uid store).
Proof.
  unfold Db.getProjectsByUser, getAll, delete.
  rewrite filter_sort. f_equal. apply filter_swap.
Qed.

(** X11.  After [deleteProject] every user's listing is the listing before
    without the records of the deleted id, in the order they had; no listing
    shows the id any more; and deleting an id that is not stored leaves the
    database as it was. *)
Theorem deleted_project_leaves_the_listing projectId db :
  (forall uid,
     getProjectsByUser uid (deleteProject projectId db)
     = List.filter (fun p => negb (project_id p =? projectId)%string)
         (getProjectsByUser uid db))
  /\ (forall uid q, In q (getProjectsByUser uid (deleteProject projectId db)) ->
        project_id q <> projectId)
  /\ ((forall q, In q (projects db) -> project_id q <> projectId) ->
      deleteProject projectId db = db).
Proof.
  split; [|split].
  - intros uid. apply listing_after_delete.
  - intros uid q Hq. unfold getProjectsByUser in Hq. cbn in Hq.
    apply listing_In in Hq as [Hq _]. apply delete_In in Hq as [_ Hne].
    exact Hne.
  - intros Hno. destruct db as [u p v]. unfold deleteProject.
    cbn [users projects custom_voices] in *.
    rewrite (delete_missing project_id projectId p Hno). reflexivity.
Qed.

(** X12.  After [saveCustomVoice] the vault returns the voice with the flag
    [isCustom] set, in place of whatever it held under that id, and the
    other voices as before; after [deleteCustomVoice] it returns the voices
    of the other ids; and saving a voice and then deleting its id leaves the
    vault as deleting alone does. *)
Theorem vault_holds_what_was_saved voice id db :
  wellKeyed db ->
  (forall v, In v (getCustomVoices (saveCustomVoice voice db)) <->
     v = custom voice
     \/ (In v (getCustomVoices db) /\ voice_id v <> voice_id voice))
  /\ (forall v, In v (getCustomVoices (deleteCustomVoice id db)) <->
        In v (getCustomVoices db) /\ voice_id v <> id)
  /\ deleteCustomVoice (voice_id voice) (saveCustomVoice voice db)
     = deleteCustomVoice (voice_id voice) db.
Proof.
  intros (_ & _ & Hv). split; [|split].
  - intros v. unfold getCustomVoices, saveCustomVoice. cbn [custom_voices].
    rewrite (put_In voice_id _ _ Hv). reflexivity.
  - intros v. unfold getCustomVoices. cbn. apply delete_In.
  - unfold deleteCustomVoice, saveCustomVoice.
    cbn [users projects custom_voices]. f_equal.
    apply (delete_put voice_id (custom voice)).
Qed.

(** A default voice is saved into a vault that holds another. *)
Lemma vault_holds_what_was_saved_witness :
  wellKeyed Scenes.shelf
  /\ getCustomVoices (saveCustomVoice Scenes.puck Scenes.shelf)
     = [custom Scenes.puck; custom Scenes.kore]
  /\ (forall v, In v (getCustomVoices (deleteCustomVoice "v2" Scenes.shelf)) ->
        voice_id v <> "v2"%string).
Proof.
  assert (H : wellKeyed Scenes.shelf)
    by (apply (writes_wellKeyed _ empty empty_wellKeyed)).
  split; [exact H|]. split; [reflexivity|].
  intros v Hv.
  destruct (vault_holds_what_was_saved Scenes.puck "v2" Scenes.shelf H)
    as (_ & Hdel & _).
  apply Hdel in Hv as [_ Hne]. exact Hne.
Defined.

End DatabaseProps.

(** ** components/Auth.tsx *)
Module AuthProps.
Import JSString Schema Database Auth ObjectStore StoreProps.

Lemma find_only {A} (P : A -> bool) x l :
  In x l -> P x = true -> (forall y, In y l -> P y = true -> y = x) ->
  List.find P l = Some x.
Proof.
  induction l as [|y l IH]; intros Hin Hx Honly; [destruct Hin|].
  cbn. destruct (P y) eqn:Py.
  - f_equal. apply Honly; [left; reflexivity|exact Py].
  - destruct Hin as [->|Hin]; [congruence|].
    apply IH; auto. intros z Hz. apply Honly. right. exact Hz.
Qed.

Lemma getUser_created uuid now name db :
  getUser name db = None ->
  getUser name (snd (createUser uuid now name db))
  = Some (fst (createUser uuid now name db)).
Proof.
  unfold getUser, createUser. cbn [fst snd users]. intros Hnone.
  apply find_only.
  - apply put_In_self.
  - apply String.eqb_refl.
  - intros y Hy Hname. apply put_subset in Hy as [->|Hy]; [reflexivity|].
    pose proof (List.find_none _ _ Hnone y Hy) as Hno. cbn in Hno. congruence.
Qed.

(** X13.  [handleAuth] does nothing for a user name that is blank.
    Otherwise, when the database opens, it hands [onLogin] a stored user
    whose name is the name typed, untrimmed: the first stored user of that
    name when there is one, and then the database is not written, else a
    new one; the form ends not loading and without error, and submitting it
    again hands over the same user and writes nothing.  When the database
    does not open nobody is logged in, nothing is written, and the form ends
    not loading with the failure message. *)
Theorem login_finds_or_creates_the_user env f db :
  let r := handleAuth env f db in
  (trim (username f) = EmptyString ->
     r = {| form := f; database := db; loggedIn := None |})
  /\ (trim (username f) <> EmptyString -> getUserOpens env = true ->
      createUserOpens env = true ->
      exists user,
        loggedIn r = Some user
        /\ Schema.username user = username f
        /\ In user (users (database r))
        /\ (forall known, getUser (username f) db = Some known ->
              user = known /\ database r = db)
        /\ loading (form r) = false /\ error (form r) = ""%string
        /\ (forall env', getUserOpens env' = true ->
              handleAuth env' (form r) (database r) = r))
  /\ (trim (username f) <> EmptyString -> getUserOpens env = false ->
      loggedIn r = None /\ database r = db
      /\ loading (form r) = false
      /\ error (form r) = "Authentication failed. Please try again."%string).
Proof.
  cbn zeta. unfold handleAuth. split; [|split].
  - intros ->. reflexivity.
  - intros Hname Hget Hcreate.
    destruct (trim (username f)) as [|c t] eqn:Et; [congruence|].
    cbn [JS.truthy_string negb].
    rewrite Hget.
    destruct (getUser (username f) db) as [user|] eqn:Eu.
    + exists user. cbn -[trim getUser]. split; [reflexivity|].
      pose proof (List.find_some _ _ Eu) as [Hin Hn].
      apply String.eqb_eq in Hn.
      split; [exact Hn|]. split; [exact Hin|].
      split; [intros known [= <-]; auto|]. split; [reflexivity|].
      split; [reflexivity|].
      intros env' ->. rewrite Et. cbn -[getUser]. rewrite Eu. reflexivity.
    + rewrite Hcreate.
      pose proof (getUser_created (uuid env) (now env) _ db Eu) as Hagain.
      destruct (createUser (uuid env) (now env) (username f) db)
        as [user db'] eqn:Ec.
      cbn [fst snd] in Hagain. exists user. cbn -[trim getUser].
      split; [reflexivity|].
      unfold createUser in Ec. injection Ec as <- <-. cbn -[trim getUser put].
      split; [reflexivity|]. split; [apply put_In_self|].
      split; [intros known [=]|]. split; [reflexivity|].
      split; [reflexivity|].
      intros env' ->. rewrite Et. cbn [JS.truthy_string negb].
      rewrite Hagain. reflexivity.
  - intros Hname Hget.
    destruct (trim (username f)) as [|c t] eqn:Et; [congruence|].
    cbn [JS.truthy_string negb].
    rewrite Hget. cbn. auto.
Qed.

(** A new name is typed with a space in front, on the empty database. *)
Lemma login_finds_or_creates_the_user_witness :
  let env := {| uuid := "u-1"; now := 7; getUserOpens := true;
                createUserOpens := true |} in
  let f := {| Auth.username := " ada"; loading := false; error := "" |} in
  trim (Auth.username f) <> EmptyString
  /\ exists user,
       loggedIn (handleAuth env f empty) = Some user
       /\ Schema.username user = " ada"%string
       /\ In user (users (database (handleAuth env f empty))).
Proof.
  intros env f.
  assert (H : trim (Auth.username f) <> EmptyString) by discriminate.
  split; [exact H|].
  destruct (login_finds_or_creates_the_user env f empty) as (_ & Hin & _).
  destruct (Hin H eq_refl eq_refl) as (user & H1 & H2 & H3 & _).
  exists user. auto.
Defined.

End AuthProps.

(** ** components/Dashboard.tsx and App.tsx *)
Module PagesProps.
Import Types Schema Database DatabaseProps.

(** X14.  When the dashboard shows a user's listing and the deletion of a
    project is confirmed, the project is deleted and the dashboard ends
    showing the listing without it, the other cards in their order, not
    loading; it shows the empty panel exactly when every card had the
    deleted id.  When the deletion is not confirmed nothing changes. *)
Theorem confirmed_delete_removes_the_card user projectId db st :
  Dashboard.projects st = getProjectsByUser (user_id user) db ->
  let after := Dashboard.handleDelete true user projectId db st in
  fst after = deleteProject projectId db
  /\ Dashboard.projects (snd after) =
       List.filter (fun p => negb (project_id p =? projectId)%string)
         (Dashboard.projects st)
  /\ Dashboard.isLoading (snd after) = false
  /\ (Dashboard.panel (snd after) = Dashboard.NoProjects <->
      forall p, In p (Dashboard.projects st) -> project_id p = projectId)
  /\ Dashboard.handleDelete false user projectId db st = (db, st).
Proof.
  intros Hshown after.
  assert (Hlast : Dashboard.handleDelete false user projectId db st = (db, st))
    by reflexivity.
  unfold after, Dashboard.handleDelete, Dashboard.loadProjects,
    Dashboard.loadingDone.
  cbn [fst snd Dashboard.projects Dashboard.isLoading].
  split; [reflexivity|].
  assert (Hafter : getProjectsByUser (user_id user) (deleteProject projectId db)
                   = List.filter
                       (fun p => negb (project_id p =? projectId)%string)
                       (Dashboard.projects st)).
  { rewrite Hshown. apply listing_after_delete. }
  split; [exact Hafter|]. split; [reflexivity|]. split; [|exact Hlast].
  unfold Dashboard.panel. cbn [Dashboard.projects Dashboard.isLoading].
  rewrite Hafter.
  set (rest := List.filter _ (Dashboard.projects st)).
  assert (Hrest : forall p, In p rest <->
                    In p (Dashboard.projects st) /\ project_id p <> projectId).
  { intros p. unfold rest.
    rewrite List.filter_In, Bool.negb_true_iff, String.eqb_neq. reflexivity. }
  destruct rest as [|p rest'] eqn:E; cbn.
  - split; [|reflexivity]. intros _ p Hp.
    destruct (String.eqb_spec (project_id p) projectId) as [|Hne]; [assumption|].
    destruct (proj2 (Hrest p) (conj Hp Hne)).
  - split; [discriminate|]. intros Hall.
    destruct (proj1 (Hrest p) (or_introl eq_refl)) as [Hp Hne].
    destruct (Hne (Hall p Hp)).
Qed.

(** The newer of a user's two projects is deleted. *)
Lemma confirmed_delete_removes_the_card_witness :
  let st := Dashboard.loadProjects Scenes.ada Scenes.shelf Dashboard.initial in
  Dashboard.projects st = getProjectsByUser (user_id Scenes.ada) Scenes.shelf
  /\ map project_id (Dashboard.projects st) = ["p1"; "p2"]%string
  /\ map project_id
       (Dashboard.projects
          (snd (Dashboard.handleDelete true Scenes.ada "p1" Scenes.shelf st)))
     = ["p2"]%string.
Proof.
  intros st.
  assert (H : Dashboard.projects st
              = getProjectsByUser (user_id Scenes.ada) Scenes.shelf)
    by reflexivity.
  split; [exact H|]. split; [reflexivity|].
  destruct (confirmed_delete_removes_the_card Scenes.ada "p1"
              Scenes.shelf st H) as (_ & -> & _).
  reflexivity.
Defined.

Import App.

Lemma handle_routed st c :
  routed st -> offered (render st) c = true -> routed (handle st c).
Proof.
  unfold routed, render. destruct st as [v u a p]. cbn.
  destruct c as [user| | |project|agent mode|]; cbn;
    destruct v; cbn; intros H; try (intros; eauto; fail);
    repeat match goal with
    | H : _ /\ _ |- _ => destruct H
    | H : is_Some ?x |- _ => destruct H; subst
    end; cbn; try discriminate; intros _;
    try destruct (JS.truthy_flag (isPodcast project));
    try destruct mode; cbn; eauto.
Qed.

Lemma routed_renders st : routed st -> render st <> Nothing.
Proof.
  unfold routed, render. destruct st as [v u a p]. cbn.
  destruct v; cbn; intros H;
    repeat match goal with
    | H : _ /\ _ |- _ => destruct H
    | H : is_Some ?x |- _ => destruct H; subst
    end; discriminate.
Qed.

Lemma run_routed cs : forall st,
  routed st -> called st cs -> routed (run st cs).
Proof.
  induction cs as [|c cs IH]; intros st Hr Hc; cbn; [exact Hr|].
  destruct Hc as [Hoff Hrest]. apply IH; [|exact Hrest].
  apply handle_routed; assumption.
Qed.

(** X15.  From the login form, whatever callbacks are called, each from the
    screen shown when it is called (a login may land on any screen), the
    page is never empty: away from the login form there is a current user,
    and the live, story and podcast screens have an agent. *)
Theorem a_screen_is_always_shown cs :
  called initial cs ->
  routed (run initial cs) /\ render (run initial cs) <> Nothing.
Proof.
  intros Hc. pose proof (run_routed cs initial I Hc) as Hr.
  split; [exact Hr|apply routed_renders, Hr].
Qed.

(** A user logs in, builds an agent for a story, leaves and logs out. *)
Lemma a_screen_is_always_shown_witness :
  let cs := [OnLogin Scenes.ada; OnCreateNew; OnComplete Samples.persona TTS;
             OnExit; OnLogout] in
  called initial cs /\ render (run initial cs) = AuthScreen
  /\ render (run initial (firstn 3 cs))
     = StoryScreen Samples.persona None Scenes.alice.
Proof.
  intros cs.
  assert (H : called initial cs) by (cbn; repeat split).
  split; [exact H|]. split; [|reflexivity].
  destruct (a_screen_is_always_shown cs H) as [_ Hshown].
  destruct (render (run initial cs)) eqn:E; try discriminate E.
  reflexivity.
Defined.

End PagesProps.

(** ** Strings *)
Module StringProps.
Import JSString.
Local Open Scope string_scope.

Lemma length_append (a b : string) :
  String.length (a ++ b) = (String.length a + String.length b)%nat.
Proof. induction a as [|c a IH]; cbn; [reflexivity|]. rewrite IH. reflexivity. Qed.

Lemma length_filler c n :
  String.length (string_of_list_ascii (repeat c n)) = n.
Proof. induction n as [|n IH]; cbn; [reflexivity|]. rewrite IH. reflexivity. Qed.

Lemma padStart_length n c s :
  String.length (padStart n c s) = Nat.max n (String.length s).
Proof. unfold padStart. rewrite length_append, length_filler. lia. Qed.

Lemma decimal_zeros n s :
  decimal (string_of_list_ascii (repeat "0"%char n) ++ s) = decimal s.
Proof.
  unfold decimal. induction n as [|n IH]; cbn [repeat string_of_list_ascii append];
    [reflexivity|].
  cbn [DecimalString.NilEmpty.uint_of_string].
  destruct (DecimalString.NilEmpty.uint_of_string
              (string_of_list_ascii (repeat "0"%char n) ++ s)) as [d|] eqn:E;
    cbn in *; rewrite <- IH; reflexivity.
Qed.

Lemma decimal_padStart n s : decimal (padStart n "0"%char s) = decimal s.
Proof. apply decimal_zeros. Qed.

Lemma decimal_toString n : decimal (toString n) = Some n.
Proof.
  unfold decimal, toString. rewrite DecimalString.NilEmpty.usu. cbn.
  rewrite DecimalN.Unsigned.of_to. reflexivity.
Qed.

(** A test that holds for the first numbers holds below their count. *)
Lemma checked_below (P : N -> bool) bound n :
  forallb (fun i => P (N.of_nat i)) (seq 0 bound) = true ->
  (n < N.of_nat bound)%N -> P n = true.
Proof.
  intros Hall Hn. rewrite forallb_forall in Hall.
  specialize (Hall (N.to_nat n)). rewrite N2Nat.id in Hall.
  apply Hall, in_seq. lia.
Qed.

Lemma toString_two_digits n :
  (n < 100)%N -> (String.length (toString n) <= 2)%nat.
Proof.
  intros Hn. apply Nat.leb_le.
  apply (checked_below (fun n => String.length (toString n) <=? 2)%nat 100);
    [vm_compute; reflexivity|exact Hn].
Qed.

(** A character that is not white space survives [trim]. *)
Lemma includes_trimStart c s :
  isWhiteSpace c = false -> includes c (trimStart s) = includes c s.
Proof.
  intros Hc. induction s as [|d s IH]; cbn; [reflexivity|].
  destruct (isWhiteSpace d) eqn:Hd; [|reflexivity].
  rewrite IH. destruct (Ascii.eqb_spec d c) as [->|]; [congruence|reflexivity].
Qed.

Lemma includes_trimEnd c s :
  isWhiteSpace c = false -> includes c (trimEnd s) = includes c s.
Proof.
  intros Hc. induction s as [|d s IH]; cbn; [reflexivity|].
  destruct (trimEnd s) as [|e rest] eqn:E.
  - cbn in IH. rewrite <- IH.
    destruct (isWhiteSpace d) eqn:Hd; cbn.
    + destruct (Ascii.eqb_spec d c) as [->|]; [congruence|reflexivity].
    + reflexivity.
  - cbn [includes] in *. rewrite IH. reflexivity.
Qed.

Lemma includes_trim c s :
  isWhiteSpace c = false -> includes c (trim s) = includes c s.
Proof.
  intros Hc. unfold trim.
  rewrite includes_trimEnd, includes_trimStart by exact Hc. reflexivity.
Qed.

Lemma includes_strip class c s :
  includes c (strip class s) = negb (class c) && includes c s.
Proof.
  induction s as [|d s IH]; cbn; [rewrite Bool.andb_false_r; reflexivity|].
  destruct (class d) eqn:Hd; cbn [includes]; rewrite IH;
    destruct (Ascii.eqb_spec d c) as [->|Hne]; cbn [orb];
    rewrite ?Hd; cbn; reflexivity.
Qed.

Lemma includes_nonempty c s : includes c s = true -> s <> EmptyString.
Proof. destruct s; [discriminate|discriminate]. Qed.

End StringProps.

(** ** components/LiveInterface.tsx: the session clock *)
Module ClockProps.
Import JSString LivePage StringProps.
Local Open Scope string_scope.

(** X16.  For every value of the session counter [formatTime] writes the
    minutes, a colon and the seconds: the seconds in exactly two digits,
    the minutes in at least two, both reading back in decimal as the whole
    minutes and the remaining seconds of the counter; below a hundred
    minutes the text is five characters long. *)
Theorem session_clock_reads_back seconds :
  (seconds <= MAX_SAFE_INTEGER)%N ->
  exists mins secs,
    formatTime seconds = mins ++ ":" ++ secs
    /\ (2 <= String.length mins)%nat
    /\ String.length secs = 2%nat
    /\ decimal mins = Some (seconds / 60)%N
    /\ decimal secs = Some (seconds mod 60)%N
    /\ ((seconds < 6000)%N -> String.length (formatTime seconds) = 5%nat).
Proof.
  intros _.
  exists (padStart 2 "0"%char (toString (seconds / 60))),
         (padStart 2 "0"%char (toString (seconds mod 60))).
  assert (Hsecs : String.length
                    (padStart 2 "0"%char (toString (seconds mod 60))) = 2%nat).
  { rewrite padStart_length.
    assert ((seconds mod 60 < 100)%N) as H
      by (pose proof (N.mod_lt seconds 60); lia).
    apply toString_two_digits in H. lia. }
  split; [reflexivity|]. split; [rewrite padStart_length; lia|].
  split; [exact Hsecs|].
  split; [rewrite decimal_padStart; apply decimal_toString|].
  split; [rewrite decimal_padStart; apply decimal_toString|].
  intros Hshort. unfold formatTime.
  rewrite !length_append, Hsecs, padStart_length. cbn.
  assert ((seconds / 60 < 100)%N) as H
    by (apply N.Div0.div_lt_upper_bound; lia).
  apply toString_two_digits in H. lia.
Qed.

(** An hour, a minute and five seconds. *)
Lemma session_clock_reads_back_witness :
  (3665 <= MAX_SAFE_INTEGER)%N /\ formatTime 3665 = "61:05"
  /\ exists mins secs,
       formatTime 3665 = mins ++ ":" ++ secs /\ decimal secs = Some 5%N.
Proof.
  assert (H : (3665 <= MAX_SAFE_INTEGER)%N) by (vm_compute; discriminate).
  split; [exact H|]. split; [reflexivity|].
  destruct (session_clock_reads_back 3665 H)
    as (mins & secs & H1 & _ & _ & _ & H2 & _).
  exists mins, secs. split; [exact H1|exact H2].
Defined.

End ClockProps.

(** ** components/PodcastInterface.tsx *)
Module PodcastProps.
Import JSString Types Podcast StringProps.
Local Open Scope string_scope.

Section Synthesis.
Context {Failure : Type}.
Variable generateContent : nat -> string -> Failure + Response.
Variable base64ToUint8Array : string -> option (list Z).

Lemma attempts_spec prompt rounds : forall i lastError net,
  match attempts generateContent prompt i rounds lastError net with
  | (Returned response, net') =>
      exists k, (k < rounds)%nat
        /\ generateContent (requests net + k) prompt = inr response
        /\ (forall j, (j < k)%nat -> rejected generateContent prompt (requests net + j))
        /\ requests net' = (requests net + S k)%nat
        /\ waited net' =
             (waited net
              + 1000 * N.of_nat k * (2 * N.of_nat i + N.of_nat k + 1))%N
  | (Thrown e, net') =>
      (forall j, (j < rounds)%nat -> rejected generateContent prompt (requests net + j))
      /\ requests net' = (requests net + rounds)%nat
      /\ waited net' =
           (waited net
            + 1000 * N.of_nat rounds * (2 * N.of_nat i + N.of_nat rounds + 1))%N
      /\ e = match rounds with
             | O => lastError
             | S r =>
                 match generateContent (requests net + r) prompt with
                 | inl e => Some e
                 | inr _ => None
                 end
             end
  end.
Proof.
  induction rounds as [|rounds IH]; intros i lastError net; cbn [attempts].
  - split; [intros j Hj; lia|]. split; [lia|]. split; [lia|reflexivity].
  - destruct (generateContent (requests net) prompt) as [e|response] eqn:E.
    + specialize (IH (S i) (Some e)
                    {| requests := S (requests net);
                       waited := (waited net + 2000 * (N.of_nat i + 1))%N |}).
      destruct (attempts generateContent prompt (S i) rounds (Some e) _)
        as [[response|e'] net'].
      * destruct IH as (k & Hk & Hok & Hrej & Hreq & Hw). cbn in *.
        exists (S k). split; [lia|].
        split; [rewrite <- Hok; f_equal; lia|].
        split; [|split; [lia|lia]].
        intros [|j] Hj; [exists e; rewrite Nat.add_0_r; exact E|].
        destruct (Hrej j ltac:(lia)) as [e2 He2]. exists e2.
        rewrite <- He2. f_equal. lia.
      * destruct IH as (Hrej & Hreq & Hw & He). cbn in *.
        split; [|split; [lia|split; [lia|]]].
        -- intros [|j] Hj; [exists e; rewrite Nat.add_0_r; exact E|].
           destruct (Hrej j ltac:(lia)) as [e2 He2]. exists e2.
           rewrite <- He2. f_equal. lia.
        -- subst e'. destruct rounds as [|r].
           ++ rewrite Nat.add_0_r, E. reflexivity.
           ++ replace (requests net + S r)%nat with (S (requests net + r))
                by lia. reflexivity.
    + exists 0%nat. cbn. split; [lia|]. rewrite Nat.add_0_r.
      split; [exact E|]. split; [intros j Hj; lia|]. split; lia.
Qed.

(** X17.  [callTTSWithRetry] asks at most [retries] times.  It returns the
    first response that is not a rejection, having slept 2 s, 4 s, ...
    after the rejections before it; when every request is rejected it
    throws the last rejection (nothing for zero retries) after sleeping
    once more, [retries * (retries + 1)] seconds in all: twelve seconds for
    the three rounds [handleGenerate] allows. *)
Theorem retry_returns_the_first_answer prompt retries net :
  match callTTSWithRetry generateContent prompt retries net with
  | (Returned response, net') =>
      exists k, (k < retries)%nat
        /\ generateContent (requests net + k) prompt = inr response
        /\ (forall j, (j < k)%nat -> rejected generateContent prompt (requests net + j))
        /\ requests net' = (requests net + S k)%nat
        /\ waited net' =
             (waited net + 1000 * N.of_nat k * (N.of_nat k + 1))%N
  | (Thrown e, net') =>
      (forall j, (j < retries)%nat -> rejected generateContent prompt (requests net + j))
      /\ requests net' = (requests net + retries)%nat
      /\ waited net' =
           (waited net + 1000 * N.of_nat retries * (N.of_nat retries + 1))%N
      /\ (retries = 3%nat -> waited net' = (waited net + 12000)%N)
      /\ e = match retries with
             | O => None
             | S r =>
                 match generateContent (requests net + r) prompt with
                 | inl e => Some e
                 | inr _ => None
                 end
             end
  end.
Proof.
  unfold callTTSWithRetry.
  pose proof (attempts_spec prompt retries 0 None net) as H.
  destruct (attempts generateContent prompt 0 retries None net)
    as [[response|e] net'].
  - destruct H as (k & Hk & Hok & Hrej & Hreq & Hw).
    exists k. split; [exact Hk|]. split; [exact Hok|]. split; [exact Hrej|].
    split; [exact Hreq|]. rewrite Hw. lia.
  - destruct H as (Hrej & Hreq & Hw & He).
    split; [exact Hrej|]. split; [exact Hreq|]. split; [rewrite Hw; lia|].
    split; [intros ->; rewrite Hw; reflexivity|exact He].
Qed.

(** The colon is neither white space nor markup. *)
Lemma rawLines_colon text :
  Forall (fun l => includes ":"%char l = true) (rawLines text).
Proof.
  unfold rawLines. apply List.Forall_forall. intros l Hl.
  apply List.in_map_iff in Hl as (raw & <- & Hraw).
  apply List.filter_In in Hraw as [_ Hcolon].
  rewrite includes_strip, Hcolon. reflexivity.
Qed.

Lemma rawLines_length text :
  length (rawLines text)
  = length (List.filter (includes ":"%char) (split "010"%char text)).
Proof.
  unfold rawLines. rewrite length_map.
  induction (split "010"%char text) as [|l ls IH]; cbn; [reflexivity|].
  rewrite includes_trim by reflexivity.
  destruct (includes ":"%char l); cbn; rewrite IH; reflexivity.
Qed.

(** X18.  Each line handed to the speech loop holds a colon and none of the
    characters [* _ # ~ ` | >], and is not blank, so the loop skips none;
    there is one such line for each line of the script that holds a colon,
    so that is the number of requests made when each is answered at once. *)
Theorem every_colon_line_is_a_turn text :
  Forall (fun l =>
            includes ":"%char l = true
            /\ (forall c, isMarkup c = true -> includes c l = false)
            /\ JS.truthy_string (trim l) = true)
         (rawLines text)
  /\ length (rawLines text)
     = length (List.filter (includes ":"%char) (split "010"%char text))
  /\ (forall host guest parts net,
        (forall k prompt, exists response,
           generateContent k prompt = inr response) ->
        requests
          (snd (turns generateContent base64ToUint8Array host guest
                  (rawLines text) parts net))
        <= requests net + length (rawLines text)
        /\ (forall audio,
              fst (turns generateContent base64ToUint8Array host guest
                     (rawLines text) parts net) = Some audio ->
              requests
                (snd (turns generateContent base64ToUint8Array host guest
                        (rawLines text) parts net))
              = requests net + length (rawLines text)))%nat.
Proof.
  split; [|split; [apply rawLines_length|]].
  - apply List.Forall_forall. intros l Hl.
    pose proof (proj1 (List.Forall_forall _ _) (rawLines_colon text) l Hl)
      as Hcolon.
    split; [exact Hcolon|]. split.
    + intros c Hm. unfold rawLines in Hl.
      apply List.in_map_iff in Hl as (raw & <- & _).
      rewrite includes_strip, Hm. reflexivity.
    + pose proof (includes_trim ":"%char l eq_refl) as Ht.
      rewrite Hcolon in Ht. destruct (trim l); [discriminate|reflexivity].
  - intros host guest parts net Hanswer.
    pose proof (rawLines_colon text) as Hc.
    revert parts net. induction Hc as [|l ls Hl Hls IH]; intros parts net.
    + cbn. split; [lia|intros; lia].
    + cbn [turns length].
      pose proof (includes_trim ":"%char l eq_refl) as Ht. rewrite Hl in Ht.
      destruct (trim l) as [|c t] eqn:Et; [discriminate|].
      cbn [JS.truthy_string negb]. unfold callTTSWithRetry. cbn [attempts].
      destruct (Hanswer (requests net) (promptText host guest l))
        as [response ->].
      cbn [requests waited].
      set (slept := {| requests := S (requests net);
                       waited := (waited net + 600)%N |}).
      destruct response as [b64|]; [destruct (JS.truthy_string b64)|].
      * destruct (base64ToUint8Array b64 ≫= int16Array) as [pcm|].
        -- destruct (IH (parts ++ [pcm])%list slept) as [H1 H2].
           subst slept. cbn [requests] in H1, H2. split; [lia|].
           intros audio Ha. rewrite (H2 audio Ha). lia.
        -- cbn. split; [lia|discriminate].
      * destruct (IH parts slept) as [H1 H2]. subst slept.
        cbn [requests] in H1, H2.
        split; [lia|]. intros audio Ha. rewrite (H2 audio Ha). lia.
      * destruct (IH parts slept) as [H1 H2]. subst slept.
        cbn [requests] in H1, H2.
        split; [lia|]. intros audio Ha. rewrite (H2 audio Ha). lia.
Qed.

Lemma attempts_requests prompt rounds i lastError net :
  (requests (snd (attempts generateContent prompt i rounds lastError net))
   <= requests net + rounds)%nat.
Proof.
  pose proof (attempts_spec prompt rounds i lastError net) as H.
  destruct (attempts generateContent prompt i rounds lastError net)
    as [[response|e] net'].
  - destruct H as (k & Hk & _ & _ & Hreq & _). cbn. lia.
  - destruct H as (_ & Hreq & _). cbn. lia.
Qed.

Lemma turns_requests host guest lines : forall parts net,
  (requests
     (snd (turns generateContent base64ToUint8Array host guest lines parts
             net))
   <= requests net + 3 * length lines)%nat.
Proof.
  induction lines as [|l lines IH]; intros parts net; cbn [turns length];
    [cbn; lia|].
  destruct (negb (JS.truthy_string (trim l))).
  { specialize (IH parts net). lia. }
  pose proof (attempts_requests (promptText host guest l) 3 0 None net) as Hr.
  unfold callTTSWithRetry.
  destruct (attempts generateContent (promptText host guest l) 0 3 None net)
    as [[response|e] net']; cbn [snd] in Hr; [|cbn; lia].
  set (slept := {| requests := requests net';
                   waited := (waited net' + 600)%N |}).
  assert (Hs : forall parts',
    (requests
       (snd (turns generateContent base64ToUint8Array host guest lines parts'
               slept))
     <= requests net + 3 * S (length lines))%nat).
  { intros parts'. specialize (IH parts' slept). subst slept.
    cbn [requests] in IH. lia. }
  destruct response as [b64|]; [destruct (JS.truthy_string b64)|];
    try apply Hs.
  destruct (base64ToUint8Array b64 ≫= int16Array) as [pcm|];
    [apply Hs|cbn; lia].
Qed.

(** X19.  [handleGenerate] does nothing for a script that is blank.
    Otherwise it ends with the loading flag off, having made at most three
    requests for each line of the script that holds a colon.  It raises at
    most one alert, and when it raises one the database has not been
    written and playback has not been started.  The database is written
    only by one [saveProject] of the project that carries the merged audio
    shown in the studio, and only for a user.  With a client, a script
    without a colon makes no request, writes nothing, keeps the audio there
    was and raises no alert. *)
Theorem generation_ends_loading_and_saves_whole env script st db n :
  let r := handleGenerate generateContent base64ToUint8Array env script st
             db n in
  (trim (scriptText script) = EmptyString ->
     r = {| studio := st; database := db; net := n |})
  /\ (trim (scriptText script) <> EmptyString ->
      isLoading (studio r) = false
      /\ (requests (net r)
          <= requests n
             + 3 * length (List.filter (includes ":"%char)
                             (split "010"%char (scriptText script))))%nat
      /\ (alerts (studio r) = alerts st
          \/ (alerts (studio r) = S (alerts st) /\ database r = db
              /\ isPlaying (studio r) = isPlaying st))
      /\ (database r = db
          \/ exists owner mergedPcm,
               userId script = Some owner
               /\ currentAudioData (studio r) = Some mergedPcm
               /\ database r =
                    Database.saveProject (savedAt env)
                      (projectOf env script owner mergedPcm) db
               /\ alerts (studio r) = alerts st)
      /\ (clientOk env = true -> rawLines (scriptText script) = [] ->
          net r = n /\ database r = db
          /\ currentAudioData (studio r) = currentAudioData st
          /\ alerts (studio r) = alerts st)).
Proof.
  cbn zeta. unfold handleGenerate. split.
  - intros ->. reflexivity.
  - intros Hne.
    destruct (trim (scriptText script)) as [|c t] eqn:Et; [congruence|].
    cbn [JS.truthy_string negb].
    destruct (clientOk env); cbn [negb];
      [|cbn; split; [reflexivity|]; split; [lia|];
        split; [right; repeat split|]; split; [left; reflexivity|];
        discriminate].
    pose proof (turns_requests (hostName script) (guestName script)
                  (rawLines (scriptText script)) [] n) as Hreq.
    rewrite rawLines_length in Hreq.
    destruct (turns generateContent base64ToUint8Array (hostName script)
                (guestName script) (rawLines (scriptText script)) [] n)
      as [[parts|] n'] eqn:Eturns; cbn [snd] in Hreq.
    + assert (Hcolonless : rawLines (scriptText script) = [] ->
                           parts = [] /\ n' = n).
      { intros Hnil. rewrite Hnil in Eturns. cbn in Eturns.
        injection Eturns as <- <-. auto. }
      destruct (0 <? length parts)%nat eqn:Elen.
      * assert (Hsome : rawLines (scriptText script) <> []).
        { intros Hnil. destruct (Hcolonless Hnil) as [-> _]. discriminate. }
        destruct (userId script) as [owner|] eqn:Eo;
          [destruct (JS.truthy_string owner);
           [destruct (saveResolves env)|]|];
          cbn; (split; [reflexivity|]); (split; [exact Hreq|]);
          (split; [auto|]); (split; [|intros _ Hnil; contradiction]);
          eauto 8.
      * cbn. split; [reflexivity|]. split; [exact Hreq|].
        split; [auto|]. split; [auto|].
        intros _ Hnil. destruct (Hcolonless Hnil) as [_ ->]. auto.
    + cbn. split; [reflexivity|]. split; [exact Hreq|].
      split; [auto|]. split; [auto|].
      intros _ Hnil. rewrite Hnil in Eturns. discriminate.
Qed.

End Synthesis.

(** ["Ann: hi *there*"], a line without a colon and ["Bob: _yo_"]. *)
Lemma every_colon_line_is_a_turn_witness :
  let text :=
    ("Ann: hi *there*" ++ String "010"%char
       (" no colon here " ++ String "010"%char "Bob: _yo_"))%string in
  let generateContent (k : nat) (prompt : string) : unit + Response :=
    inr (Some "AAD/fwCA") in
  (forall k prompt, exists response, generateContent k prompt = inr response)
  /\ rawLines text = ["Ann: hi there"; "Bob: yo"]
  /\ requests
       (snd (turns generateContent Audio.atob "Ann" "Bob" (rawLines text) []
               {| requests := 0; waited := 0 |})) = 2%nat.
Proof.
  intros text generateContent.
  assert (H : forall k prompt, exists response,
                generateContent k prompt = inr response)
    by (intros; eexists; reflexivity).
  split; [exact H|]. split; [reflexivity|].
  destruct (every_colon_line_is_a_turn generateContent Audio.atob text)
    as (_ & _ & Hturns).
  destruct (Hturns "Ann" "Bob" [] {| requests := 0; waited := 0 |} H)
    as [_ Hall].
  rewrite (Hall _ eq_refl). reflexivity.
Defined.

(** A script of one turn whose three requests are all rejected. *)
Lemma generation_ends_loading_and_saves_whole_witness :
  let script :=
    {| hostName := "Ann"; guestName := "Bob"; projectName := "Show";
       scriptText := "Ann: hello"; userId := Some "user-a";
       initialProject := None |} in
  let env := {| uuid := "p-9"; now := 50; savedAt := 51; clientOk := true;
                saveResolves := true; audioPlays := true |} in
  let st := {| isLoading := false; currentAudioData := None;
               isPlaying := false; alerts := 0 |} in
  let r := handleGenerate (fun _ _ => inl tt) Audio.atob env script st
             Scenes.shelf {| requests := 0; waited := 0 |} in
  trim (scriptText script) <> EmptyString
  /\ alerts (studio r) = 1%nat /\ requests (net r) = 3%nat
  /\ waited (net r) = 12000%N /\ database r = Scenes.shelf.
Proof.
  intros script env st r.
  assert (H : trim (scriptText script) <> EmptyString) by discriminate.
  split; [exact H|]. split; [reflexivity|]. split; [reflexivity|].
  split; [reflexivity|].
  destruct (generation_ends_loading_and_saves_whole (fun _ _ => inl tt)
              Audio.atob env script st Scenes.shelf
              {| requests := 0; waited := 0 |}) as [_ Hrun].
  destruct (Hrun H) as (_ & _ & [Hnone|(_ & Hdb & _)] & _);
    [discriminate Hnone|exact Hdb].
Defined.

End PodcastProps.

(** ** components/StoryInterface.tsx: the cast *)
Module StoryProps.
Import Types Schema Story.
Local Open Scope string_scope.

Lemma syncNarrator_ids cast :
  map member_id (syncNarrator cast) = map member_id cast.
Proof.
  destruct cast as [|c [|d cast]]; cbn; try reflexivity.
  destruct (negb (member_name c =? "Narrator")); reflexivity.
Qed.

Lemma syncNarrator_length cast : length (syncNarrator cast) = length cast.
Proof.
  rewrite <- (length_map member_id), syncNarrator_ids, length_map.
  reflexivity.
Qed.

Lemma syncNarrator_lone cast c :
  syncNarrator cast = [c] -> member_name c = "Narrator".
Proof.
  destruct cast as [|d [|e cast]]; cbn; try discriminate.
  destruct (member_name d =? "Narrator") eqn:E; cbn.
  - intros [= <-]. apply String.eqb_eq, E.
  - intros [= <-]. reflexivity.
Qed.

Lemma syncNarrator_staffed cast :
  (1 <= length cast <= 4)%nat -> List.NoDup (map member_id cast) ->
  staffed (syncNarrator cast).
Proof.
  intros Hlen Hids. unfold staffed.
  rewrite syncNarrator_length, syncNarrator_ids.
  split; [exact Hlen|]. split; [exact Hids|]. apply syncNarrator_lone.
Qed.

(** Deleting by id removes at most one member of a cast without twins. *)
Lemma filter_one id cast :
  List.NoDup (map member_id cast) ->
  (length cast <= S (length
     (List.filter (fun c => negb (member_id c =? id)%string) cast)))%nat.
Proof.
  induction cast as [|c cast IH]; cbn; [lia|]. intros Hids.
  apply List.NoDup_cons_iff in Hids as [Hnew Hids].
  destruct (String.eqb_spec (member_id c) id) as [<-|Hne]; cbn.
  - assert (Hall : List.filter
                     (fun d => negb (member_id d =? member_id c)) cast = cast).
    { clear IH Hids. induction cast as [|d cast IH]; cbn; [reflexivity|].
      cbn in Hnew.
      destruct (String.eqb_spec (member_id d) (member_id c)) as [Heq|_]; cbn.
      - destruct Hnew. left. exact Heq.
      - f_equal. apply IH. intros Hin. apply Hnew. right. exact Hin. }
    rewrite Hall. lia.
  - specialize (IH Hids). lia.
Qed.

Lemma filter_ids (P : CastMember -> bool) cast :
  List.NoDup (map member_id cast) ->
  List.NoDup (map member_id (List.filter P cast)).
Proof.
  induction cast as [|c cast IH]; cbn; [constructor|]. intros Hids.
  apply List.NoDup_cons_iff in Hids as [Hnew Hids].
  destruct (P c); cbn; [|auto]. constructor; [|auto].
  intros Hin. apply Hnew. apply List.in_map_iff in Hin as (d & Hd & Hin).
  apply List.filter_In in Hin as [Hin _]. apply List.in_map_iff. eauto.
Qed.

Lemma updateCharacter_ids id updates cast :
  set_id updates = None ->
  map member_id (updateCharacter id updates cast) = map member_id cast.
Proof.
  intros Hid. unfold updateCharacter. rewrite List.map_map.
  apply List.map_ext. intros c.
  destruct (member_id c =? id); [|reflexivity].
  unfold updated. rewrite Hid. reflexivity.
Qed.

Lemma updateCharacter_names id updates cast :
  set_name updates = None ->
  map member_name (updateCharacter id updates cast) = map member_name cast.
Proof.
  intros Hname. unfold updateCharacter. rewrite List.map_map.
  apply List.map_ext. intros c.
  destruct (member_id c =? id); [|reflexivity].
  unfold updated. rewrite Hname. reflexivity.
Qed.

Lemma commit_staffed previous next :
  staffed previous ->
  (1 <= length next <= 4)%nat ->
  List.NoDup (map member_id next) ->
  (length previous = length next ->
   forall c, next = [c] -> member_name c = "Narrator") ->
  staffed (commit previous next).
Proof.
  intros Hprev Hlen Hids Hsame. unfold commit.
  destruct (Nat.eqb_spec (length previous) (length next)) as [Heq|Hne].
  - split; [exact Hlen|]. split; [exact Hids|]. exact (Hsame Heq).
  - apply syncNarrator_staffed; assumption.
Qed.

Lemma edit_staffed cast e :
  staffed cast -> editable cast e -> staffed (edit cast e).
Proof.
  intros Hst He. pose proof Hst as (Hlen & Hids & Hlone). unfold edit.
  destruct e as [uuid voices|id|id name|id voice]; cbn [editable] in He.
  - unfold handleAddCharacter.
    destruct (Nat.leb_spec 4 (length cast)) as [Hfull|Hroom];
      [cbn; unfold commit; rewrite Nat.eqb_refl; exact Hst|].
    destruct voices as [|v voices];
      [cbn; unfold commit; rewrite Nat.eqb_refl; exact Hst|].
    cbv beta iota zeta delta [from_option Datatypes.id].
    apply commit_staffed; [exact Hst| | |].
    + rewrite length_app. cbn. lia.
    + rewrite map_app. cbn. apply List.NoDup_app; repeat split.
      * exact Hids.
      * repeat constructor. intros [].
      * intros x Hx [<-|[]]. contradiction.
    + rewrite length_app. cbn. lia.
  - unfold handleDeleteCharacter.
    destruct (Nat.leb_spec (length cast) 1) as [Hone|Hmore];
      [unfold commit; rewrite Nat.eqb_refl; exact Hst|].
    pose proof (filter_one id cast Hids) as Hleft.
    pose proof (List.filter_length_le
                  (fun c => negb (member_id c =? id)) cast) as Hle.
    apply commit_staffed; [exact Hst|lia|apply filter_ids, Hids|].
    intros Heq c Hc. rewrite Hc in Heq. cbn in Heq. lia.
  - apply commit_staffed; [exact Hst| | |].
    + unfold updateCharacter. rewrite length_map. exact Hlen.
    + rewrite updateCharacter_ids by reflexivity. exact Hids.
    + unfold updateCharacter. rewrite length_map. intros _ c Hc.
      apply (f_equal (@length _)) in Hc. rewrite length_map in Hc.
      cbn in Hc. contradiction.
  - apply commit_staffed; [exact Hst| | |].
    + unfold updateCharacter. rewrite length_map. exact Hlen.
    + rewrite updateCharacter_ids by reflexivity. exact Hids.
    + intros _ c Hc.
      pose proof (updateCharacter_names id
                    {| set_id := None; set_name := None;
                       set_voiceId := Some voice |} cast eq_refl) as Hnames.
      rewrite Hc in Hnames. cbn in Hnames.
      destruct cast as [|d [|d' cast]]; try discriminate Hnames.
      injection Hnames as ->. apply (Hlone d eq_refl).
Qed.

(** X20.  A cast that starts with one to four members of different ids
    stays that way under every sequence of additions, deletions, renamings
    and changes of voice that the panel allows, new members getting fresh
    ids: it never becomes empty, never exceeds four, and whenever it has a
    single member, that member is called "Narrator". *)
Theorem cast_stays_staffed es cast :
  (1 <= length cast <= 4)%nat ->
  List.NoDup (map member_id cast) ->
  edited (syncNarrator cast) es ->
  staffed (edits (syncNarrator cast) es).
Proof.
  intros Hlen Hids.
  pose proof (syncNarrator_staffed cast Hlen Hids) as Hst.
  generalize dependent (syncNarrator cast). clear.
  induction es as [|e es IH]; intros cast Hst Hed; [exact Hst|].
  destruct Hed as [He Hrest]. cbn. apply IH; [|exact Hrest].
  apply edit_staffed; assumption.
Qed.

(** A second character is added and renamed, then the narrator is
    deleted. *)
Lemma cast_stays_staffed_witness :
  let cast := [{| member_id := "m1"; member_name := "Narrator";
                  voiceId := "v1" |}] in
  let es := [AddCharacter "m2" [Scenes.puck]; NameChanged "m2" "Bob";
             DeleteCharacter "m1"] in
  (1 <= length cast <= 4)%nat /\ List.NoDup (map member_id cast)
  /\ edited (syncNarrator cast) es
  /\ edits (syncNarrator cast) es
     = [{| member_id := "m2"; member_name := "Narrator"; voiceId := "v1" |}]
  /\ staffed (edits (syncNarrator cast) es).
Proof.
  intros cast es.
  assert (H1 : (1 <= length cast <= 4)%nat) by (cbn; lia).
  assert (H2 : List.NoDup (map member_id cast))
    by (repeat constructor; intros []).
  assert (H3 : edited (syncNarrator cast) es).
  { cbn. repeat split; try discriminate. intros [H|[]]. discriminate H. }
  split; [exact H1|]. split; [exact H2|]. split; [exact H3|].
  split; [reflexivity|]. exact (cast_stays_staffed es cast H1 H2 H3).
Defined.

End StoryProps.

(** ** components/AgentBuilder.tsx: the voices *)
Module BuilderProps.
Import Types Schema Database AgentBuilder.
Local Open Scope string_scope.

Section Builder.
Variable DEFAULT_VOICES : list VoiceOption.
Variable DEFAULT_INSTRUCTION : string.

Lemma In_ids_filter id (P : VoiceOption -> bool) l :
  In id (map voice_id l) -> (forall v, voice_id v = id -> P v = true) ->
  In id (map voice_id (List.filter P l)).
Proof.
  intros Hin HP. apply List.in_map_iff in Hin as (v & Hv & Hin).
  apply List.in_map_iff. exists v. split; [exact Hv|].
  apply List.filter_In. auto.
Qed.

Lemma initial_anchored st :
  initial DEFAULT_VOICES DEFAULT_INSTRUCTION = Some st -> anchored DEFAULT_VOICES st.
Proof.
  unfold anchored, initial, firstDefault.
  destruct DEFAULT_VOICES as [|v l]; [discriminate|].
  cbn. intros [= <-]. cbn. split; [intros d0 [= <-]|]; auto.
Qed.

Lemma loadSavedVoices_anchored db st :
  voices st = DEFAULT_VOICES -> anchored DEFAULT_VOICES st ->
  anchored DEFAULT_VOICES (loadSavedVoices DEFAULT_VOICES db st).
Proof.
  intros Hv [Hd Hs]. unfold loadSavedVoices.
  destruct (0 <? length (getCustomVoices db))%nat; [|split; assumption].
  assert (Hkeep : forall id, In id (map voice_id DEFAULT_VOICES) ->
    In id (map voice_id
             (List.filter
                (fun dv => negb (existsb (fun sv => voice_id sv =? voice_id dv)
                                   (getCustomVoices db)))
                DEFAULT_VOICES ++ getCustomVoices db)%list)).
  { intros id Hin. rewrite map_app. apply List.in_or_app.
    destruct (existsb (fun sv => voice_id sv =? id) (getCustomVoices db))
      eqn:E.
    - right. apply List.existsb_exists in E as (sv & Hsv & Heq).
      apply String.eqb_eq in Heq. apply List.in_map_iff. eauto.
    - left. apply In_ids_filter; [exact Hin|]. intros v <-. rewrite E.
      reflexivity. }
  rewrite Hv in Hd, Hs. split; cbn; auto.
Qed.

Lemma act_anchored sd a :
  is_Some (firstDefault DEFAULT_VOICES) ->
  anchored DEFAULT_VOICES (fst sd) -> onPage (fst sd) a ->
  sparesFirstDefault DEFAULT_VOICES a ->
  anchored DEFAULT_VOICES (fst (act DEFAULT_VOICES sd a)).
Proof.
  destruct sd as [st db]. cbn [fst]. intros [d0 E0] [Hd Hs] Hpage Hspare.
  destruct a as [id|uuid form|[|] id|value|value|now result];
    unfold act, handleSaveVoice, handleDeleteVoice, analyzeVoice, anchored;
    cbn [fst snd voices selectedVoiceId onPage sparesFirstDefault] in *.
  - split; assumption.
  - set (voice := newVoice uuid form).
    assert (Hkeep : forall id, In id (map voice_id (voices st)) ->
      In id (map voice_id
               (List.filter (fun v => negb (voice_id v =? voice_id voice))
                  (voices st) ++ [voice])%list)).
    { intros id Hin. rewrite map_app. apply List.in_or_app.
      destruct (String.eqb_spec id (voice_id voice)) as [->|Hne];
        [right; left; reflexivity|left].
      apply In_ids_filter; [exact Hin|]. intros v <-.
      apply Bool.negb_true_iff, String.eqb_neq, Hne. }
    split; [intros d H0; apply Hkeep, Hd, H0|].
    rewrite map_app. apply List.in_or_app. right. left. reflexivity.
  - assert (Hkeep : forall x, x <> id -> In x (map voice_id (voices st)) ->
      In x (map voice_id
              (List.filter (fun v => negb (voice_id v =? id)) (voices st)))).
    { intros x Hne Hin. apply In_ids_filter; [exact Hin|]. intros v <-.
      apply Bool.negb_true_iff, String.eqb_neq, Hne. }
    split.
    + intros d H0. apply Hkeep; [|apply Hd, H0]. congruence.
    + destruct (String.eqb_spec (selectedVoiceId st) id) as [Heq|Hne].
      * rewrite E0. cbn. apply Hkeep; [congruence|apply Hd; exact E0].
      * apply Hkeep; assumption.
  - split; assumption.
  - split; assumption.
  - split; assumption.
  - rewrite map_app. split.
    + intros d H0. apply List.in_or_app. left. apply Hd, H0.
    + apply List.in_or_app. right. left. reflexivity.
Qed.

Lemma acts_anchored actions : forall sd,
  is_Some (firstDefault DEFAULT_VOICES) ->
  anchored DEFAULT_VOICES (fst sd) -> offered DEFAULT_VOICES sd actions ->
  anchored DEFAULT_VOICES (fst (acts DEFAULT_VOICES sd actions)).
Proof.
  induction actions as [|a actions IH]; intros sd H0 Hanch Hoff; [exact Hanch|].
  destruct Hoff as (Hpage & Hspare & Hrest). cbn. apply IH; [exact H0| |exact Hrest].
  apply act_anchored; assumption.
Qed.

Lemma find_by_id id l :
  In id (map voice_id l) ->
  exists v, List.find (fun v => voice_id v =? id) l = Some v
            /\ In v l /\ voice_id v = id.
Proof.
  intros Hin. apply List.in_map_iff in Hin as (w & Hw & Hin).
  destruct (List.find (fun v => voice_id v =? id) l) as [v|] eqn:E.
  - exists v. split; [reflexivity|].
    apply List.find_some in E as [Hv Heq]. apply String.eqb_eq in Heq. auto.
  - pose proof (List.find_none _ _ E w Hin) as Hno. cbn in Hno.
    apply String.eqb_neq in Hno. contradiction.
Qed.

(** X21.  From the builder as first shown, once the vault has been loaded
    and whatever is done afterwards (cards selected, name and instruction
    typed, voices saved, cloned and deleted), as long as the first default
    voice is not deleted: the selected voice is a card of the list, and
    [handleStart] hands [onComplete] an agent with the name and instruction
    of the form and the API voice, speed, pitch and colour of that card. *)
Theorem start_finds_the_selected_voice st0 db actions uuid mode :
  initial DEFAULT_VOICES DEFAULT_INSTRUCTION = Some st0 ->
  let sd0 := (loadSavedVoices DEFAULT_VOICES db st0, db) in
  offered DEFAULT_VOICES sd0 actions ->
  let st := fst (acts DEFAULT_VOICES sd0 actions) in
  exists v,
    In v (voices st) /\ voice_id v = selectedVoiceId st
    /\ handleStart uuid mode st
       = Some ({| id := uuid; Types.name := name st; voice := apiId v;
                  voiceSettings :=
                    Some {| speed := voice_speed v; pitch := voice_pitch v |};
                  systemInstruction := instruction st;
                  avatarColor := color v |}, mode).
Proof.
  intros Hinit sd0 Hoff st.
  assert (H0 : is_Some (firstDefault DEFAULT_VOICES)).
  { unfold initial in Hinit.
    destruct (firstDefault DEFAULT_VOICES); [eauto|discriminate]. }
  assert (Hanch : anchored DEFAULT_VOICES st).
  { apply acts_anchored; [exact H0| |exact Hoff]. cbn [fst sd0].
    apply loadSavedVoices_anchored; [|apply initial_anchored, Hinit].
    unfold initial in Hinit.
    destruct (firstDefault DEFAULT_VOICES); [|discriminate].
    injection Hinit as <-. reflexivity. }
  destruct Hanch as [_ Hsel].
  destruct (find_by_id _ _ Hsel) as (v & Hfind & Hin & Hid).
  exists v. split; [exact Hin|]. split; [exact Hid|].
  unfold handleStart. rewrite Hfind. reflexivity.
Qed.

(** X22.  Once the first default voice has been edited and saved it is a
    card of the vault; when it is deleted there, the selection stays on its
    id, no card of the list has that id any more, and [handleStart] returns
    without calling [onComplete], whatever the mode. *)
Theorem deleting_the_first_default_disables_start st db uuid form v :
  editingVoice form = Some v ->
  firstDefault DEFAULT_VOICES = Some (voice_id v) ->
  let saved := handleSaveVoice uuid form st db in
  let deleted :=
    handleDeleteVoice DEFAULT_VOICES true (voice_id v) (fst saved)
      (snd saved) in
  In (voice_id v) (map voice_id (customSavedVoices (fst saved)))
  /\ selectedVoiceId (fst deleted) = voice_id v
  /\ ~ In (voice_id v) (map voice_id (voices (fst deleted)))
  /\ (forall uuid' mode, handleStart uuid' mode (fst deleted) = None).
Proof.
  intros Hedit Hfirst saved deleted.
  assert (Hid : voice_id (newVoice uuid form) = voice_id v)
    by (unfold newVoice; cbn; rewrite Hedit; reflexivity).
  assert (Hgone : ~ In (voice_id v) (map voice_id (voices (fst deleted)))).
  { unfold deleted, handleDeleteVoice. cbn [fst voices].
    intros Hin. apply List.in_map_iff in Hin as (w & Hw & Hin).
    apply List.filter_In in Hin as [_ Hne].
    apply Bool.negb_true_iff, String.eqb_neq in Hne. contradiction. }
  assert (Hsel : selectedVoiceId (fst deleted) = voice_id v).
  { unfold deleted, handleDeleteVoice, saved, handleSaveVoice.
    cbn [fst snd selectedVoiceId]. rewrite Hid, String.eqb_refl, Hfirst.
    reflexivity. }
  split; [|split; [exact Hsel|split; [exact Hgone|]]].
  - unfold saved, handleSaveVoice, customSavedVoices. cbn [fst voices].
    rewrite List.filter_app, map_app. apply List.in_or_app. right.
    cbn. left. exact Hid.
  - intros uuid' mode. unfold handleStart. rewrite Hsel.
    destruct (List.find (fun w => voice_id w =? voice_id v)
                (voices (fst deleted))) as [w|] eqn:E; [|reflexivity].
    apply List.find_some in E as [Hin Heq]. apply String.eqb_eq in Heq.
    destruct Hgone. apply List.in_map_iff. eauto.
Qed.

Lemma existsb_id id (l : list VoiceOption) :
  existsb (fun v => voice_id v =? id) l = true <-> In id (map voice_id l).
Proof.
  rewrite List.existsb_exists, List.in_map_iff. split.
  - intros (v & Hv & Heq). apply String.eqb_eq in Heq. eauto.
  - intros (v & Heq & Hv). exists v. split; [exact Hv|].
    apply String.eqb_eq, Heq.
Qed.

Lemma merge_In custom : forall merged v,
  List.NoDup (map voice_id custom) ->
  In v (fold_left
          (fun merged cv =>
             if existsb (fun mv => voice_id mv =? voice_id cv) merged
             then merged else (merged ++ [cv])%list)
          custom merged)
  <-> In v merged
      \/ (In v custom /\ ~ In (voice_id v) (map voice_id merged)).
Proof.
  induction custom as [|c custom IH]; intros merged v Hids; cbn [fold_left].
  - cbn. tauto.
  - cbn in Hids. apply List.NoDup_cons_iff in Hids as [Hnew Hids].
    rewrite (IH _ v Hids).
    assert (Hother : In v custom -> voice_id v <> voice_id c).
    { intros Hin Heq. apply Hnew. rewrite <- Heq.
      apply List.in_map_iff. eauto. }
    destruct (existsb (fun mv => voice_id mv =? voice_id c) merged) eqn:E.
    + apply existsb_id in E. cbn. split.
      * intros [?|[? ?]]; auto.
      * intros [?|[[<-|?] Hno]]; auto. contradiction.
    + assert (Hc : ~ In (voice_id c) (map voice_id merged)).
      { intros Hin. apply existsb_id in Hin. congruence. }
      rewrite map_app, !List.in_app_iff. cbn. split.
      * intros [[?|[<-|[]]]|[Hin Hno]]; auto.
        right. split; [auto|]. intros Hm. apply Hno. auto.
      * intros [?|[[<-|Hin] Hno]]; auto.
        right. split; [exact Hin|]. intros [?|[Heq|[]]]; [auto|].
        apply (Hother Hin). congruence.
Qed.

(** X24.  The two pages that list the voices merge the vault differently.
    The story page lists every default voice and the voices of the vault
    whose id no default has; the builder lists, once the vault holds
    something, every voice of the vault and the defaults whose id the vault
    does not hold.  So a default voice that was edited and saved is listed
    as saved by the builder and as it was by the story page. *)
Theorem the_pages_merge_the_vault_differently db st v :
  wellKeyed db ->
  (In v (Story.loadVoices DEFAULT_VOICES db) <->
     In v DEFAULT_VOICES
     \/ (In v (getCustomVoices db)
         /\ ~ In (voice_id v) (map voice_id DEFAULT_VOICES)))
  /\ (getCustomVoices db <> [] ->
      (In v (voices (loadSavedVoices DEFAULT_VOICES db st)) <->
         In v (getCustomVoices db)
         \/ (In v DEFAULT_VOICES
             /\ ~ In (voice_id v) (map voice_id (getCustomVoices db)))))
  /\ (getCustomVoices db = [] ->
      Story.loadVoices DEFAULT_VOICES db = DEFAULT_VOICES
      /\ loadSavedVoices DEFAULT_VOICES db st = st).
Proof.
  intros (_ & _ & Hv). split; [|split].
  - unfold Story.loadVoices. apply merge_In.
    apply StoreProps.ordered_NoDup, Hv.
  - intros Hsome. unfold loadSavedVoices.
    destruct (getCustomVoices db) as [|c custom] eqn:E; [congruence|].
    cbn [length Nat.ltb Nat.leb voices].
    rewrite List.in_app_iff, List.filter_In, Bool.negb_true_iff.
    split.
    + intros [[Hd Hno]|Hc]; [right|left; exact Hc].
      split; [exact Hd|]. intros Hin. apply existsb_id in Hin. congruence.
    + intros [Hc|[Hd Hno]]; [right; exact Hc|left].
      split; [exact Hd|].
      destruct (existsb (fun sv => voice_id sv =? voice_id v) (c :: custom))
        eqn:Ex; [|reflexivity].
      apply existsb_id in Ex. contradiction.
  - intros Hnone. unfold Story.loadVoices, loadSavedVoices. rewrite Hnone.
    split; reflexivity.
Qed.

End Builder.

(** The vault holds a slower version of the first default voice. *)
Lemma the_pages_merge_the_vault_differently_witness :
  let defaults := [Scenes.puck; Scenes.kore] in
  let slow :=
    {| voice_id := "v1"; apiId := "Kore"; voice_name := "Puck";
       gender := Male; description := "Playful"; color := "from-cyan-400";
       voice_speed := 9 # 10; voice_pitch := 0; isCustom := Some true |} in
  let db := saveCustomVoice slow empty in
  let st := {| name := "Nexus-7"; instruction := "Be brief.";
               voices := defaults; selectedVoiceId := "v1" |} in
  wellKeyed db
  /\ Story.loadVoices defaults db = [Scenes.puck; Scenes.kore]
  /\ voices (loadSavedVoices defaults db st) = [Scenes.kore; slow]
  /\ ~ In slow (Story.loadVoices defaults db).
Proof.
  intros defaults slow db st.
  assert (H : wellKeyed db).
  { apply (DatabaseProps.writes_wellKeyed [SaveCustomVoice slow] empty).
    apply DatabaseProps.empty_wellKeyed. }
  split; [exact H|]. split; [reflexivity|]. split; [reflexivity|].
  intros Hin.
  apply (the_pages_merge_the_vault_differently defaults db st slow H) in Hin.
  destruct Hin as [[Heq|[Heq|[]]]|[_ Hno]]; try discriminate Heq.
  apply Hno. left. reflexivity.
Defined.

(** The vault is loaded, a voice is created and the other default is
    selected. *)
Lemma start_finds_the_selected_voice_witness :
  let defaults := [Scenes.puck; Scenes.kore] in
  let st0 := {| name := "Nexus-7"; instruction := "Be brief.";
                voices := defaults; selectedVoiceId := "v1" |} in
  let form := {| editingVoice := None; formName := "Echo"; formDesc := "";
                 formGender := Neutral; formBaseVoice := "Kore";
                 formColor := "from-red-500"; formSpeed := 1;
                 formPitch := 0 |} in
  let result := {| suggestedName := "Echo"; baseVoice := "Zephyr";
                   result_speed := 1; result_pitch := 0;
                   result_description := ""; result_systemInstruction := "";
                   result_gender := Neutral |} in
  let actions := [SaveVoice "v9" form; Clone 1700 result;
                  DeleteVoice true "v9"; NameTyped "Echo"; Select "v2"] in
  initial defaults "Be brief." = Some st0
  /\ offered defaults (loadSavedVoices defaults Scenes.shelf st0, Scenes.shelf)
       actions
  /\ exists agent,
       handleStart "a-1" App.TTS
         (fst (acts defaults
                 (loadSavedVoices defaults Scenes.shelf st0, Scenes.shelf)
                 actions))
       = Some (agent, App.TTS)
       /\ voice agent = "Kore".
Proof.
  intros defaults st0 form result actions.
  assert (H1 : initial defaults "Be brief." = Some st0) by reflexivity.
  assert (H2 : offered defaults
                 (loadSavedVoices defaults Scenes.shelf st0, Scenes.shelf)
                 actions).
  { cbn. repeat split; try discriminate. auto. }
  split; [exact H1|]. split; [exact H2|].
  destruct (start_finds_the_selected_voice defaults "Be brief." st0
              Scenes.shelf actions "a-1" App.TTS H1 H2)
    as (v & Hin & Hid & Hstart).
  eexists. split; [exact Hstart|].
  vm_compute in Hin. vm_compute in Hid.
  destruct Hin as [<-|[<-|[<-|[]]]];
    [discriminate Hid|reflexivity|discriminate Hid].
Defined.

(** The first default voice is slowed down, saved and deleted. *)
Lemma deleting_the_first_default_disables_start_witness :
  let defaults := [Scenes.puck; Scenes.kore] in
  let st0 := {| name := "Nexus-7"; instruction := "Be brief.";
                voices := defaults; selectedVoiceId := "v2" |} in
  let form := {| editingVoice := Some Scenes.puck; formName := "Puck";
                 formDesc := "Playful"; formGender := Male;
                 formBaseVoice := "Puck"; formColor := "from-cyan-400";
                 formSpeed := 9 # 10; formPitch := 0 |} in
  editingVoice form = Some Scenes.puck
  /\ firstDefault defaults = Some (voice_id Scenes.puck)
  /\ handleStart "a-1" App.LiveMode
       (fst (handleDeleteVoice defaults true "v1"
               (fst (handleSaveVoice "v9" form st0 empty))
               (snd (handleSaveVoice "v9" form st0 empty)))) = None.
Proof.
  intros defaults st0 form.
  assert (H1 : editingVoice form = Some Scenes.puck) by reflexivity.
  assert (H2 : firstDefault defaults = Some (voice_id Scenes.puck))
    by reflexivity.
  split; [exact H1|]. split; [exact H2|].
  destruct (deleting_the_first_default_disables_start defaults st0 empty
              "v9" form Scenes.puck H1 H2) as (_ & _ & _ & Hnone).
  apply Hnone.
Defined.

End BuilderProps.

(** ** components/Visualizer.tsx *)
Module VisualizerProps.
Import Visualizer.
Local Open Scope Q_scope.

Lemma draw_level level isActive l :
  currentLevel (snd (draw level isActive l))
  = currentLevel l + (level - currentLevel l) * (2 # 10).
Proof.
  unfold draw.
  destruct (negb isActive || JS.gt (1 # 100) _)%bool; reflexivity.
Qed.

Lemma frames_bounds level isActive n :
  0 <= level ->
  0 <= currentLevel (frames level isActive n) <= level.
Proof.
  intros Hlevel. induction n as [|n IH]; cbn [frames].
  - cbn. split; [apply Qle_refl|exact Hlevel].
  - rewrite draw_level. destruct IH as [Hlo Hhi].
    set (c := currentLevel (frames level isActive n)) in *.
    split; lra.
Qed.

Lemma gt_spec a b : JS.gt a b = true <-> b < a.
Proof.
  unfold JS.gt. rewrite Bool.negb_true_iff. split.
  - intros H. apply Qnot_le_lt. intros Hle.
    apply Qle_bool_iff in Hle. congruence.
  - intros H. destruct (Qle_bool a b) eqn:E; [|reflexivity].
    apply Qle_bool_iff in E. apply Qlt_not_le in H. contradiction.
Qed.

(** X23.  The level the loop draws moves a fifth of the way towards the
    level it is given at every frame: it starts at zero, never falls and
    never overshoots.  So a level below 0.01 never shows a wave, and
    neither does a visualizer that is not active; an active one draws a
    wave at every frame, the first one too, for a level of 0.05 or more. *)
Theorem quiet_levels_draw_a_flat_line level isActive n :
  0 <= level ->
  let l := frames level isActive n in
  0 <= currentLevel l <= level
  /\ currentLevel l <= currentLevel (frames level isActive (S n))
  /\ (level < 1 # 100 -> fst (draw level isActive l) = FlatLine)
  /\ (isActive = false -> fst (draw level isActive l) = FlatLine)
  /\ (isActive = true -> 5 # 100 <= level ->
      fst (draw level isActive l) = Wave).
Proof.
  intros Hlevel l.
  pose proof (frames_bounds level isActive n Hlevel) as [Hlo Hhi].
  fold l in Hlo, Hhi.
  split; [split; assumption|]. split; [|split; [|split]].
  - cbn [frames]. rewrite draw_level. fold l. lra.
  - intros Hquiet. unfold draw.
    assert (Hgt : JS.gt (1 # 100)
                    (currentLevel l + (level - currentLevel l) * (2 # 10))
                  = true) by (apply gt_spec; lra).
    rewrite Hgt, Bool.orb_true_r. reflexivity.
  - intros ->. reflexivity.
  - intros -> Hloud. unfold draw. cbn [negb orb].
    destruct (JS.gt (1 # 100)
                (currentLevel l + (level - currentLevel l) * (2 # 10)))
      eqn:Hgt; [|reflexivity].
    apply gt_spec in Hgt. lra.
Qed.

(** Half a percent, and a quarter, after three frames. *)
Lemma quiet_levels_draw_a_flat_line_witness :
  0 <= 5 # 1000
  /\ fst (draw (5 # 1000) true (frames (5 # 1000) true 3)) = FlatLine
  /\ fst (draw (1 # 4) true (frames (1 # 4) true 3)) = Wave.
Proof.
  assert (H : 0 <= 5 # 1000) by discriminate.
  split; [exact H|].
  split.
  - destruct (quiet_levels_draw_a_flat_line (5 # 1000) true 3 H)
      as (_ & _ & Hquiet & _).
    apply Hquiet. reflexivity.
  - assert (H' : 0 <= 1 # 4) by discriminate.
    destruct (quiet_levels_draw_a_flat_line (1 # 4) true 3 H')
      as (_ & _ & _ & _ & Hloud).
    apply Hloud; [reflexivity|discriminate].
Defined.

End VisualizerProps.

(** ** components/StoryInterface.tsx: playback *)
Module PlayerProps.
Import Player.
Local Open Scope Q_scope.

Lemma start_accepts offset : 0 <= offset -> JS.gt 0 offset = false.
Proof.
  intros H. destruct (JS.gt 0 offset) eqn:E; [|reflexivity].
  apply VisualizerProps.gt_spec in E. lra.
Qed.

Lemma stopAt_length k l : length (stopAt k l) = length l.
Proof. unfold stopAt. apply length_alter. Qed.

(** [pausePlayback] on a page that holds a source and shows it playing. *)
Lemma pausePlayback_spec s paused k :
  isPlaying s = true -> audioContextRef s = true ->
  voiceSourceRef s = Some k ->
  pausePlayback paused s
  = {| currentAudioData := currentAudioData s;
         audioContextRef := true;
       voiceSourceRef := None;
       startTimeRef := startTimeRef s;
       savedOffsetRef := savedOffsetRef s + (paused - startTimeRef s) * 1;
       isManualStopRef := true;
       isPlaying := false;
       isPaused := true;
       sources := stopAt k (sources s) |}.
Proof.
  destruct s as [data ctx ref start saved manual play pause srcs]. cbn.
  intros -> -> ->. reflexivity.
Qed.

(** [playAudioData] on a page that holds no source. *)
Lemma playAudioData_spec s now offset sample samples :
  voiceSourceRef s = None -> 0 <= offset ->
  playAudioData (Some (sample :: samples)) now offset s
  = {| currentAudioData := currentAudioData s;
         audioContextRef := true;
       voiceSourceRef := Some (length (sources s));
       startTimeRef := now;
       savedOffsetRef := savedOffsetRef s;
       isManualStopRef := false;
       isPlaying := true;
       isPaused := false;
       sources :=
         (sources s ++ [{| offset := offset; stopped := false |}])%list |}.
Proof.
  intros Href Hoff. unfold playAudioData. cbn [length Nat.eqb orb].
  rewrite Href, (start_accepts _ Hoff). reflexivity.
Qed.

(** [playAudioData] on a page that still holds a source. *)
Lemma playAudioData_held s now offset k sample samples :
  voiceSourceRef s = Some k -> 0 <= offset ->
  playAudioData (Some (sample :: samples)) now offset s
  = {| currentAudioData := currentAudioData s;
         audioContextRef := true;
       voiceSourceRef := Some (length (stopAt k (sources s)));
       startTimeRef := now;
       savedOffsetRef := savedOffsetRef s;
       isManualStopRef := false;
       isPlaying := true;
       isPaused := false;
       sources :=
         (stopAt k (sources s)
            ++ [{| offset := offset; stopped := false |}])%list |}.
Proof.
  intros Href Hoff. unfold playAudioData, stopPlayback.
  cbn [length Nat.eqb orb].
  rewrite Href, (start_accepts _ Hoff). reflexivity.
Qed.

Lemma onended_natural s :
  isManualStopRef s = false ->
  onended s
  = {| currentAudioData := currentAudioData s;
         audioContextRef := audioContextRef s;
       voiceSourceRef := voiceSourceRef s;
       startTimeRef := startTimeRef s;
       savedOffsetRef := 0;
       isManualStopRef := false;
       isPlaying := false;
       isPaused := false;
       sources := sources s |}.
Proof. intros H. unfold onended. rewrite H. reflexivity. Qed.

Lemma onended_manual s : isManualStopRef s = true -> onended s = s.
Proof. intros H. unfold onended. rewrite H. reflexivity. Qed.

(** One round from a playing source: pause, the [ended] event, play. *)
Lemma round_spec s paused resumed :
  playing s -> 0 <= savedOffsetRef s -> startTimeRef s <= paused ->
  let s' := round s (paused, resumed) in
  playing s'
  /\ savedOffsetRef s' = savedOffsetRef s + (paused - startTimeRef s) * 1
  /\ startTimeRef s' = resumed
  /\ isPaused s' = false
  /\ length (sources s') = S (length (sources s))
  /\ (forall k, voiceSourceRef s = Some k ->
        sources s' !! k = Some {| offset := savedOffsetRef s;
                                  stopped := true |}).
Proof.
  intros (Hplay & Hctx & (k & Hk & Hsrc) & sample & samples & Hdata) Hoff Hasc.
  assert (Hnew : 0 <= savedOffsetRef s + (paused - startTimeRef s) * 1)
    by lra.
  assert (Hlen : length (stopAt k (sources s)) = length (sources s))
    by apply stopAt_length.
  assert (Hround : round s (paused, resumed)
    = {| currentAudioData := currentAudioData s;
         audioContextRef := true;
         voiceSourceRef := Some (length (stopAt k (sources s)));
         startTimeRef := resumed;
         savedOffsetRef := savedOffsetRef s + (paused - startTimeRef s) * 1;
         isManualStopRef := false;
         isPlaying := true;
         isPaused := false;
         sources :=
           (stopAt k (sources s)
              ++ [{| offset :=
                       savedOffsetRef s + (paused - startTimeRef s) * 1;
                     stopped := false |}])%list |}).
  { unfold round, playPressed. cbn [fst snd].
    rewrite (pausePlayback_spec _ _ _ Hplay Hctx Hk).
    rewrite onended_manual by reflexivity.
    cbn [currentAudioData]. rewrite Hdata.
    rewrite playAudioData_spec by (cbn [savedOffsetRef]; auto).
    reflexivity. }
  cbn zeta. rewrite Hround.
  cbn [savedOffsetRef startTimeRef isPaused sources voiceSourceRef].
  split; [|split; [reflexivity|split; [reflexivity|split; [reflexivity|split]]]].
  - split; [reflexivity|]. split; [reflexivity|]. split.
    + eexists. split; [reflexivity|]. cbn [sources savedOffsetRef].
      rewrite lookup_app_r by lia. rewrite Nat.sub_diag. reflexivity.
    + exists sample, samples. exact Hdata.
  - rewrite length_app, Hlen. cbn. lia.
  - intros k' Hk'. rewrite Hk in Hk'. injection Hk' as <-.
    rewrite lookup_app_l
      by (rewrite Hlen; eapply lookup_lt_Some; exact Hsrc).
    unfold stopAt. rewrite list_lookup_alter, Hsrc.
    destruct (decide (k = k)); [reflexivity|contradiction].
Qed.

(** X25.  While the [ended] event of a paused source is delivered before
    the next press, pausing and playing resumes where the audio stopped:
    after any number of rounds of pause and play, at clock readings that do
    not run backwards, a source is playing that was started at the saved
    offset, the saved offset is the one before plus the seconds heard
    since, and each round has started exactly one source. *)
Theorem resume_starts_where_the_pause_stopped presses : forall s,
  playing s -> 0 <= savedOffsetRef s -> ascending (startTimeRef s) presses ->
  let s' := listen s presses in
  playing s'
  /\ savedOffsetRef s' == savedOffsetRef s + heard (startTimeRef s) presses
  /\ isPaused s' = match presses with [] => isPaused s | _ => false end
  /\ length (sources s') = (length (sources s) + length presses)%nat.
Proof.
  induction presses as [|[paused resumed] presses IH]; intros s Hplay Hoff Hasc.
  - cbn. split; [exact Hplay|]. split; [lra|].
    split; [reflexivity|lia].
  - destruct Hasc as [Hfirst Hrest]. cbn [fst snd] in Hfirst, Hrest.
    destruct (round_spec s paused resumed Hplay Hoff Hfirst)
      as (Hplay' & Hsaved & Hstart & Hpaused & Hlen & _).
    assert (Hoff' : 0 <= savedOffsetRef (round s (paused, resumed)))
      by (rewrite Hsaved; lra).
    rewrite <- Hstart in Hrest.
    destruct (IH _ Hplay' Hoff' Hrest) as (Hp & Hs & Hpa & Hl).
    change (listen s ((paused, resumed) :: presses))
      with (listen (round s (paused, resumed)) presses).
    cbn [heard fst snd length].
    split; [exact Hp|]. split; [|split].
    + rewrite Hs, Hsaved, Hstart. lra.
    + rewrite Hpa, Hpaused. destruct presses; reflexivity.
    + rewrite Hl, Hlen. cbn. lia.
Qed.

(** X26.  The [ended] handler reads one flag for all sources, and play
    clears it.  So when play is pressed before the [ended] event of the
    source that the pause stopped has been delivered, that event marks the
    page as neither playing nor paused and rewinds the saved offset to
    zero, while the source just started goes on playing; the play button is
    then enabled, and pressing it stops that source and starts the audio
    from the beginning. *)
Theorem late_ended_event_rewinds_the_player s paused resumed again :
  playing s -> 0 <= savedOffsetRef s -> startTimeRef s <= paused ->
  let resumedAt := savedOffsetRef s + (paused - startTimeRef s) * 1 in
  let s1 := onended (playPressed resumed (pausePlayback paused s)) in
  let s2 := playPressed again s1 in
  isPlaying s1 = false /\ isPaused s1 = false /\ savedOffsetRef s1 = 0
  /\ voiceSourceRef s1 = Some (length (sources s))
  /\ sources s1 !! length (sources s)
     = Some {| offset := resumedAt; stopped := false |}
  /\ sources s2 !! length (sources s)
     = Some {| offset := resumedAt; stopped := true |}
  /\ voiceSourceRef s2 = Some (S (length (sources s)))
  /\ sources s2 !! S (length (sources s))
     = Some {| offset := 0; stopped := false |}
  /\ isPlaying s2 = true.
Proof.
  intros (Hplay & Hctx & (k & Hk & Hsrc) & sample & samples & Hdata)
    Hoff Hasc resumedAt.
  assert (Hnew : 0 <= resumedAt) by (unfold resumedAt; lra).
  assert (Hlen : length (stopAt k (sources s)) = length (sources s))
    by apply stopAt_length.
  set (heldSources :=
         (stopAt k (sources s)
            ++ [{| offset := resumedAt; stopped := false |}])%list).
  assert (Hs1 : onended (playPressed resumed (pausePlayback paused s))
    = {| currentAudioData := currentAudioData s;
         audioContextRef := true;
         voiceSourceRef := Some (length (sources s));
         startTimeRef := resumed;
         savedOffsetRef := 0;
         isManualStopRef := false;
         isPlaying := false;
         isPaused := false;
         sources := heldSources |}).
  { unfold playPressed.
    rewrite (pausePlayback_spec _ _ _ Hplay Hctx Hk).
    cbn [currentAudioData]. rewrite Hdata.
    rewrite playAudioData_spec by (cbn [savedOffsetRef]; auto).
    rewrite onended_natural by reflexivity.
    cbn [currentAudioData audioContextRef voiceSourceRef startTimeRef sources
         savedOffsetRef].
    rewrite Hlen. reflexivity. }
  assert (Hheld : length heldSources = S (length (sources s)))
    by (unfold heldSources; rewrite length_app, Hlen; cbn; lia).
  cbn zeta. rewrite Hs1. unfold playPressed.
  cbn [currentAudioData]. rewrite Hdata.
  rewrite (playAudioData_held _ _ _ (length (sources s)))
    by (cbn [savedOffsetRef]; auto; apply Qle_refl).
  cbn [isPlaying isPaused savedOffsetRef voiceSourceRef sources].
  rewrite stopAt_length, Hheld.
  split; [reflexivity|]. split; [reflexivity|]. split; [reflexivity|].
  split; [reflexivity|]. split; [|split; [|split; [reflexivity|split]]].
  - unfold heldSources. rewrite lookup_app_r by lia.
    rewrite Hlen, Nat.sub_diag. reflexivity.
  - rewrite lookup_app_l by (rewrite stopAt_length, Hheld; lia).
    unfold stopAt at 1. rewrite list_lookup_alter.
    destruct (decide (length (sources s) = length (sources s)));
      [|contradiction].
    unfold heldSources. rewrite lookup_app_r by lia.
    rewrite Hlen, Nat.sub_diag. reflexivity.
  - rewrite lookup_app_r by (rewrite stopAt_length, Hheld; lia).
    rewrite stopAt_length, Hheld, Nat.sub_diag. reflexivity.
  - reflexivity.
Qed.

(** A project with audio, played from the start, paused after 3 s, resumed
    at 10 s, paused at 12 s, resumed at 20 s: five seconds have been
    heard. *)
Lemma resume_starts_where_the_pause_stopped_witness :
  let s := playPressed 0 (mounted (Some [0; 32767; -32768]%Z)) in
  let presses := [(3, 10); (12, 20)] in
  playing s /\ 0 <= savedOffsetRef s /\ ascending (startTimeRef s) presses
  /\ savedOffsetRef (listen s presses) == 5
  /\ length (sources (listen s presses)) = 3%nat.
Proof.
  intros s presses.
  assert (H1 : playing s).
  { split; [reflexivity|]. split; [reflexivity|].
    split; [exists 0%nat; split; reflexivity|].
    eexists _, _. reflexivity. }
  assert (H2 : 0 <= savedOffsetRef s) by discriminate.
  assert (H3 : ascending (startTimeRef s) presses)
    by (cbn; repeat split; discriminate).
  split; [exact H1|]. split; [exact H2|]. split; [exact H3|].
  destruct (resume_starts_where_the_pause_stopped presses s H1 H2 H3)
    as (_ & Hsaved & _ & Hlen).
  split; [rewrite Hsaved; reflexivity|exact Hlen].
Defined.

(** Paused after 3 s and resumed at once; the event of the stopped source
    arrives afterwards. *)
Lemma late_ended_event_rewinds_the_player_witness :
  let s := playPressed 0 (mounted (Some [0; 32767; -32768]%Z)) in
  let s1 := onended (playPressed 4 (pausePlayback 3 s)) in
  playing s /\ 0 <= savedOffsetRef s /\ startTimeRef s <= 3
  /\ isPlaying s1 = false /\ savedOffsetRef s1 = 0
  /\ sources s1 !! 1%nat = Some {| offset := 0 + (3 - 0) * 1; stopped := false |}.
Proof.
  intros s s1.
  assert (H1 : playing s).
  { split; [reflexivity|]. split; [reflexivity|].
    split; [exists 0%nat; split; reflexivity|].
    eexists _, _. reflexivity. }
  assert (H2 : 0 <= savedOffsetRef s) by discriminate.
  assert (H3 : startTimeRef s <= 3) by discriminate.
  split; [exact H1|]. split; [exact H2|]. split; [exact H3|].
  destruct (late_ended_event_rewinds_the_player s 3 4 9 H1 H2 H3)
    as (Hplay & _ & Hsaved & _ & Hsrc & _).
  split; [exact Hplay|]. split; [exact Hsaved|exact Hsrc].
Defined.

End PlayerProps.

(** ** components/StoryInterface.tsx: synthesis *)
Module StudioProps.
Import JSString Types Schema Podcast StoryStudio.
Local Open Scope string_scope.

Section Synthesis.
Context {Failure : Type}.
Variable regexMatch : string -> string -> option (option string).
Variable generateContent : nat -> string -> string -> Failure + Response.
Variable base64ToUint8Array : string -> option (list Z).

Lemma firstMatch_voice members : forall trimmedLine turn,
  firstMatch regexMatch members trimmedLine = Some (Some turn) ->
  In (turn_voiceId turn) (map voiceId members).
Proof.
  induction members as [|member members IH]; intros line turn H;
    cbn in H; [discriminate|].
  destruct (regexMatch (member_name member) line) as [[group|]|];
    [injection H as <-; left; reflexivity|right; eauto|discriminate].
Qed.

Lemma firstMatch_none members : forall trimmedLine,
  (forall m, In m members ->
     regexMatch (member_name m) trimmedLine = Some None) ->
  firstMatch regexMatch members trimmedLine = Some None.
Proof.
  induction members as [|member members IH]; intros line H; [reflexivity|].
  cbn. rewrite (H member) by (left; reflexivity).
  apply IH. intros m Hm. apply H. right. exact Hm.
Qed.

Lemma firstMatch_returns members : forall trimmedLine,
  (forall name line, is_Some (regexMatch name line)) ->
  is_Some (firstMatch regexMatch members trimmedLine).
Proof.
  induction members as [|member members IH]; intros line H; cbn; [eauto|].
  destruct (H (member_name member) line) as [[group|] ->]; eauto.
Qed.

Lemma turnsOfLine_spec cast line ts :
  turnsOfLine regexMatch cast line = Some ts ->
  length ts = (if spoken line then 1 else 0)%nat
  /\ Forall (fun t => In (turn_voiceId t) (map voiceId cast)) ts.
Proof.
  unfold turnsOfLine, spoken.
  destruct (JS.truthy_string (trim line)); cbn [negb].
  - destruct (firstMatch regexMatch cast (trim line)) as [[turn|]|] eqn:E;
      [| |discriminate].
    + intros [= <-]. split; [reflexivity|].
      constructor; [|constructor]. eapply firstMatch_voice, E.
    + destruct cast as [|narrator rest]; [discriminate|].
      intros [= <-]. split; [reflexivity|].
      constructor; [left; reflexivity|constructor].
  - intros [= <-]. split; [reflexivity|constructor].
Qed.

Lemma turnsOfLines_spec cast lines : forall ts,
  turnsOfLines regexMatch cast lines = Some ts ->
  length ts = length (List.filter spoken lines)
  /\ Forall (fun t => In (turn_voiceId t) (map voiceId cast)) ts.
Proof.
  induction lines as [|line lines IH]; intros ts H; cbn in H.
  - injection H as <-. split; [reflexivity|constructor].
  - destruct (turnsOfLine regexMatch cast line) as [first|] eqn:E1;
      [|discriminate].
    destruct (turnsOfLines regexMatch cast lines) as [rest|] eqn:E2;
      [|discriminate].
    cbn in H. injection H as <-.
    destruct (turnsOfLine_spec _ _ _ E1) as [Hl1 Hv1].
    destruct (IH _ eq_refl) as [Hl2 Hv2].
    split; [|apply Forall_app; auto].
    rewrite length_app, Hl1, Hl2. cbn [List.filter].
    destruct (spoken line); reflexivity.
Qed.

Lemma turnsOfLines_returns cast lines :
  cast <> [] -> (forall name line, is_Some (regexMatch name line)) ->
  is_Some (turnsOfLines regexMatch cast lines).
Proof.
  intros Hcast Hregex. induction lines as [|line lines [rest IH]]; cbn;
    [eauto|].
  rewrite IH.
  assert (H : is_Some (turnsOfLine regexMatch cast line)).
  { unfold turnsOfLine. destruct (JS.truthy_string (trim line)); cbn; [|eauto].
    destruct (firstMatch_returns cast (trim line) Hregex) as [[turn|] ->];
      [eauto|].
    destruct cast; [contradiction|eauto]. }
  destruct H as [first ->]. cbn. eauto.
Qed.

(** X27.  On the story page every line of the script that is not blank
    gives exactly one turn, blank lines give none, and every turn is spoken
    with the voice of a member of the cast: a line that the pattern of no
    member matches goes, whole, to the first member.  The script is always
    parsed when the cast is not empty and no name makes a pattern that
    throws. *)
Theorem every_line_is_spoken_by_the_cast cast text :
  (forall ts, scriptTurns regexMatch cast text = Some ts ->
     length ts = length (List.filter spoken (split "010"%char text))
     /\ Forall (fun t => In (turn_voiceId t) (map voiceId cast)) ts)
  /\ (cast <> [] -> (forall name line, is_Some (regexMatch name line)) ->
      is_Some (scriptTurns regexMatch cast text))
  /\ (forall line narrator rest,
        cast = narrator :: rest -> spoken line = true ->
        (forall m, In m cast ->
           regexMatch (member_name m) (trim line) = Some None) ->
        turnsOfLine regexMatch cast line
        = Some [{| turn_voiceId := voiceId narrator;
                   turn_text := trim line |}]).
Proof.
  split; [|split].
  - intros ts. apply turnsOfLines_spec.
  - intros. apply turnsOfLines_returns; assumption.
  - intros line narrator rest -> Hspoken Hnone.
    unfold turnsOfLine. fold (spoken line). rewrite Hspoken. cbn [negb].
    rewrite (firstMatch_none _ _ Hnone). reflexivity.
Qed.

Lemma speak_requests voices turns : forall parts net,
  (requests (snd (speak generateContent base64ToUint8Array voices turns
                    parts net))
   <= requests net + length turns)%nat.
Proof.
  induction turns as [|turn turns IH]; intros parts net; cbn [speak length];
    [cbn; lia|].
  destruct (JS.truthy_string (turn_text turn)); cbn [negb];
    [|etransitivity; [apply IH|lia]].
  destruct (voiceOption voices turn) as [voice|]; [|cbn; lia].
  destruct (generateContent (requests net) (apiId voice) (turn_text turn))
    as [e|[b64|]]; [cbn; lia| |].
  - destruct (JS.truthy_string b64).
    + destruct (base64ToUint8Array b64 ≫= int16Array) as [pcm|];
        [|cbn; lia].
      etransitivity; [apply IH|cbn; lia].
    + etransitivity; [apply IH|cbn; lia].
  - etransitivity; [apply IH|cbn; lia].
Qed.

(** X28.  [handleGenerate] of the story page does nothing for a script
    that is blank.  Otherwise it ends with the loading flag off and the
    saved offset of the player at zero, having made at most one request for
    each line that is not blank.  It raises at most one alert, and when it
    raises one, nothing has been saved, the audio is the one there was and
    the player is as [stopPlayback(true)] leaves it.  The database is
    written only by one [saveProject] of the project with the page's id,
    for a user, and then the merged audio is shown.  When that audio has
    samples it is playing from its start.  When it has none, the buffer
    constructor throws after the save: nothing plays, no source is held and
    none was started, and no alert is raised. *)
Theorem story_generation_rewinds_and_plays_from_the_start
    env page st db n :
  let r := handleGenerate regexMatch generateContent base64ToUint8Array
             env page st db n in
  (trim (scriptText page) = EmptyString ->
     r = {| studio := st; database := db; net := n |})
  /\ (trim (scriptText page) <> EmptyString ->
      isLoading (studio r) = false
      /\ Player.savedOffsetRef (player (studio r)) = 0%Q
      /\ (requests (net r)
          <= requests n
             + length (List.filter spoken
                         (split "010"%char (scriptText page))))%nat
      /\ (alerts (studio r) = alerts st
          \/ (alerts (studio r) = S (alerts st) /\ database r = db
              /\ currentAudioData (studio r) = currentAudioData st
              /\ player (studio r) = Player.stopPlayback true (player st)))
      /\ (database r = db
          \/ exists owner mergedPcm,
               userId page = Some owner
               /\ currentAudioData (studio r) = Some mergedPcm
               /\ database r =
                    Database.saveProject (savedAt env)
                      (projectData env page owner
                         (Z.of_nat (length mergedPcm) # 24000)) db
               /\ lastSaved (studio r) = Some (lastSavedAt env)
               /\ alerts (studio r) = alerts st
               /\ (mergedPcm <> [] ->
                   Player.isPlaying (player (studio r)) = true
                   /\ exists k,
                        Player.voiceSourceRef (player (studio r)) = Some k
                        /\ Player.sources (player (studio r)) !! k
                           = Some {| Player.offset := 0;
                                     Player.stopped := false |})
               /\ (mergedPcm = [] ->
                   Player.isPlaying (player (studio r)) = false
                   /\ Player.voiceSourceRef (player (studio r)) = None
                   /\ Player.sources (player (studio r))
                      = Player.sources
                          (Player.stopPlayback true (player st))))).
Proof.
  cbn zeta. unfold handleGenerate. split.
  - intros ->. reflexivity.
  - intros Hne.
    destruct (trim (scriptText page)) as [|c t] eqn:Et; [congruence|].
    cbn [JS.truthy_string negb].
    destruct (clientOk env); cbn [negb];
      [|cbn; split; [reflexivity|]; split; [reflexivity|]; split; [lia|];
        split; [right; repeat split|left; reflexivity]].
    destruct (scriptTurns regexMatch (cast page) (scriptText page))
      as [turns|] eqn:Eparse;
      [|cbn; split; [reflexivity|]; split; [reflexivity|]; split; [lia|];
        split; [right; repeat split|left; reflexivity]].
    destruct (turnsOfLines_spec _ _ _ Eparse) as [Hturns _].
    pose proof (speak_requests (availableVoices page) turns [] n) as Hreq.
    rewrite Hturns in Hreq.
    destruct (speak generateContent base64ToUint8Array (availableVoices page)
                turns [] n) as [[parts|] n'] eqn:Espeak; cbn [snd] in Hreq;
      [|cbn; split; [reflexivity|]; split; [reflexivity|];
        split; [exact Hreq|]; split; [right; repeat split|left; reflexivity]].
    destruct (0 <? length parts)%nat;
      [|cbn; split; [reflexivity|]; split; [reflexivity|];
        split; [exact Hreq|]; split; [left; reflexivity|left; reflexivity]].
    assert (Hstart : forall p sample samples,
      Player.playAudioData (Some (sample :: samples)) (currentTime env) 0
        (Player.setCurrentAudioData (Some (sample :: samples))
           (Player.stopPlayback true p))
      = {| Player.currentAudioData := Some (sample :: samples);
           Player.audioContextRef := true;
           Player.voiceSourceRef :=
             Some (length (Player.sources (Player.stopPlayback true p)));
           Player.startTimeRef := currentTime env;
           Player.savedOffsetRef := 0;
           Player.isManualStopRef := false;
           Player.isPlaying := true;
           Player.isPaused := false;
           Player.sources :=
             (Player.sources (Player.stopPlayback true p)
                ++ [{| Player.offset := 0; Player.stopped := false |}])%list
        |}) by reflexivity.
    assert (Hthrow : forall p,
      Player.playAudioData (Some []) (currentTime env) 0
        (Player.setCurrentAudioData (Some []) (Player.stopPlayback true p))
      = {| Player.currentAudioData := Some [];
           Player.audioContextRef := true;
           Player.voiceSourceRef := None;
           Player.startTimeRef := Player.startTimeRef p;
           Player.savedOffsetRef := 0;
           Player.isManualStopRef := false;
           Player.isPlaying := false;
           Player.isPaused := false;
           Player.sources := Player.sources (Player.stopPlayback true p) |})
      by reflexivity.
    unfold saveToDB, currentAudioData.
    destruct (concat parts) as [|sample samples] eqn:Epcm;
      (destruct (userId page) as [owner|] eqn:Eo;
       [destruct (JS.truthy_string owner); cbn [negb];
        [destruct (saveResolves env)|]|]);
      cbn [studio database net isLoading alerts player lastSaved];
      rewrite ?Hstart, ?Hthrow;
      cbn [Player.savedOffsetRef Player.currentAudioData];
      (split; [reflexivity|]); (split; [reflexivity|]);
      (split; [exact Hreq|]); (split; [left; reflexivity|]);
      try (left; reflexivity); right.
    + exists owner, []. cbn [length].
      split; [reflexivity|]. split; [reflexivity|]. split; [reflexivity|].
      split; [reflexivity|]. split; [reflexivity|].
      split; [intros H; destruct H; reflexivity|].
      intros _. repeat split.
    + exists owner, (sample :: samples).
      split; [reflexivity|]. split; [reflexivity|]. split; [reflexivity|].
      split; [reflexivity|]. split; [reflexivity|].
      split; [|discriminate].
      intros _. split; [reflexivity|].
      eexists. split; [reflexivity|]. cbn [Player.sources].
      rewrite lookup_app_r by lia. rewrite Nat.sub_diag. reflexivity.
Qed.

(** X29.  On the story page a save that fails is silent: whether
    [saveProject] resolves, and what the clocks read, changes neither the
    alerts, nor the audio shown, nor the requests made, nor what the player
    does; a save that fails leaves the database and the time of the last
    save as they were. *)
Theorem failed_story_save_is_silent env env' page st db n :
  clientOk env' = clientOk env -> currentTime env' = currentTime env ->
  let r := handleGenerate regexMatch generateContent base64ToUint8Array
             env page st db n in
  let r' := handleGenerate regexMatch generateContent base64ToUint8Array
              env' page st db n in
  alerts (studio r') = alerts (studio r)
  /\ currentAudioData (studio r') = currentAudioData (studio r)
  /\ player (studio r') = player (studio r)
  /\ isLoading (studio r') = isLoading (studio r)
  /\ net r' = net r
  /\ (saveResolves env = false ->
      database r = db /\ lastSaved (studio r) = lastSaved st).
Proof.
  intros Hclient Hclock. cbn zeta. unfold handleGenerate.
  rewrite Hclient, Hclock.
  destruct (JS.truthy_string (trim (scriptText page))); cbn [negb];
    [|repeat split].
  destruct (clientOk env); cbn [negb]; [|repeat split].
  destruct (scriptTurns regexMatch (cast page) (scriptText page))
    as [turns|]; [|repeat split].
  destruct (speak generateContent base64ToUint8Array (availableVoices page)
              turns [] n) as [[parts|] n']; [|repeat split].
  destruct (0 <? length parts)%nat; [|repeat split].
  unfold saveToDB.
  destruct (userId page) as [owner|];
    [destruct (JS.truthy_string owner); cbn [negb]|]; cbn;
    repeat split; try reflexivity;
    match goal with
    | H : saveResolves env = false |- _ => rewrite H; reflexivity
    end.
Qed.

End Synthesis.

(** Two lines, two requests of two samples each, saved for the user and
    played from the start. *)
Lemma story_generation_rewinds_and_plays_from_the_start_witness :
  let r := handleGenerate Scenes.colonMatch Scenes.twoSamples Audio.atob
             (Scenes.offline true) Scenes.tale Scenes.silence Scenes.shelf
             {| requests := 0; waited := 0 |} in
  trim (scriptText Scenes.tale) <> EmptyString
  /\ isLoading (studio r) = false
  /\ requests (net r) = 2%nat
  /\ currentAudioData (studio r) = Some [0; 32767; -32768; 0; 32767; -32768]%Z
  /\ Player.isPlaying (player (studio r)) = true
  /\ length (Database.getProjectsByUser Scenes.alice (database r)) = 3%nat.
Proof.
  intros r.
  assert (H : trim (scriptText Scenes.tale) <> EmptyString) by discriminate.
  split; [exact H|].
  destruct (story_generation_rewinds_and_plays_from_the_start
              Scenes.colonMatch Scenes.twoSamples Audio.atob
              (Scenes.offline true) Scenes.tale Scenes.silence Scenes.shelf
              {| requests := 0; waited := 0 |}) as [_ Hrun].
  destruct (Hrun H) as (Hloading & _).
  split; [exact Hloading|]. repeat split; reflexivity.
Defined.

(** The same story when the payloads hold no sample: the project is saved
    with audio of no length, and the page neither plays nor alerts. *)
Lemma empty_audio_is_saved_and_not_played :
  let r := handleGenerate Scenes.colonMatch Scenes.blankAudio Scenes.noBytes
             (Scenes.offline true) Scenes.tale Scenes.silence Scenes.shelf
             {| requests := 0; waited := 0 |} in
  currentAudioData (studio r) = Some []
  /\ length (Database.getProjectsByUser Scenes.alice (database r)) = 3%nat
  /\ Player.isPlaying (player (studio r)) = false
  /\ Player.sources (player (studio r)) = []
  /\ alerts (studio r) = 0%nat
  /\ isLoading (studio r) = false.
Proof. vm_compute. repeat split. Qed.

(** The same story with a database that does not take the save. *)
Lemma failed_story_save_is_silent_witness :
  let r := handleGenerate Scenes.colonMatch Scenes.twoSamples Audio.atob
             (Scenes.offline false) Scenes.tale Scenes.silence Scenes.shelf
             {| requests := 0; waited := 0 |} in
  let r' := handleGenerate Scenes.colonMatch Scenes.twoSamples Audio.atob
              (Scenes.offline true) Scenes.tale Scenes.silence Scenes.shelf
              {| requests := 0; waited := 0 |} in
  alerts (studio r) = 0%nat
  /\ alerts (studio r') = alerts (studio r)
  /\ player (studio r') = player (studio r)
  /\ database r = Scenes.shelf
  /\ database r' <> Scenes.shelf.
Proof.
  intros r r'.
  destruct (failed_story_save_is_silent Scenes.colonMatch Scenes.twoSamples
              Audio.atob (Scenes.offline false) (Scenes.offline true)
              Scenes.tale Scenes.silence Scenes.shelf
              {| requests := 0; waited := 0 |} eq_refl eq_refl)
    as (Halerts & _ & Hplayer & _ & _ & Hfailed).
  destruct (Hfailed eq_refl) as [Hdb _].
  split; [reflexivity|]. split; [exact Halerts|]. split; [exact Hplayer|].
  split; [exact Hdb|]. discriminate.
Defined.

End StudioProps.
